(** * Magnetpro: the benchmark and scoring engine

    A shallow embedding of the scoring code of the Instagram performance
    analyzer -- the benchmark service ([calculatePercentile],
    [getBenchmarks], [calculateBenchmarks], [getGlobalBenchmarks],
    [calculateRankings], [calculateOverallScore]), the metrics the scraper
    derives from a profile ([calculateEngagementMetrics]), and the analyze
    route with its [generateInsights] -- and the properties its
    specification states about it, followed by further properties of the
    same code. The first part holds the model, the second the properties.

    JavaScript numbers are IEEE 754 binary64 values; they are modelled by
    [spec_float] with the operations of [SpecFloat] at precision 53, so every
    arithmetic result below is the one the engine computes, bit for bit. *)

From Stdlib Require Import ZArith Lia Bool Ascii String.
From Stdlib Require Import Floats.SpecFloat.
From Stdlib Require Import DecimalString DecimalNat.
From stdpp Require Import gmap strings list sorting.

(** ** JavaScript numbers and the [Math] functions the engine calls *)
Module JS.

Definition prec : Z := 53.
Definition emax : Z := 1024.

Definition number : Type := spec_float.

Definition NaN : number := S754_nan.

(** An integer literal, or an integer converted to a number. *)
Definition int (z : Z) : number := binary_normalize prec emax z 0 false.

(** [a + b], [a - b], [a * b], [a / b]. *)
Definition add (a b : number) : number := SFadd prec emax a b.
Definition sub (a b : number) : number := SFsub prec emax a b.
Definition mul (a b : number) : number := SFmul prec emax a b.
Definition div (a b : number) : number := SFdiv prec emax a b.

(** The decimal literal [n]e-[k], e.g. [dec 3 1] for [0.3]: the binary64
    value nearest to [n / 10^k] (the quotient of two exactly represented
    integers, correctly rounded). *)
Definition dec (n : Z) (k : nat) : number := div (int n) (int (10 ^ Z.of_nat k)).

(** [a < b], [a > b], [a >= b], [a <= b]; all false when an operand is NaN. *)
Definition lt (a b : number) : bool := SFltb a b.
Definition gt (a b : number) : bool := SFltb b a.
Definition ge (a b : number) : bool := SFleb b a.
Definition le (a b : number) : bool := SFleb a b.

Definition is_nan (a : number) : bool :=
  match a with S754_nan => true | _ => false end.

Definition is_neg_zero (a : number) : bool :=
  match a with S754_zero true => true | _ => false end.

Definition is_pos_zero (a : number) : bool :=
  match a with S754_zero false => true | _ => false end.

(** [Math.min(a, b)]: NaN when either is NaN; -0 is smaller than +0. *)
Definition Math_min (a b : number) : number :=
  match SFcompare a b with
  | None => NaN
  | Some Lt => a
  | Some Gt => b
  | Some Eq => if is_neg_zero a then a else b
  end.

(** [Math.max(a, b)]: NaN when either is NaN; +0 is larger than -0. *)
Definition Math_max (a b : number) : number :=
  match SFcompare a b with
  | None => NaN
  | Some Lt => b
  | Some Gt => a
  | Some Eq => if is_pos_zero a then a else b
  end.

(** [floor (n / 2^k + 1/2)] for [k >= 1]. *)
Definition round_half_up (n k : Z) : Z := (n + 2 ^ (k - 1)) / 2 ^ k.

(** [Math.round(x)]: the integer nearest to [x], ties towards +infinity;
    NaN, the infinities, the zeros and integers are returned unchanged, and
    a value in [-0.5, 0) gives -0. *)
Definition Math_round (x : number) : number :=
  match x with
  | S754_finite s m e =>
      if (0 <=? e)%Z then x
      else
        match round_half_up (cond_Zopp s (Zpos m)) (- e) with
        | Z0 => S754_zero s
        | q => int q
        end
  | _ => x
  end.

(** [x.toFixed(2)] of a finite [x], as the number of hundredths it prints:
    the integer [n] with [n / 100] nearest to [x], the larger one on a tie
    (taken on the magnitude, the sign is printed in front). *)
Definition toFixed2 (x : number) : option Z :=
  match x with
  | S754_zero _ => Some 0%Z
  | S754_finite s m e =>
      Some (cond_Zopp s
              (if (0 <=? e)%Z then 100 * Zpos m * 2 ^ e
               else round_half_up (100 * Zpos m) (- e)))%Z
  | _ => None
  end.

(** A finite number in its canonical representation (what a numeric
    literal, a JSON number or an arithmetic result that is neither NaN nor
    infinite is). *)
Definition finite (x : number) : bool :=
  match x with
  | S754_zero _ => true
  | S754_finite _ m e => bounded prec emax m e
  | _ => false
  end.

(** Any number but NaN, in its canonical representation. *)
Definition is_number (x : number) : bool :=
  match x with
  | S754_nan => false
  | S754_finite _ m e => bounded prec emax m e
  | _ => true
  end.

(** A finite number that is +0 or positive. *)
Definition nonnegative (x : number) : bool :=
  match x with
  | S754_zero false | S754_finite false _ _ => true
  | _ => false
  end.

(** Falsy numbers: the zeros and NaN. *)
Definition falsy (x : number) : bool :=
  match x with
  | S754_zero _ | S754_nan => true
  | _ => false
  end.

(** *** Row fields

    A field of a row as the engine reads it: [null] for SQL NULL, or the
    Number the field denotes. An INTEGER column arrives as a Number and a
    DECIMAL column as its decimal string; the engine reads both only
    through arithmetic, comparison and [parseFloat], which give the Number
    the string denotes. *)
Inductive field : Type :=
  | Null
  | Num (n : number).

(** The conversion an arithmetic or relational operator applies. *)
Definition ToNumber (f : field) : number :=
  match f with
  | Null => int 0
  | Num n => n
  end.

(** [parseFloat(f)]. *)
Definition parseFloat (f : field) : number :=
  match f with
  | Null => NaN
  | Num n => n
  end.

(** [f || 0], as the Number it is read as: 0 for [null] and for a falsy
    Number (the string of a zero DECIMAL is truthy, and denotes 0 too). *)
Definition or_zero (f : field) : field :=
  match f with
  | Null => Num (int 0)
  | Num n => if falsy n then Num (int 0) else f
  end.

(** *** Strings and integer Numbers

    What a COUNT column of a result row holds, and what [parseInt] is
    applied to: a string, or an integer Number (below 10^21 in magnitude,
    so that it prints in plain decimal notation). *)
Inductive value : Type :=
  | Str (s : string)
  | Int (z : Z).

(** Truthiness: the empty string and 0 are falsy, every other string
    (["0"] included) and every other integer is truthy. *)
Definition truthy (v : value) : bool :=
  match v with
  | Str s => negb (String.eqb s "")
  | Int z => negb (z =? 0)%Z
  end.

(** [a || b]. *)
Definition logical_or (a b : value) : value := if truthy a then a else b.

Definition is_space (c : ascii) : bool :=
  match nat_of_ascii c with
  | 9%nat | 10%nat | 11%nat | 12%nat | 13%nat | 32%nat => true
  | _ => false
  end.

Fixpoint skip_spaces (s : string) : string :=
  match s with
  | String c s' => if is_space c then skip_spaces s' else s
  | EmptyString => s
  end.

(** The value of a digit in a radix up to 36, [None] for another character. *)
Definition digit_value (c : ascii) : option Z :=
  let n := Z.of_nat (nat_of_ascii c) in
  if ((48 <=? n) && (n <=? 57))%Z then Some (n - 48)%Z
  else if ((97 <=? n) && (n <=? 122))%Z then Some (n - 87)%Z
  else if ((65 <=? n) && (n <=? 90))%Z then Some (n - 55)%Z
  else None.

(** The longest prefix of digits of the radix, read as an integer; [acc] is
    [None] until a digit has been read. *)
Fixpoint parse_digits (radix : Z) (acc : option Z) (s : string) : option Z :=
  match s with
  | String c s' =>
      match digit_value c with
      | Some d =>
          if (d <? radix)%Z
          then parse_digits radix (Some (radix * default 0%Z acc + d)%Z) s'
          else acc
      | None => acc
      end
  | EmptyString => acc
  end.

Definition parse_unsigned (s : string) : option Z :=
  match s with
  | String "0" (String "x" s') | String "0" (String "X" s') => parse_digits 16 None s'
  | _ => parse_digits 10 None s
  end.

(** [parseInt(s)] of a string: leading white space, a sign, an optional
    [0x], then the longest prefix of digits; [None] is NaN. *)
Definition parseInt_string (s : string) : option Z :=
  match skip_spaces s with
  | String "-" s' => Z.opp <$> parse_unsigned s'
  | String "+" s' => parse_unsigned s'
  | s' => parse_unsigned s'
  end.

(** [parseInt(v)]; [None] is NaN. An integer Number is first printed, in
    plain decimal notation, and read back. *)
Definition parseInt (v : value) : option Z :=
  match v with
  | Str s => parseInt_string s
  | Int z => Some z
  end.

(** The decimal string of a natural number. *)
Definition decimal_string (n : nat) : string :=
  NilZero.string_of_uint (Nat.to_uint n).

(** *** Order and sign

    Notions the properties below are stated and proved with. *)

(** The least exponent of a binary64 number, and the value of a number in
    units of [2^emin] (an integer for every finite number; the infinities
    get the first power of two beyond the finite range). *)
Definition emin : Z := SpecFloat.emin prec emax.

Definition scaled (x : number) : Z :=
  match x with
  | S754_finite s m e => cond_Zopp s (Zpos m * 2 ^ (e - emin))%Z
  | S754_infinity s => cond_Zopp s (2 ^ (emax - emin))%Z
  | _ => 0%Z
  end.

(** The order of the values. *)
Definition scaled_le (a b : number) : Prop := (scaled a <= scaled b)%Z.

(** [r] is an infinity or a non-zero finite number of sign [s]. *)
Definition signed (s : bool) (r : number) : Prop :=
  match r with
  | S754_infinity s' | S754_finite s' _ _ => s' = s
  | _ => False
  end.

(** [r] is a zero, an infinity or a finite number of sign [s]: not NaN. *)
Definition signed0 (s : bool) (r : number) : Prop :=
  match r with
  | S754_zero s' | S754_infinity s' | S754_finite s' _ _ => s' = s
  | S754_nan => False
  end.

(** *** More of [Math] and [Number.prototype] *)

(** [Math.floor(x)]: the largest integer at or below [x]; NaN, the
    infinities, the zeros and integers are returned unchanged. *)
Definition Math_floor (x : number) : number :=
  match x with
  | S754_finite s m e =>
      if (0 <=? e)%Z then x
      else
        match (cond_Zopp s (Zpos m) / 2 ^ (- e))%Z with
        | Z0 => S754_zero s
        | q => int q
        end
  | _ => x
  end.

(** *** Printing and reading back

    What [toFixed] returns, or what [parseFloat] is applied to: a numeral
    in plain decimal notation, [-]n / 10^digits, or a Number that
    [ToString] prints (NaN, an infinity, or a number in exponent
    notation). *)
Inductive printed : Type :=
  | Plain (negative : bool) (n : Z) (digits : nat)
  | AsToString (x : number).

(** [x.toFixed(digits)]: a number of magnitude below 10^21 is printed as
    the integer [n] for which [n / 10^digits] is nearest to it, the larger
    one on a tie, behind the sign of [x] (no sign for -0). *)
Definition toFixed (digits : nat) (x : number) : printed :=
  match x with
  | S754_zero _ => Plain false 0 digits
  | S754_finite s m e =>
      if (if (0 <=? e)%Z then (10 ^ 21 <=? Zpos m * 2 ^ e)%Z
          else (10 ^ 21 * 2 ^ (- e) <=? Zpos m)%Z)
      then AsToString x
      else
        Plain s
          (if (0 <=? e)%Z then 10 ^ Z.of_nat digits * Zpos m * 2 ^ e
           else round_half_up (10 ^ Z.of_nat digits * Zpos m) (- e))%Z
          digits
  | _ => AsToString x
  end.

(** [parseFloat(s)] of such a string: the number nearest to the numeral
    (the quotient of two integers, correctly rounded), or the Number
    printed (the string of -0 is ["0"]). *)
Definition parseFloat_printed (s : printed) : number :=
  match s with
  | Plain negative n digits =>
      match n with
      | Zpos p =>
          SFdiv prec emax (S754_finite negative p 0)
            (S754_finite false (Z.to_pos (10 ^ Z.of_nat digits)) 0)
      | _ => S754_zero negative
      end
  | AsToString x => if is_neg_zero x then S754_zero false else x
  end.

End JS.

(** ** The scraper: [calculateEngagementMetrics] *)
Module Metrics.
Import JS.

(** A timestamp of a post as the function reads it: missing, a Number of
    milliseconds, or a string that is not a numeric literal (an ISO 8601
    date). *)
Inductive stamp : Type :=
  | NoStamp
  | Millis (t : number)
  | DateString.

Definition stamp_truthy (t : stamp) : bool :=
  match t with
  | NoStamp => false
  | Millis t => negb (falsy t)
  | DateString => true
  end.

(** The Number the subtraction converts a timestamp to. *)
Definition stamp_number (t : stamp) : number :=
  match t with
  | Millis t => t
  | _ => NaN
  end.

(** A post of [latestPosts] (the properties the function reads). *)
Record post : Type := {
  likesCount : field;
  commentsCount : field;
  videoViewCount : field;
  type : option string;
  timestamp : stamp
}.

(** The scraped profile (the properties the function reads). *)
Record apify_profile : Type := {
  latestPosts : option (list post);
  followersCount : field
}.

Record metrics : Type := {
  engagement_rate : number;
  avg_likes : number;
  avg_comments : number;
  avg_views : number;
  post_frequency : number;
  reel_percentage : number
}.

(** [posts.reduce((sum, post) => sum + (post.f || 0), 0)]. *)
Definition total (f : post -> field) (posts : list post) : number :=
  fold_left (fun sum post => add sum (ToNumber (or_zero (f post)))) posts (int 0).

(** [post.type === 'Reel' || post.videoViewCount > 0]. *)
Definition is_reel (p : post) : bool :=
  match type p with
  | Some t => String.eqb t "Reel"
  | None => false
  end
  || match videoViewCount p with
     | Num n => gt n (int 0)
     | Null => false
     end.

(** [!profile.followersCount]. *)
Definition no_followers (f : field) : bool :=
  match f with
  | Null => true
  | Num n => falsy n
  end.

(** [calculateEngagementMetrics(profile)]; [random] is what
    [Math.random()] returns when it is called. *)
Definition calculateEngagementMetrics (random : number) (profile : apify_profile)
  : metrics :=
  let posts := default [] (latestPosts profile) in
  if (length posts =? 0)%nat || no_followers (followersCount profile) then
    {| engagement_rate := int 0; avg_likes := int 0; avg_comments := int 0;
       avg_views := int 0; post_frequency := int 0; reel_percentage := int 0 |}
  else
    let totalLikes := total likesCount posts in
    let totalComments := total commentsCount posts in
    let totalViews := total videoViewCount posts in
    let avgLikes := Math_floor (div totalLikes (int (Z.of_nat (length posts)))) in
    let avgComments := Math_floor (div totalComments (int (Z.of_nat (length posts)))) in
    let avgViews :=
      if gt totalViews (int 0)
      then Math_floor (div totalViews (int (Z.of_nat (length posts))))
      else int 0 in
    let engagementRate :=
      toFixed 2
        (mul (div (add avgLikes avgComments) (ToNumber (followersCount profile)))
           (int 100)) in
    let reels := List.filter is_reel posts in
    let reelPercentage :=
      Math_floor
        (mul (div (int (Z.of_nat (length reels))) (int (Z.of_nat (length posts))))
           (int 100)) in
    let postFrequency :=
      if (2 <=? length posts)%nat
         && stamp_truthy (from_option timestamp NoStamp (head posts))
         && stamp_truthy (from_option timestamp NoStamp (last posts))
      then
        let daysDiff :=
          div (sub (stamp_number (from_option timestamp NoStamp (head posts)))
                   (stamp_number (from_option timestamp NoStamp (last posts))))
              (mul (mul (mul (int 1000) (int 60)) (int 60)) (int 24)) in
        if gt daysDiff (int 0)
        then toFixed 1 (mul (div (int (Z.of_nat (length posts))) daysDiff) (int 7))
        else AsToString (int 0)
      else toFixed 1 (add (mul random (int 4)) (int 3)) in
    {| engagement_rate := parseFloat_printed engagementRate;
       avg_likes := avgLikes;
       avg_comments := avgComments;
       avg_views := avgViews;
       post_frequency := parseFloat_printed postFrequency;
       reel_percentage := reelPercentage |}.

Local Open Scope Z_scope.

(** Twelve posts, three of them reels, 50 likes and 4 comments each, for
    an account with 1200 followers; the timestamps are ISO dates. *)
Definition sample_post (reel : bool) : post :=
  {| likesCount := Num (int 50); commentsCount := Num (int 4);
     videoViewCount := if reel then Num (int 900) else Null;
     type := Some (if reel then "Video" else "Image");
     timestamp := DateString |}.

Definition sample_profile : apify_profile :=
  {| latestPosts := Some (map sample_post [true; false; false; false; true; false;
                                           false; false; true; false; false; false]);
     followersCount := Num (int 1200) |}.

End Metrics.

(** ** DistributionStatistics: [calculatePercentile] *)
Module Percentile.
Import JS.

(** The comparator the engine passes to [sort]: [(a, b) => a - b]. *)
Definition comparator (a b : number) : number := sub a b.

(** [Array.prototype.sort(cmp)] is a stable sort; it is modelled by the
    stable insertion sort that moves [x] past [y] exactly when
    [cmp(x, y) > 0]. *)
Fixpoint insert (cmp : number -> number -> number) (x : number) (l : list number)
  : list number :=
  match l with
  | [] => [x]
  | y :: l' => if gt (cmp x y) (int 0) then y :: insert cmp x l' else x :: l
  end.

Fixpoint sort (cmp : number -> number -> number) (l : list number) : list number :=
  match l with
  | [] => []
  | x :: l' => insert cmp x (sort cmp l')
  end.

(** [Array.prototype.findIndex(p)]: the first index whose element satisfies
    [p], or [-1]. *)
Fixpoint findIndex (p : number -> bool) (l : list number) : Z :=
  match l with
  | [] => -1
  | x :: l' =>
      if p x then 0
      else let i := findIndex p l' in if (i =? -1)%Z then (-1)%Z else (i + 1)%Z
  end.

(** [calculatePercentile(value, distribution)]. The array is passed by
    reference and [sort] works in place ([sorted] is the same array), so
    the function returns, next to its result, the contents the caller's
    array holds after the call. [None] stands for a missing ([undefined] or
    [null]) argument. *)
Definition calculatePercentile (value : number) (distribution : option (list number))
  : number * option (list number) :=
  match distribution with
  | None => (int 50, None)
  | Some d =>
      if (length d =? 0)%nat then (int 50, Some d)
      else
        let sorted := sort comparator d in
        let index := findIndex (fun v => ge v value) sorted in
        if (index =? -1)%Z then (int 100, Some sorted)
        else
          let percentile :=
            mul (div (int index) (int (Z.of_nat (length sorted)))) (int 100) in
          (Math_round percentile, Some sorted)
  end.

(** The reference definition of the specification: 50 without samples, 100
    when every sample is strictly below the value, and otherwise the rounded
    share, in percent, of the samples strictly below it. *)
Definition strictly_below (value : number) (d : list number) : list number :=
  filter (fun x => lt x value = true) d.

Definition percentile_spec (value : number) (d : list number) : number :=
  match d with
  | [] => int 50
  | _ =>
      let i := length (strictly_below value d) in
      if (i =? length d)%nat then int 100
      else Math_round (mul (div (int (Z.of_nat i)) (int (Z.of_nat (length d)))) (int 100))
  end.

Local Open Scope Z_scope.

(** The samples 1, 2, ..., 200. *)
Definition samples_1_200 : list number := map int (seqZ 1 200).

End Percentile.

(** ** The store: tables, rows and the SQL the engine sends *)
Module Db.
Import JS.

(** SQL's three-valued logic: [None] is unknown (NULL). *)
Definition tv : Type := option bool.

Definition sql_and (a b : tv) : tv :=
  match a, b with
  | Some false, _ | _, Some false => Some false
  | Some true, Some true => Some true
  | _, _ => None
  end.

Definition sql_or (a b : tv) : tv :=
  match a, b with
  | Some true, _ | _, Some true => Some true
  | Some false, Some false => Some false
  | _, _ => None
  end.

(** [a = b] on strings. *)
Definition sql_eq (a b : option string) : tv :=
  match a, b with
  | Some x, Some y => Some (String.eqb x y)
  | _, _ => None
  end.

(** [a = b] and [a > b] on integers (a DECIMAL(5,2) is its number of
    hundredths). *)
Definition sql_eqz (a b : option Z) : tv :=
  match a, b with
  | Some x, Some y => Some (x =? y)%Z
  | _, _ => None
  end.

Definition sql_gt (a b : option Z) : tv :=
  match a, b with
  | Some x, Some y => Some (y <? x)%Z
  | _, _ => None
  end.

(** A WHERE clause keeps the rows on which its condition is true. *)
Definition holds (c : tv) : bool :=
  match c with
  | Some true => true
  | _ => false
  end.

(** A NUMERIC(p, 2) column: NaN, or a number of hundredths. *)
Inductive numeric : Type :=
  | NumericNaN
  | Numeric (hundredths : Z).

(** A text assigned to a VARCHAR(n) column. The store keeps a value of at
    most [n] characters as it is; of a longer one it drops the characters
    past the [n]-th when they are all spaces (the rule of the SQL standard)
    and rejects the value otherwise: [None] is the error
    [value too long for type character varying(n)]. *)
Fixpoint all_spaces (s : string) : bool :=
  match s with
  | EmptyString => true
  | String c s' => Ascii.eqb c " " && all_spaces s'
  end.

Fixpoint varchar (n : nat) (s : string) : option string :=
  match s, n with
  | EmptyString, _ => Some EmptyString
  | String c s', S n' => option_map (String c) (varchar n' s')
  | String _ _, O => if all_spaces s then Some EmptyString else None
  end.

(** The same for a parameter that may be NULL, which any column without
    NOT NULL takes. *)
Definition varchar_null (n : nat) (s : option string) : option (option string) :=
  match s with
  | None => Some None
  | Some x => option_map Some (varchar n x)
  end.

(** A row of [profiles] (the columns the engine reads). [followers] and
    [engagement_rate] have DEFAULT 0 and are written on every insert and
    update; the DECIMAL(5,2) columns are held in hundredths, the timestamps
    in seconds. *)
Record profile_row : Type := {
  username : string;
  followers : Z;
  engagement_rate : Z;
  post_frequency : option Z;
  reel_percentage : option Z;
  industry : option string;
  location_city : option string;
  location_state : option string;
  location_country : option string;
  last_scraped : option Z
}.

(** A row of [benchmarks]. *)
Record benchmark_row : Type := {
  b_industry : string;
  b_location_type : option string;
  b_location_value : option string;
  b_avg_followers : numeric;
  b_avg_engagement : numeric;
  b_avg_post_frequency : numeric;
  b_avg_stories_per_day : numeric;
  b_avg_reel_percentage : numeric;
  b_follower_distribution : option (list number);
  b_engagement_distribution : option (list number);
  b_sample_size : option Z;
  b_last_calculated : option Z;
  b_updated_at : option Z
}.

(** How the driver hands over a bigint (what COUNT returns): node-postgres
    gives its decimal string unless it is configured to parse it. The
    setting belongs to the connection module (config/database), so the
    choice is a field of the connection. *)
Inductive int8_parser : Type :=
  | Int8AsString
  | Int8AsNumber.

Definition decode_int8 (p : int8_parser) (n : nat) : value :=
  match p with
  | Int8AsString => Str (decimal_string n)
  | Int8AsNumber => Int (Z.of_nat n)
  end.

(** The connection: the driver's setting, the two tables and the time
    [NOW()] returns. *)
Record database : Type := {
  int8 : int8_parser;
  profiles : list profile_row;
  benchmarks : list benchmark_row;
  now : Z
}.

Definition hours (n : Z) : Z := (n * 3600)%Z.
Definition days (n : Z) : Z := (n * 86400)%Z.

(** [SELECT COUNT( * )]: the number of rows the WHERE clause keeps. *)
Definition count {A} (where_ : A -> tv) (rows : list A) : nat :=
  length (List.filter (fun r => holds (where_ r)) rows).

(** What the engine computes or throws. *)
Inductive result (A : Type) : Type :=
  | Ok (a : A)
  | Throw (message : string).
Arguments Ok {A} a.
Arguments Throw {A} message.

End Db.

(** ** BenchmarkResolver: [getBenchmarks], [calculateBenchmarks],
    [getGlobalBenchmarks] *)
Module Benchmarks.
Import JS Db.

(** A row of the hardcoded table. *)
Record global_row : Type := {
  avg_followers : number;
  avg_engagement : number;
  avg_post_frequency : number
}.

(** The ['default'] row. *)
Definition default_row : global_row :=
  {| avg_followers := int 15000; avg_engagement := dec 30 1;
     avg_post_frequency := dec 50 1 |}.

(** The object literal [benchmarks] of [getGlobalBenchmarks]: its own
    properties. *)
Definition table : gmap string global_row :=
  list_to_map [
    ("fitness", {| avg_followers := int 15000; avg_engagement := dec 35 1;
                   avg_post_frequency := dec 52 1 |});
    ("beauty", {| avg_followers := int 25000; avg_engagement := dec 42 1;
                  avg_post_frequency := dec 75 1 |});
    ("health", {| avg_followers := int 18000; avg_engagement := dec 38 1;
                  avg_post_frequency := dec 48 1 |});
    ("fashion", {| avg_followers := int 35000; avg_engagement := dec 32 1;
                   avg_post_frequency := dec 92 1 |});
    ("food", {| avg_followers := int 20000; avg_engagement := dec 45 1;
                avg_post_frequency := dec 80 1 |});
    ("business", {| avg_followers := int 12000; avg_engagement := dec 25 1;
                    avg_post_frequency := dec 40 1 |});
    ("default", default_row)
  ].

(** The properties every object literal inherits from [Object.prototype];
    [benchmarks[industry]] finds them when the object has no own property
    of that name, and each is an object (a function, or for [__proto__] the
    prototype itself), hence truthy. *)
Definition Object_prototype : list string :=
  [ "constructor"; "hasOwnProperty"; "isPrototypeOf"; "propertyIsEnumerable";
    "toLocaleString"; "toString"; "valueOf"; "__proto__";
    "__defineGetter__"; "__defineSetter__"; "__lookupGetter__"; "__lookupSetter__" ].

(** What [getGlobalBenchmarks] returns: a row of the table, or the
    inherited property found under the name. *)
Inductive global : Type :=
  | Row (r : global_row)
  | Inherited (name : string).

(** [benchmarks[key]]: [None] is [undefined]. *)
Definition get (key : string) : option global :=
  match table !! key with
  | Some r => Some (Row r)
  | None => if bool_decide (key ∈ Object_prototype) then Some (Inherited key) else None
  end.

(** [getGlobalBenchmarks(industry)]:
    [benchmarks[industry] || benchmarks['default']]. *)
Definition getGlobalBenchmarks (industry : string) : option global :=
  match get industry with
  | Some g => Some g
  | None => get "default"
  end.

(** The object literal [calculateBenchmarks] returns after a recomputation. *)
Record computed : Type := {
  c_industry : string;
  c_location_type : string;
  c_location_value : option string;
  c_avg_followers : number;
  c_avg_engagement : number;
  c_avg_post_frequency : number;
  c_avg_reel_percentage : number;
  c_follower_distribution : list number;
  c_engagement_distribution : list number;
  c_sample_size : Z
}.

(** The baseline [getBenchmarks] resolves to: a cached row as the driver
    returns it, a fresh computation, or the fallback. *)
Inductive baseline : Type :=
  | Cached (row : benchmark_row)
  | Computed (c : computed)
  | Global (g : option global).

(** [b.sample_size], [b.follower_distribution],
    [b.engagement_distribution]: [None] is [undefined] or [null]. *)
Definition sample_size (b : baseline) : option Z :=
  match b with
  | Cached row => b_sample_size row
  | Computed c => Some (c_sample_size c)
  | Global _ => None
  end.

Definition follower_distribution (b : baseline) : option (list number) :=
  match b with
  | Cached row => b_follower_distribution row
  | Computed c => Some (c_follower_distribution c)
  | Global _ => None
  end.

Definition engagement_distribution (b : baseline) : option (list number) :=
  match b with
  | Cached row => b_engagement_distribution row
  | Computed c => Some (c_engagement_distribution c)
  | Global _ => None
  end.

(** [sampleSize: benchmarks.sample_size || 100], as both routes report it. *)
Definition reported_sampleSize (b : baseline) : Z :=
  match sample_size b with
  | Some n => if (n =? 0)%Z then 100%Z else n
  | None => 100%Z
  end.

(** The Number a DECIMAL(5,2) value read from a row denotes. *)
Definition of_hundredths (z : Z) : number := dec z 2.

(** The corpus query of [calculateBenchmarks]. *)
Definition corpus_where (industry_ : string) (city state country : option string)
    (t : Z) (p : profile_row) : tv :=
  sql_and
    (sql_and
       (sql_eq (industry p) (Some industry_))
       (sql_or (sql_or (sql_eq (location_city p) city)
                       (sql_eq (location_state p) state))
               (sql_eq (location_country p) country)))
    (sql_gt (last_scraped p) (Some (t - days 30)%Z)).

(** [data.reduce((sum, p) => sum + f(p), 0) / data.length]. *)
Definition mean (f : profile_row -> number) (data : list profile_row) : number :=
  div (fold_left (fun sum p => add sum (f p)) data (int 0))
      (int (Z.of_nat (length data))).

(** A parameter written with [toFixed(2)] and stored in a NUMERIC(p, 2)
    column: [None] when the store rejects it (an infinity, or more than [p]
    digits in all). *)
Definition store_numeric (p : Z) (x : number) : option numeric :=
  if is_nan x then Some NumericNaN
  else
    match toFixed2 x with
    | Some h => if (Z.abs h <? 10 ^ p)%Z then Some (Numeric h) else None
    | None => None
    end.

(** The conflict target of the upsert: the UNIQUE key
    [(industry, location_type, location_value)]; NULLs never conflict. *)
Definition same_key (industry_ : string) (city : option string) (b : benchmark_row) : bool :=
  holds (sql_and
           (sql_and (sql_eq (Some (b_industry b)) (Some industry_))
                    (sql_eq (b_location_type b) (Some "city")))
           (sql_eq (b_location_value b) city)).

(** INSERT ... ON CONFLICT ... DO UPDATE. *)
Definition upsert (industry_ : string) (city : option string)
    (af ae apf ar : numeric) (fd ed : list number) (n : Z) (t : Z)
    (rows : list benchmark_row) : list benchmark_row :=
  if existsb (same_key industry_ city) rows then
    map (fun b =>
           if same_key industry_ city b then
             {| b_industry := b_industry b;
                b_location_type := b_location_type b;
                b_location_value := b_location_value b;
                b_avg_followers := af;
                b_avg_engagement := ae;
                b_avg_post_frequency := apf;
                b_avg_stories_per_day := b_avg_stories_per_day b;
                b_avg_reel_percentage := ar;
                b_follower_distribution := Some fd;
                b_engagement_distribution := Some ed;
                b_sample_size := Some n;
                b_last_calculated := b_last_calculated b;
                b_updated_at := Some t |}
           else b) rows
  else
    rows ++ [ {| b_industry := industry_;
                 b_location_type := Some "city";
                 b_location_value := city;
                 b_avg_followers := af;
                 b_avg_engagement := ae;
                 b_avg_post_frequency := apf;
                 b_avg_stories_per_day := Numeric 0;
                 b_avg_reel_percentage := ar;
                 b_follower_distribution := Some fd;
                 b_engagement_distribution := Some ed;
                 b_sample_size := Some n;
                 b_last_calculated := Some t;
                 b_updated_at := Some t |} ].

(** [calculateBenchmarks(industry, locationCity, locationState,
    locationCountry)]: the baseline and the store after the call. The
    INSERT builds its row column by column, so that a name the VARCHAR(100)
    columns [industry] and [location_value] reject is reported before an
    average that overflows its NUMERIC column; the object returned holds
    the arguments and the averages as they were passed and computed. *)
Definition calculateBenchmarks (industry_ : string) (locationCity locationState
    locationCountry : option string) (db : database) : result (baseline * database) :=
  let data :=
    List.filter
      (fun p => holds (corpus_where industry_ locationCity locationState
                         locationCountry (now db) p))
      (profiles db) in
  if (length data =? 0)%nat then Ok (Global (getGlobalBenchmarks industry_), db)
  else
    let avgFollowers := mean (fun p => int (followers p)) data in
    let avgEngagement := mean (fun p => of_hundredths (engagement_rate p)) data in
    let avgPostFreq :=
      mean (fun p => parseFloat
                       (or_zero (from_option (fun h => Num (of_hundredths h)) Null
                                   (post_frequency p)))) data in
    let avgReels :=
      mean (fun p => ToNumber
                       (or_zero (from_option (fun z => Num (int z)) Null
                                   (reel_percentage p)))) data in
    let followerDistribution := map (fun p => int (followers p)) data in
    let engagementDistribution := map (fun p => of_hundredths (engagement_rate p)) data in
    match varchar 100 industry_, varchar_null 100 locationCity with
    | Some industry_stored, Some city_stored =>
        match store_numeric 10 avgFollowers, store_numeric 5 avgEngagement,
              store_numeric 5 avgPostFreq, store_numeric 5 avgReels with
        | Some af, Some ae, Some apf, Some ar =>
            Ok (Computed
                  {| c_industry := industry_;
                     c_location_type := "city";
                     c_location_value := locationCity;
                     c_avg_followers := avgFollowers;
                     c_avg_engagement := avgEngagement;
                     c_avg_post_frequency := avgPostFreq;
                     c_avg_reel_percentage := avgReels;
                     c_follower_distribution := followerDistribution;
                     c_engagement_distribution := engagementDistribution;
                     c_sample_size := Z.of_nat (length data) |},
                {| int8 := int8 db;
                   profiles := profiles db;
                   benchmarks :=
                     upsert industry_stored city_stored af ae apf ar followerDistribution
                       engagementDistribution (Z.of_nat (length data)) (now db)
                       (benchmarks db);
                   now := now db |})
        | _, _, _, _ => Throw "numeric field overflow"
        end
    | _, _ => Throw "value too long for type character varying(100)"
    end.

(** The cache query of [getBenchmarks]. *)
Definition cache_where (industry_ : string) (city : option string) (t : Z)
    (b : benchmark_row) : tv :=
  sql_and
    (sql_and
       (sql_and (sql_eq (Some (b_industry b)) (Some industry_))
                (sql_eq (b_location_type b) (Some "city")))
       (sql_eq (b_location_value b) city))
    (sql_gt (b_updated_at b) (Some (t - hours 24)%Z)).

(** [getBenchmarks(industry, locationCity, locationState, locationCountry)]. *)
Definition getBenchmarks (industry_ : string) (locationCity locationState
    locationCountry : option string) (db : database) : result (baseline * database) :=
  match List.filter (fun b => holds (cache_where industry_ locationCity (now db) b))
          (benchmarks db) with
  | row :: _ => Ok (Cached row, db)
  | [] => calculateBenchmarks industry_ locationCity locationState locationCountry db
  end.

Local Open Scope Z_scope.

(** A store whose only kayaking account was scraped 40 days ago, and whose
    cached kayaking baseline is two days old. *)
Definition kayaking_db : database :=
  {| int8 := Int8AsString;
     profiles :=
       [ {| username := "paddler"; followers := 800; engagement_rate := 410;
            post_frequency := Some 300; reel_percentage := Some 20;
            industry := Some "kayaking"; location_city := Some "Bergen";
            location_state := None; location_country := Some "Norway";
            last_scraped := Some (days 60) |} ];
     benchmarks :=
       [ {| b_industry := "kayaking"; b_location_type := Some "city";
            b_location_value := Some "Bergen";
            b_avg_followers := Numeric 80000; b_avg_engagement := Numeric 410;
            b_avg_post_frequency := Numeric 300; b_avg_stories_per_day := Numeric 0;
            b_avg_reel_percentage := Numeric 2000;
            b_follower_distribution := Some [int 800];
            b_engagement_distribution := Some [dec 410 2];
            b_sample_size := Some 1;
            b_last_calculated := Some (days 98); b_updated_at := Some (days 98) |} ];
     now := days 100 |}.

(** A row that holds the values of a recomputation. *)
Definition stored (af ae apf ar : numeric) (fd ed : list number) (n t : Z)
    (b : benchmark_row) : Prop :=
  b_avg_followers b = af /\ b_avg_engagement b = ae /\ b_avg_post_frequency b = apf /\
  b_avg_reel_percentage b = ar /\ b_follower_distribution b = Some fd /\
  b_engagement_distribution b = Some ed /\ b_sample_size b = Some n /\
  b_updated_at b = Some t.

(** An average a ratio can be taken against: finite and positive. *)
Definition usable (x : number) : Prop := finite x = true /\ gt x (int 0) = true.

End Benchmarks.

(** ** RankCalculator: [calculateRankings] *)
Module Rankings.
Import JS Db.

(** The filter of the three rank queries:
    [<location column> = $1 AND industry = $2
     AND (followers > $3 OR (followers = $3 AND engagement_rate > $4))]. *)
Definition rank_where (column : profile_row -> option string)
    (location : option string) (industry_ : option string)
    (followers_ engagement_rate_ : Z) (p : profile_row) : tv :=
  sql_and
    (sql_and (sql_eq (column p) location) (sql_eq (industry p) industry_))
    (sql_or (sql_gt (Some (followers p)) (Some followers_))
            (sql_and (sql_eqz (Some (followers p)) (Some followers_))
                     (sql_gt (Some (engagement_rate p)) (Some engagement_rate_)))).

(** The filter of the three total queries:
    [<location column> = $1 AND industry = $2]. *)
Definition total_where (column : profile_row -> option string)
    (location : option string) (industry_ : option string) (p : profile_row) : tv :=
  sql_and (sql_eq (column p) location) (sql_eq (industry p) industry_).

(** One entry of the result: [rank] and [total] are what [parseInt]
    returned ([None] is NaN); [place] is the location passed in, the
    property [name] of the city and state entries and [country] of the
    national one. *)
Record scope : Type := {
  rank : option Z;
  total : option Z;
  place : option string
}.

Record rankings : Type := {
  city : scope;
  state : scope;
  national : scope
}.

(** One scope: [SELECT COUNT( * ) + 1 as rank], [SELECT COUNT( * ) as total],
    then [parseInt(rank)] and [parseInt(total || fallback)]. *)
Definition scope_ranking (db : database) (column : profile_row -> option string)
    (location : option string) (industry_ : option string)
    (followers_ engagement_rate_ : Z) (fallback : Z) : scope :=
  let rank_ :=
    decode_int8 (int8 db)
      (count (rank_where column location industry_ followers_ engagement_rate_)
         (profiles db) + 1) in
  let total_ :=
    decode_int8 (int8 db) (count (total_where column location industry_) (profiles db)) in
  {| rank := parseInt rank_;
     total := parseInt (logical_or total_ (Int fallback));
     place := location |}.

(** [calculateRankings(username, industry, locationCity, locationState,
    locationCountry)]. *)
Definition calculateRankings (username_ : string) (industry_ : option string)
    (locationCity locationState locationCountry : option string) (db : database)
  : result rankings :=
  match List.filter (fun p => String.eqb (username p) username_) (profiles db) with
  | [] => Throw "Profile not found in database"
  | profile :: _ =>
      let followers_ := followers profile in
      let engagement_rate_ := engagement_rate profile in
      Ok {| city := scope_ranking db location_city locationCity industry_
                      followers_ engagement_rate_ 1000;
            state := scope_ranking db location_state locationState industry_
                       followers_ engagement_rate_ 5000;
            national := scope_ranking db location_country locationCountry industry_
                          followers_ engagement_rate_ 50000 |}
  end.

(** The ordering the specification names: a member dominates the subject
    when it has more followers, or as many and a greater engagement rate. *)
Definition dominates (p : profile_row) (followers_ engagement_rate_ : Z) : bool :=
  (followers_ <? followers p)%Z
  || ((followers p =? followers_)%Z && (engagement_rate_ <? engagement_rate p)%Z).

(** A member of a scope: its industry and its location column are the ones
    asked for (a NULL on either side matches nothing). *)
Definition in_scope (column : profile_row -> option string)
    (location : option string) (industry_ : option string) (p : profile_row) : bool :=
  match column p, location, industry p, industry_ with
  | Some l, Some l', Some i, Some i' => String.eqb l l' && String.eqb i i'
  | _, _, _, _ => false
  end.

(** The members of a scope, and those of them that dominate a subject with
    the given followers and engagement rate. *)
Definition members (column : profile_row -> option string)
    (location : option string) (industry_ : option string)
    (rows : list profile_row) : list profile_row :=
  List.filter (in_scope column location industry_) rows.

Definition dominating (column : profile_row -> option string)
    (location : option string) (industry_ : option string)
    (followers_ engagement_rate_ : Z) (rows : list profile_row) : list profile_row :=
  List.filter (fun p => dominates p followers_ engagement_rate_)
    (members column location industry_ rows).

Local Open Scope Z_scope.

(** Three fitness accounts in Austin. *)
Definition austin (name : string) (followers_ engagement_rate_ : Z) : profile_row :=
  {| username := name; followers := followers_; engagement_rate := engagement_rate_;
     post_frequency := Some 420; reel_percentage := Some 35;
     industry := Some "fitness"; location_city := Some "Austin";
     location_state := Some "Texas"; location_country := Some "United States";
     last_scraped := Some 0 |}.

Definition austin_db : database :=
  {| int8 := Int8AsString;
     profiles := [austin "ann" 9000 310; austin "bob" 12543 320; austin "cyd" 12543 350];
     benchmarks := [];
     now := 0 |}.

End Rankings.

(** ** ScoreCalculator: [calculateOverallScore] *)
Module Score.
Import JS.

(** The fields of the profile row the score reads. *)
Record profile : Type := {
  followers : field;
  engagement_rate : field;
  post_frequency : field
}.

(** The averages of the baseline, each the Number the division converts
    the field to. *)
Record benchmarks : Type := {
  avg_followers : number;
  avg_engagement : number;
  avg_post_frequency : number
}.

(** [calculateOverallScore(profile, benchmarks)]. *)
Definition calculateOverallScore (profile_ : profile) (benchmarks_ : benchmarks) : number :=
  let followerScore :=
    Math_min (int 100)
      (mul (div (ToNumber (followers profile_)) (avg_followers benchmarks_)) (int 100)) in
  let engagementScore :=
    Math_min (int 100)
      (mul (div (ToNumber (engagement_rate profile_)) (avg_engagement benchmarks_))
         (int 100)) in
  let postScore :=
    Math_min (int 100)
      (mul (div (ToNumber (post_frequency profile_)) (avg_post_frequency benchmarks_))
         (int 100)) in
  let overallScore :=
    Math_round
      (add (add (mul followerScore (dec 3 1)) (mul engagementScore (dec 5 1)))
         (mul postScore (dec 2 1))) in
  Math_min (int 100) (Math_max (int 0) overallScore).

(** The formula of the specification: the weighted sum of the three capped
    ratios, rounded, then clamped ([lo] at or below [lo], [hi] above [hi]). *)
Definition clamp (x lo hi : number) : number :=
  if le x lo then lo else if gt x hi then hi else x.

Definition ratio_score (metric average : number) : number :=
  Math_min (int 100) (mul (div metric average) (int 100)).

Definition score_spec (followers_ engagementRate postFrequency avgFollowers
    avgEngagement avgPostFrequency : number) : number :=
  clamp
    (Math_round
       (add (add (mul (dec 3 1) (ratio_score followers_ avgFollowers))
               (mul (dec 5 1) (ratio_score engagementRate avgEngagement)))
          (mul (dec 2 1) (ratio_score postFrequency avgPostFrequency))))
    (int 0) (int 100).

Local Open Scope Z_scope.

(** The example of the specification. *)
Definition example_profile : profile :=
  {| followers := Num (int 12543);
     engagement_rate := Num (dec 32 1);
     post_frequency := Num (dec 42 1) |}.

Definition example_benchmarks : benchmarks :=
  {| avg_followers := int 8500;
     avg_engagement := dec 23 1;
     avg_post_frequency := dec 52 1 |}.

End Score.

(** ** InsightGenerator: [generateInsights] *)
Module Insights.
Import JS Db.

Inductive insight_type : Type := success | warning | info.

Inductive category : Type := engagement | frequency | content | overall.

(** A template literal: text, and numbers printed with [toFixed]. *)
Inductive fragment : Type :=
  | Lit (s : string)
  | Fixed (x : number) (digits : nat).

Record insight : Type := {
  type : insight_type;
  cat : category;
  message : list fragment;
  recommendation : list fragment
}.

(** The fields of the profile row the rules read. *)
Record profile : Type := {
  engagement_rate : field;
  post_frequency : field;
  reel_percentage : field
}.

(** The Number a NUMERIC value denotes. *)
Definition numeric_number (x : numeric) : number :=
  match x with
  | NumericNaN => NaN
  | Numeric h => Benchmarks.of_hundredths h
  end.

(** An average of the baseline object: a Number, the decimal string of a
    NUMERIC column, or [undefined]. *)
Inductive average : Type :=
  | AvgNumber (x : number)
  | AvgString (x : numeric)
  | AvgUndefined.

(** The conversion an arithmetic operator, [Math.round] or [parseFloat]
    applies to an average. *)
Definition average_number (a : average) : number :=
  match a with
  | AvgNumber x => x
  | AvgString x => numeric_number x
  | AvgUndefined => NaN
  end.

(** The averages of the baseline the rules read. *)
Record benchmarks : Type := {
  avg_engagement : average;
  avg_post_frequency : average
}.

(** The receiver of [benchmarks.avg_post_frequency.toFixed(...)]: only a
    Number has the method; on a string the call is a TypeError, and so is
    the property access on [undefined]. *)
Definition toFixed_receiver (a : average) : result number :=
  match a with
  | AvgNumber x => Ok x
  | AvgString _ => Throw "benchmarks.avg_post_frequency.toFixed is not a function"
  | AvgUndefined => Throw "Cannot read properties of undefined (reading 'toFixed')"
  end.

(** The six object literals the rules push. *)
Definition engagement_warning (engagementRate : number) : insight :=
  {| type := warning; cat := engagement;
     message := [ Lit "Your engagement rate ("; Fixed engagementRate 1;
                  Lit "%) is below average for your industry" ];
     recommendation :=
       [ Lit "Add CTAs to every post and ask questions to boost comments by 40-60%" ] |}.

Definition engagement_success (engagementRate avg_engagement_ : number) : insight :=
  {| type := success; cat := engagement;
     message :=
       [ Lit "Excellent engagement rate! You're ";
         Fixed (mul (sub (div engagementRate avg_engagement_) (int 1)) (int 100)) 0;
         Lit "% above average" ];
     recommendation :=
       [ Lit "Keep doing what you are doing and consider sharing your strategy" ] |}.

Definition frequency_warning (postFreq avg_post_frequency_ : number) : insight :=
  {| type := warning; cat := frequency;
     message := [ Lit "You're posting less frequently than competitors (";
                  Fixed postFreq 1; Lit "/week vs ";
                  Fixed avg_post_frequency_ 1; Lit "/week)" ];
     recommendation :=
       [ Lit "Increase posting frequency by 2-3 posts per week to reach ";
         Fixed avg_post_frequency_ 0; Lit " posts/week" ] |}.

Definition content_info : insight :=
  {| type := info; cat := content;
     message := [ Lit "Reels make up less than 30% of your content" ];
     recommendation :=
       [ Lit "Reels typically get 3.2x more engagement - aim for 40-60% Reels" ] |}.

Definition overall_success : insight :=
  {| type := success; cat := overall;
     message := [ Lit "You are crushing it! Top-tier performance in your niche" ];
     recommendation :=
       [ Lit "Focus on maintaining consistency and consider monetization opportunities" ] |}.

Definition overall_warning : insight :=
  {| type := warning; cat := overall;
     message := [ Lit "Your competitors are outpacing you" ];
     recommendation :=
       [ Lit "Focus on engagement, post frequency, and leveraging trending content" ] |}.

(** [insights.push(x)]. *)
Definition push (x : insight) (insights : list insight) : list insight :=
  insights ++ [x].

(** [generateInsights(profile, benchmarks, score)]: the list returned, or
    the TypeError thrown while the frequency warning is built. The
    comparisons and the ratio of the engagement success convert an average
    to a Number; the templates of the frequency warning call its
    [toFixed]. *)
Definition generateInsights (profile_ : profile) (benchmarks_ : benchmarks)
    (score : number) : result (list insight) :=
  let insights := [] in
  let engagementRate := parseFloat (engagement_rate profile_) in
  let insights :=
    if lt engagementRate (mul (average_number (avg_engagement benchmarks_)) (dec 7 1)) then
      push (engagement_warning engagementRate) insights
    else if gt engagementRate (mul (average_number (avg_engagement benchmarks_)) (dec 13 1))
    then
      push (engagement_success engagementRate
              (average_number (avg_engagement benchmarks_))) insights
    else insights in
  let postFreq := parseFloat (or_zero (post_frequency profile_)) in
  match
    if lt postFreq (mul (average_number (avg_post_frequency benchmarks_)) (dec 7 1)) then
      match toFixed_receiver (avg_post_frequency benchmarks_) with
      | Ok avg => Ok (push (frequency_warning postFreq avg) insights)
      | Throw e => Throw e
      end
    else Ok insights
  with
  | Throw e => Throw e
  | Ok insights =>
      let insights :=
        if lt (ToNumber (reel_percentage profile_)) (int 30) then push content_info insights
        else insights in
      let insights :=
        if ge score (int 85) then push overall_success insights
        else if lt score (int 60) then push overall_warning insights
        else insights in
      Ok insights
  end.

(** Whether a list holds an insight of the given type and category. *)
Definition type_eqb (a b : insight_type) : bool :=
  match a, b with
  | success, success | warning, warning | info, info => true
  | _, _ => false
  end.

Definition category_eqb (a b : category) : bool :=
  match a, b with
  | engagement, engagement | frequency, frequency
  | content, content | overall, overall => true
  | _, _ => false
  end.

Definition emits (t : insight_type) (c : category) (insights : list insight) : bool :=
  existsb (fun i => type_eqb (type i) t && category_eqb (cat i) c) insights.


Definition frequency_fires (p : profile) (b : benchmarks) : bool :=
  lt (parseFloat (or_zero (post_frequency p)))
     (mul (average_number (avg_post_frequency b)) (dec 7 1)).

Definition content_fires (p : profile) : bool :=
  lt (ToNumber (reel_percentage p)) (int 30).


End Insights.

(** ** The analyze route, from the profile row on *)
Module Analyze.
Import JS Db.

(** How the driver hands over a NUMERIC (the DECIMAL columns):
    node-postgres gives its decimal string unless a parser is registered
    for the type. As for bigint, the choice belongs to the connection
    module. *)
Inductive numeric_parser : Type :=
  | NumericAsString
  | NumericAsNumber.

(** An average read from a row of [benchmarks]. *)
Definition read_numeric (np : numeric_parser) (x : numeric) : Insights.average :=
  match np with
  | NumericAsString => Insights.AvgString x
  | NumericAsNumber => Insights.AvgNumber (Insights.numeric_number x)
  end.

(** [benchmarks.avg_followers], [benchmarks.avg_engagement],
    [benchmarks.avg_post_frequency]. *)
Definition avg_followers (np : numeric_parser) (b : Benchmarks.baseline)
  : Insights.average :=
  match b with
  | Benchmarks.Cached row => read_numeric np (b_avg_followers row)
  | Benchmarks.Computed c => Insights.AvgNumber (Benchmarks.c_avg_followers c)
  | Benchmarks.Global (Some (Benchmarks.Row r)) =>
      Insights.AvgNumber (Benchmarks.avg_followers r)
  | Benchmarks.Global _ => Insights.AvgUndefined
  end.

Definition avg_engagement (np : numeric_parser) (b : Benchmarks.baseline)
  : Insights.average :=
  match b with
  | Benchmarks.Cached row => read_numeric np (b_avg_engagement row)
  | Benchmarks.Computed c => Insights.AvgNumber (Benchmarks.c_avg_engagement c)
  | Benchmarks.Global (Some (Benchmarks.Row r)) =>
      Insights.AvgNumber (Benchmarks.avg_engagement r)
  | Benchmarks.Global _ => Insights.AvgUndefined
  end.

Definition avg_post_frequency (np : numeric_parser) (b : Benchmarks.baseline)
  : Insights.average :=
  match b with
  | Benchmarks.Cached row => read_numeric np (b_avg_post_frequency row)
  | Benchmarks.Computed c => Insights.AvgNumber (Benchmarks.c_avg_post_frequency c)
  | Benchmarks.Global (Some (Benchmarks.Row r)) =>
      Insights.AvgNumber (Benchmarks.avg_post_frequency r)
  | Benchmarks.Global _ => Insights.AvgUndefined
  end.

(** The profile row as the score and the insights read it. *)
Definition decimal_field (x : option Z) : field :=
  from_option (fun h => Num (Benchmarks.of_hundredths h)) Null x.

Definition integer_field (x : option Z) : field :=
  from_option (fun z => Num (int z)) Null x.

Definition score_profile (p : profile_row) : Score.profile :=
  {| Score.followers := Num (int (followers p));
     Score.engagement_rate := Num (Benchmarks.of_hundredths (engagement_rate p));
     Score.post_frequency := decimal_field (post_frequency p) |}.

Definition score_benchmarks (np : numeric_parser) (b : Benchmarks.baseline)
  : Score.benchmarks :=
  {| Score.avg_followers := Insights.average_number (avg_followers np b);
     Score.avg_engagement := Insights.average_number (avg_engagement np b);
     Score.avg_post_frequency := Insights.average_number (avg_post_frequency np b) |}.

Definition insight_profile (p : profile_row) : Insights.profile :=
  {| Insights.engagement_rate := Num (Benchmarks.of_hundredths (engagement_rate p));
     Insights.post_frequency := decimal_field (post_frequency p);
     Insights.reel_percentage := integer_field (reel_percentage p) |}.

Definition insight_benchmarks (np : numeric_parser) (b : Benchmarks.baseline)
  : Insights.benchmarks :=
  {| Insights.avg_engagement := avg_engagement np b;
     Insights.avg_post_frequency := avg_post_frequency np b |}.

(** The [benchmarks] part of a response, as both routes build it. *)
Record summary : Type := {
  avgFollowers : number;
  avgEngagement : printed;
  avgPostFrequency : printed;
  sampleSize : Z
}.

Definition summarize (np : numeric_parser) (b : Benchmarks.baseline) : summary :=
  {| avgFollowers := Math_round (Insights.average_number (avg_followers np b));
     avgEngagement := toFixed 1 (Insights.average_number (avg_engagement np b));
     avgPostFrequency := toFixed 1 (Insights.average_number (avg_post_frequency np b));
     sampleSize := Benchmarks.reported_sampleSize b |}.

(** The body of a successful analysis (without the [profile] part, which
    repeats the row). *)
Record body : Type := {
  overall : number;
  followerPercentile : number;
  engagementPercentile : number;
  benchmarks_ : summary;
  rankings_ : Rankings.rankings;
  insights : list Insights.insight
}.

Inductive response : Type :=
  | Status200 (b : body)
  | Status500 (error : string).

(** The handler from [getBenchmarks] on, for the profile row [p] it has
    read or saved: the response, and the store afterwards. An exception is
    caught and answered with status 500 and its message. *)
Definition analysis (np : numeric_parser) (username_ industry_ : string)
    (locationCity locationState locationCountry : option string) (p : profile_row)
    (db : database) : response * database :=
  match Benchmarks.getBenchmarks industry_ locationCity locationState locationCountry db with
  | Throw e => (Status500 e, db)
  | Ok (b, db1) =>
      match Rankings.calculateRankings username_ (Some industry_) locationCity
              locationState locationCountry db1 with
      | Throw e => (Status500 e, db1)
      | Ok rankings =>
          match b with
          | Benchmarks.Global None =>
              (Status500 "Cannot read properties of undefined (reading 'follower_distribution')",
               db1)
          | _ =>
              let followerPercentile :=
                (Percentile.calculatePercentile (int (followers p))
                   (Some (default [] (Benchmarks.follower_distribution b)))).1 in
              let engagementPercentile :=
                (Percentile.calculatePercentile
                   (Benchmarks.of_hundredths (engagement_rate p))
                   (Some (default [] (Benchmarks.engagement_distribution b)))).1 in
              let overallScore :=
                Score.calculateOverallScore (score_profile p) (score_benchmarks np b) in
              match Insights.generateInsights (insight_profile p)
                      (insight_benchmarks np b) overallScore with
              | Throw e => (Status500 e, db1)
              | Ok insights_ =>
                  (Status200
                     {| overall := overallScore;
                        followerPercentile := followerPercentile;
                        engagementPercentile := engagementPercentile;
                        benchmarks_ := summarize np b;
                        rankings_ := rankings;
                        insights := insights_ |},
                   db1)
              end
          end
      end
  end.

Local Open Scope Z_scope.

(** A store with one fitness account in Austin that posts 4.2 times a
    week, and a baseline for fitness in Austin, cached an hour ago, with an
    average of 9 posts a week. *)
Definition ann : profile_row := Rankings.austin "ann" 9000 310.

Definition cached_row : benchmark_row :=
  {| b_industry := "fitness"; b_location_type := Some "city";
     b_location_value := Some "Austin";
     b_avg_followers := Numeric 1200000; b_avg_engagement := Numeric 350;
     b_avg_post_frequency := Numeric 900; b_avg_stories_per_day := Numeric 0;
     b_avg_reel_percentage := Numeric 3500;
     b_follower_distribution := Some [int 15000; int 9000];
     b_engagement_distribution := Some [dec 390 2; dec 310 2];
     b_sample_size := Some 2;
     b_last_calculated := Some 0; b_updated_at := Some 0 |}.

Definition cached_db : database :=
  {| int8 := Int8AsString; profiles := [ann]; benchmarks := [cached_row];
     now := hours 1 |}.
End Analyze.

(** * Properties *)

(** ** Numbers: order and sign *)
Section NumberFacts.
Import JS.
Local Open Scope Z_scope.

Lemma digits2_pos_bounds (p : positive) :
  2 ^ (Zpos (digits2_pos p) - 1) <= Zpos p < 2 ^ Zpos (digits2_pos p).
Proof.
  induction p as [p IH | p IH |]; cbn [digits2_pos].
  - rewrite Pos2Z.inj_succ. replace (Z.succ (Zpos (digits2_pos p)) - 1) with (Zpos (digits2_pos p)) by lia.
    rewrite Z.pow_succ_r by lia.
    assert (2 ^ Zpos (digits2_pos p) = 2 * 2 ^ (Zpos (digits2_pos p) - 1)) as E.
    { rewrite <- Z.pow_succ_r by lia. f_equal. lia. }
    lia.
  - rewrite Pos2Z.inj_succ. replace (Z.succ (Zpos (digits2_pos p)) - 1) with (Zpos (digits2_pos p)) by lia.
    rewrite Z.pow_succ_r by lia.
    assert (2 ^ Zpos (digits2_pos p) = 2 * 2 ^ (Zpos (digits2_pos p) - 1)) as E.
    { rewrite <- Z.pow_succ_r by lia. f_equal. lia. }
    lia.
  - cbn. lia.
Qed.

Lemma bounded_inv m e :
  bounded prec emax m e = true ->
  emin <= e /\ Zpos (digits2_pos m) <= prec /\ (emin < e -> Zpos (digits2_pos m) = prec).
Proof.
  unfold bounded, canonical_mantissa, fexp. fold emin.
  rewrite andb_true_iff, Z.eqb_eq, Z.leb_le. unfold prec, emax in *. lia.
Qed.

Lemma scaled_exp_lt m1 e1 m2 e2 :
  bounded prec emax m1 e1 = true -> bounded prec emax m2 e2 = true -> e1 < e2 ->
  Zpos m1 * 2 ^ (e1 - emin) < Zpos m2 * 2 ^ (e2 - emin).
Proof.
  intros [He1 [Hd1 _]]%bounded_inv [He2 [_ Hd2]]%bounded_inv Hlt.
  specialize (Hd2 ltac:(lia)).
  pose proof (digits2_pos_bounds m1) as [_ Hm1].
  pose proof (digits2_pos_bounds m2) as [Hm2 _].
  rewrite Hd2 in Hm2.
  assert (2 ^ Zpos (digits2_pos m1) <= 2 ^ prec) as Hp
    by (apply Z.pow_le_mono_r; lia).
  assert (0 < 2 ^ (e1 - emin)) as Hp1 by (apply Z.pow_pos_nonneg; lia).
  assert (0 < 2 ^ (e2 - emin)) as Hp2 by (apply Z.pow_pos_nonneg; lia).
  apply Z.lt_le_trans with (2 ^ prec * 2 ^ (e1 - emin)); [nia |].
  apply Z.le_trans with (2 ^ (prec - 1) * 2 ^ (e2 - emin)); [| nia].
  rewrite <- !Z.pow_add_r by (unfold prec; lia).
  apply Z.pow_le_mono_r; lia.
Qed.

Lemma compare_cont_Eq p q : Pos.compare_cont Eq p q = (Zpos p ?= Zpos q).
Proof. reflexivity. Qed.

Lemma scaled_compare_pos m1 e1 m2 e2 :
  bounded prec emax m1 e1 = true -> bounded prec emax m2 e2 = true ->
  match e1 ?= e2 with
  | Lt => Lt
  | Gt => Gt
  | Eq => Pos.compare_cont Eq m1 m2
  end = (Zpos m1 * 2 ^ (e1 - emin) ?= Zpos m2 * 2 ^ (e2 - emin)).
Proof.
  intros H1 H2. destruct (Z.compare_spec e1 e2) as [-> | Hlt | Hgt].
  - rewrite compare_cont_Eq. apply Zmult_compare_compat_r.
    apply Z.lt_gt, Z.pow_pos_nonneg; [lia |]. apply bounded_inv in H2. lia.
  - symmetry. apply Z.compare_lt_iff. now apply scaled_exp_lt.
  - symmetry. apply Z.compare_gt_iff. now apply scaled_exp_lt.
Qed.

Lemma scaled_pos_pos m e : emin <= e -> 0 < Zpos m * 2 ^ (e - emin).
Proof. intros. apply Z.mul_pos_pos; [lia |]. apply Z.pow_pos_nonneg; lia. Qed.

Lemma scaled_pos_lt_inf m e :
  bounded prec emax m e = true -> Zpos m * 2 ^ (e - emin) < 2 ^ (emax - emin).
Proof.
  intros Hb. pose proof (bounded_inv _ _ Hb) as [He [Hd _]].
  unfold bounded in Hb. apply andb_true_iff in Hb as [_ Hle%Z.leb_le].
  pose proof (digits2_pos_bounds m) as [_ Hm].
  assert (2 ^ Zpos (digits2_pos m) <= 2 ^ prec) as Hp by (apply Z.pow_le_mono_r; lia).
  assert (0 < 2 ^ (e - emin)) as Hp1 by (apply Z.pow_pos_nonneg; lia).
  apply Z.lt_le_trans with (2 ^ prec * 2 ^ (e - emin)); [nia |].
  rewrite <- Z.pow_add_r by (unfold prec; lia).
  apply Z.pow_le_mono_r; lia.
Qed.

Lemma finite_is_number x : finite x = true -> is_number x = true.
Proof. now destruct x. Qed.

Lemma compare_scaled (x y : number) :
  is_number x = true -> is_number y = true ->
  SFcompare x y = Some (scaled x ?= scaled y).
Proof.
  assert (0 < 2 ^ (emax - emin)) as Hinf by reflexivity.
  destruct x as [sx | sx | | sx mx ex], y as [sy | sy | | sy my ey];
    cbn [is_number scaled SFcompare]; try discriminate; intros Hx Hy;
    try pose proof (scaled_pos_pos mx ex (proj1 (bounded_inv _ _ Hx)));
    try pose proof (scaled_pos_pos my ey (proj1 (bounded_inv _ _ Hy)));
    try pose proof (scaled_pos_lt_inf mx ex Hx);
    try pose proof (scaled_pos_lt_inf my ey Hy);
    f_equal;
    try (try destruct sx; try destruct sy; cbn [cond_Zopp]; symmetry;
         first [apply Z.compare_eq_iff; lia | apply Z.compare_lt_iff; lia
               | apply Z.compare_gt_iff; lia]).
  - destruct sx, sy; cbn [cond_Zopp].
    + rewrite Z.compare_opp, (Z.compare_antisym (Zpos mx * _)).
      rewrite <- (scaled_compare_pos mx ex my ey Hx Hy).
      now destruct (ex ?= ey).
    + symmetry. apply Z.compare_lt_iff. lia.
    + symmetry. apply Z.compare_gt_iff. lia.
    + apply scaled_compare_pos; assumption.
Qed.

(** *** Rounding never loses the sign *)

Lemma iter_xO_value m d : Zpos (Pos.iter xO m d) = Zpos m * 2 ^ Zpos d.
Proof.
  induction d as [| d IH] using Pos.peano_ind.
  - cbn. lia.
  - rewrite Pos.iter_succ, Pos2Z.inj_succ, Z.pow_succ_r by lia.
    rewrite Pos2Z.inj_xO, IH. lia.
Qed.

Lemma shl_align_value m e e' :
  e' <= e ->
  Zpos (fst (shl_align m e e')) = Zpos m * 2 ^ (e - e') /\ snd (shl_align m e e') = e'.
Proof.
  intros Hle. unfold shl_align. destruct (e' - e) as [| d | d] eqn:Hd.
  - replace (e - e') with 0 by lia. cbn [fst snd]. split; lia.
  - lia.
  - cbn [fst snd]. rewrite iter_xO_value. replace (e - e') with (Zpos d) by lia. easy.
Qed.

Lemma shr_1_m r : 0 <= shr_m r -> shr_m (shr_1 r) = shr_m r / 2.
Proof.
  destruct r as [m b1 b2]; cbn [shr_m shr_1]. intros Hm.
  destruct m as [| [p | p |] | p]; cbn [shr_m]; try lia.
  - reflexivity.
  - rewrite Pos2Z.inj_xI. apply Z.div_unique with 1; lia.
  - rewrite Pos2Z.inj_xO. apply Z.div_unique with 0; lia.
  - reflexivity.
Qed.

Lemma iter_shr_1_m p r :
  0 <= shr_m r -> shr_m (SpecFloat.iter_pos shr_1 p r) = shr_m r / 2 ^ Zpos p.
Proof.
  revert r. induction p as [p IH | p IH |]; intros r Hr; cbn [SpecFloat.iter_pos].
  - assert (0 < 2 ^ Zpos p) as HP by (apply Z.pow_pos_nonneg; lia).
    assert (0 <= shr_m (shr_1 r)) as H1
      by (rewrite shr_1_m by easy; apply Z.div_pos; lia).
    assert (0 <= shr_m (SpecFloat.iter_pos shr_1 p (shr_1 r))) as H2
      by (rewrite IH by easy; apply Z.div_pos; lia).
    rewrite IH, IH, shr_1_m by easy.
    rewrite !Z.div_div by lia.
    f_equal. replace (Zpos p~1) with (Zpos p + Zpos p + 1) by lia.
    rewrite !Z.pow_add_r by lia. change (2 ^ 1) with 2. ring.
  - assert (0 < 2 ^ Zpos p) as HP by (apply Z.pow_pos_nonneg; lia).
    assert (0 <= shr_m (SpecFloat.iter_pos shr_1 p r)) as H2
      by (rewrite IH by easy; apply Z.div_pos; lia).
    rewrite IH, IH by easy.
    rewrite Z.div_div by lia.
    f_equal. replace (Zpos p~0) with (Zpos p + Zpos p) by lia.
    now rewrite Z.pow_add_r by lia.
  - now rewrite shr_1_m.
Qed.

Lemma shr_m_of_loc m l : shr_m (shr_record_of_loc m l) = m.
Proof. now destruct l as [| []]. Qed.

Lemma shr_fexp_nonneg m e l :
  0 <= m -> 0 <= shr_m (fst (shr_fexp prec emax m e l)).
Proof.
  intros Hm. unfold shr_fexp, shr.
  destruct (fexp prec emax (Zdigits2 m + e) - e) as [| n | n]; cbn [fst];
    rewrite ?iter_shr_1_m; rewrite ?shr_m_of_loc; try easy.
  apply Z.div_pos; [easy | apply Z.pow_pos_nonneg; lia].
Qed.

Lemma shr_fexp_pos m e l :
  emin <= e -> 0 < m ->
  0 < shr_m (fst (shr_fexp prec emax m e l)) /\ emin <= snd (shr_fexp prec emax m e l).
Proof.
  intros He Hm. unfold shr_fexp, shr.
  destruct (fexp prec emax (Zdigits2 m + e) - e) as [| n | n] eqn:Hn; cbn [fst snd];
    rewrite ?shr_m_of_loc; try easy.
  rewrite iter_shr_1_m by (rewrite shr_m_of_loc; lia). rewrite shr_m_of_loc.
  split; [| lia].
  destruct m as [| p | p]; try lia. cbn [Zdigits2] in Hn.
  pose proof (digits2_pos_bounds p) as [Hlo _].
  unfold fexp in Hn. fold emin in Hn.
  assert (Zpos n <= Zpos (digits2_pos p) - 1) as Hle by (unfold prec in Hn; lia).
  assert (2 ^ Zpos n <= 2 ^ (Zpos (digits2_pos p) - 1)) as Hpow
    by (apply Z.pow_le_mono_r; lia).
  apply Z.lt_le_trans with 1; [lia |].
  apply Z.div_le_lower_bound; [apply Z.pow_pos_nonneg; lia | lia].
Qed.

Lemma round_nearest_even_ge m l : m <= round_nearest_even m l.
Proof.
  destruct l as [| []]; cbn [round_nearest_even]; try lia.
  destruct (Z.even m); lia.
Qed.

Lemma binary_round_aux_signed0 s m e l :
  0 <= m -> signed0 s (binary_round_aux prec emax s m e l).
Proof.
  intros Hm. unfold binary_round_aux.
  pose proof (shr_fexp_nonneg m e l Hm) as H1.
  destruct (shr_fexp prec emax m e l) as [mrs' e'] eqn:E1. cbn [fst] in H1.
  pose proof (round_nearest_even_ge (shr_m mrs') (loc_of_shr_record mrs')) as H2.
  pose proof (shr_fexp_nonneg (round_nearest_even (shr_m mrs') (loc_of_shr_record mrs'))
                e' loc_Exact ltac:(lia)) as H3.
  destruct (shr_fexp prec emax _ e' loc_Exact) as [mrs'' e''] eqn:E2. cbn [fst] in H3.
  destruct (shr_m mrs'') as [| p | p]; [easy | | lia].
  now destruct (e'' <=? emax - prec).
Qed.

Lemma binary_round_aux_signed s m e l :
  emin <= e -> 0 < m -> signed s (binary_round_aux prec emax s m e l).
Proof.
  intros He Hm. unfold binary_round_aux.
  pose proof (shr_fexp_pos m e l He Hm) as [H1 He'].
  destruct (shr_fexp prec emax m e l) as [mrs' e'] eqn:E1. cbn [fst snd] in H1, He'.
  pose proof (round_nearest_even_ge (shr_m mrs') (loc_of_shr_record mrs')) as H2.
  pose proof (shr_fexp_pos (round_nearest_even (shr_m mrs') (loc_of_shr_record mrs'))
                e' loc_Exact He' ltac:(lia)) as [H3 _].
  destruct (shr_fexp prec emax _ e' loc_Exact) as [mrs'' e''] eqn:E2. cbn [fst] in H3.
  destruct (shr_m mrs'') as [| p | p]; [lia | | lia].
  now destruct (e'' <=? emax - prec).
Qed.

Lemma fexp_ge_emin k : emin <= fexp prec emax k.
Proof. unfold fexp. fold emin. lia. Qed.

Lemma binary_round_signed s m e :
  emin <= e -> signed s (binary_round prec emax s m e).
Proof.
  intros He. unfold binary_round.
  destruct (shl_align m e (fexp prec emax (Zpos (digits2_pos m) + e))) as [mz ez] eqn:E.
  apply binary_round_aux_signed; [| lia].
  pose proof (fexp_ge_emin (Zpos (digits2_pos m) + e)) as Hf.
  unfold shl_align in E.
  destruct (fexp prec emax (Zpos (digits2_pos m) + e) - e); inversion E; subst; lia.
Qed.

Lemma binary_round_signed0 s m e : signed0 s (binary_round prec emax s m e).
Proof.
  unfold binary_round.
  destruct (shl_align m e (fexp prec emax (Zpos (digits2_pos m) + e))) as [mz ez].
  apply binary_round_aux_signed0. lia.
Qed.

Lemma gt_zero_signed s r : signed s r -> gt r (int 0) = negb s.
Proof. destruct r as [| | | s' m e]; cbn; try easy; intros ->; now destruct s. Qed.

Lemma gt_zero_normalize D e :
  emin <= e -> gt (binary_normalize prec emax D e false) (int 0) = (0 <? D).
Proof.
  intros He. destruct D as [| p | p]; cbn [binary_normalize].
  - reflexivity.
  - now rewrite (gt_zero_signed false) by now apply binary_round_signed.
  - now rewrite (gt_zero_signed true) by now apply binary_round_signed.
Qed.

Lemma gt_comparator (x y : number) :
  finite x = true -> finite y = true ->
  gt (sub x y) (int 0) = (scaled y <? scaled x).
Proof.
  destruct x as [sx | sx | | sx mx ex], y as [sy | sy | | sy my ey];
    cbn [finite]; try discriminate; intros Hx Hy.
  - now destruct sx, sy.
  - pose proof (scaled_pos_pos my ey (proj1 (bounded_inv _ _ Hy))).
    cbn [sub SFsub scaled]. rewrite (gt_zero_signed (negb sy)) by easy.
    destruct sy; cbn [cond_Zopp negb]; symmetry; [apply Z.ltb_lt | apply Z.ltb_ge]; lia.
  - pose proof (scaled_pos_pos mx ex (proj1 (bounded_inv _ _ Hx))).
    cbn [sub SFsub scaled]. rewrite (gt_zero_signed sx) by easy.
    destruct sx; cbn [cond_Zopp negb]; symmetry; [apply Z.ltb_ge | apply Z.ltb_lt]; lia.
  - pose proof (bounded_inv _ _ Hx) as [Hex _]. pose proof (bounded_inv _ _ Hy) as [Hey _].
    cbn [sub SFsub scaled].
    pose proof (shl_align_value mx ex (Z.min ex ey) ltac:(lia)) as [Vx _].
    pose proof (shl_align_value my ey (Z.min ex ey) ltac:(lia)) as [Vy _].
    rewrite gt_zero_normalize by lia. rewrite Vx, Vy.
    set (ez := Z.min ex ey) in *.
    assert (0 < 2 ^ (ez - emin)) as Hp by (apply Z.pow_pos_nonneg; lia).
    assert (forall s m e, ez <= e ->
              cond_Zopp s (Zpos m * 2 ^ (e - emin)) =
              cond_Zopp s (Zpos m * 2 ^ (e - ez)) * 2 ^ (ez - emin)) as Hs.
    { intros s m e Hle. replace (e - emin) with ((e - ez) + (ez - emin)) by lia.
      rewrite Z.pow_add_r by lia. destruct s; cbn [cond_Zopp]; ring. }
    rewrite (Hs sx mx ex), (Hs sy my ey) by lia.
    apply eq_iff_eq_true. rewrite !Z.ltb_lt. nia.
Qed.

End NumberFacts.

(** ** Sorting and searching *)
Section PercentileFacts.
Import JS Percentile.
Local Open Scope Z_scope.


Lemma lt_scaled x y :
  is_number x = true -> is_number y = true -> lt x y = (scaled x <? scaled y).
Proof.
  intros Hx Hy. unfold lt, SFltb. rewrite (compare_scaled x y Hx Hy).
  unfold Z.ltb. now destruct (scaled x ?= scaled y).
Qed.

Lemma le_scaled x y :
  is_number x = true -> is_number y = true -> le x y = (scaled x <=? scaled y).
Proof.
  intros Hx Hy. unfold le, SFleb. rewrite (compare_scaled x y Hx Hy).
  unfold Z.leb. now destruct (scaled x ?= scaled y).
Qed.

Lemma insert_Permutation cmp x l : insert cmp x l ≡ₚ x :: l.
Proof.
  induction l as [| y l IH]; cbn [insert]; [done |].
  destruct (gt (cmp x y) (int 0)); [| done].
  rewrite IH. apply perm_swap.
Qed.

Lemma sort_Permutation cmp l : sort cmp l ≡ₚ l.
Proof.
  induction l as [| x l IH]; cbn [sort]; [done |].
  now rewrite insert_Permutation, IH.
Qed.

Lemma length_sort cmp l : length (sort cmp l) = length l.
Proof. now rewrite sort_Permutation. Qed.

Lemma insert_sorted x l :
  finite x = true -> Forall (fun y => finite y = true) l ->
  StronglySorted scaled_le l -> StronglySorted scaled_le (insert comparator x l).
Proof.
  intros Hx Hl Hs. induction Hs as [| y l Hs IH Hy]; cbn [insert].
  - repeat constructor.
  - apply Forall_cons in Hl as [Hwy Hl]. unfold comparator.
    rewrite gt_comparator by done.
    destruct (Z.ltb_spec (scaled y) (scaled x)) as [Hlt | Hge].
    + constructor; [auto |].
      rewrite insert_Permutation. constructor; [unfold scaled_le; lia | done].
    + constructor; [by constructor |].
      constructor; [done |].
      eapply Forall_impl; [exact Hy |]. unfold scaled_le. intros z Hz. lia.
Qed.

Lemma sort_finite l :
  Forall (fun y => finite y = true) l -> Forall (fun y => finite y = true) (sort comparator l).
Proof. intros Hl. now rewrite sort_Permutation. Qed.

Lemma sort_sorted l :
  Forall (fun y => finite y = true) l -> StronglySorted scaled_le (sort comparator l).
Proof.
  induction 1 as [| x l Hx Hl IH]; cbn [sort]; [constructor |].
  apply insert_sorted; auto using sort_finite.
Qed.

Lemma findIndex_ge_m1 p l : -1 <= findIndex p l.
Proof.
  induction l as [| x l IH]; cbn [findIndex]; [lia |].
  destruct (p x); [lia |]. destruct (findIndex p l =? -1); lia.
Qed.

Lemma filter_none {A} (P : A -> Prop) `{!forall x, Decision (P x)} (l : list A) :
  Forall (fun x => ~ P x) l -> filter P l = [].
Proof.
  induction 1 as [| x l Hx _ IH]; [done |]. now rewrite filter_cons_False.
Qed.

(** On an ascending array, the first index at or above [c] is the number of
    elements strictly below [c]. *)
Lemma findIndex_sorted (c : Z) (p : number -> bool) (below : number -> Prop)
    `{!forall x, Decision (below x)} (l : list number) :
  Forall (fun x => p x = true <-> c <= scaled x) l ->
  Forall (fun x => below x <-> scaled x < c) l ->
  StronglySorted scaled_le l ->
  findIndex p l =
    if (length (filter below l) =? length l)%nat then -1
    else Z.of_nat (length (filter below l)).
Proof.
  intros Hp Hb Hs. induction Hs as [| x l Hs IH Hx]; [done |].
  apply Forall_cons in Hp as [Hpx Hp]. apply Forall_cons in Hb as [Hbx Hb].
  specialize (IH Hp Hb).
  cbn [findIndex]. destruct (p x) eqn:Epx.
  - assert (c <= scaled x) as Hc by (by apply Hpx).
    rewrite filter_cons_False by (rewrite Hbx; lia).
    rewrite filter_none; [done |].
    rewrite Forall_forall in Hx, Hb. apply Forall_forall. intros y Hy.
    rewrite (Hb y Hy). specialize (Hx y Hy). unfold scaled_le in Hx. lia.
  - assert (~ c <= scaled x) as Hn by (by rewrite <- Hpx).
    rewrite filter_cons_True by (rewrite Hbx; lia).
    cbn [length]. rewrite IH. cbn [Nat.eqb].
    destruct (length (filter below l) =? length l)%nat; [done |].
    destruct (Z.eqb_spec (Z.of_nat (length (filter below l))) (-1)); lia.
Qed.

Lemma length_filter_sort (P : number -> Prop) `{!forall x, Decision (P x)} cmp l :
  length (filter P (sort cmp l)) = length (filter P l).
Proof. now rewrite sort_Permutation. Qed.

Lemma calculatePercentile_spec (v : number) (d : list number) :
  is_number v = true -> Forall (fun x => finite x = true) d ->
  calculatePercentile v (Some d) = (percentile_spec v d, Some (sort comparator d)).
Proof.
  intros Hv Hd. unfold calculatePercentile, percentile_spec.
  destruct d as [| x d']; [done |]. set (d := x :: d') in *.
  cbn [length Nat.eqb].
  pose proof (sort_finite d Hd) as Hwf.
  rewrite (findIndex_sorted (scaled v) _ (fun x => lt x v = true) (sort comparator d)).
  - unfold strictly_below. rewrite !length_sort, !length_filter_sort.
    destruct (length (filter _ d) =? length d)%nat; [done |].
    destruct (Z.eqb_spec (Z.of_nat (length (filter (fun x => lt x v = true) d))) (-1));
      [lia | done].
  - eapply Forall_impl; [exact Hwf |]. intros y Hy. cbn beta.
    unfold ge. fold (le v y). rewrite le_scaled by auto using finite_is_number.
    apply Z.leb_le.
  - eapply Forall_impl; [exact Hwf |]. intros y Hy. cbn beta.
    rewrite lt_scaled by auto using finite_is_number. apply Z.ltb_lt.
  - now apply sort_sorted.
Qed.

Lemma le_scaled_le a b :
  is_number a = true -> is_number b = true -> scaled_le a b -> le a b = true.
Proof. intros Ha Hb Hab. rewrite le_scaled by done. now apply Z.leb_le. Qed.

Lemma sort_ascending l :
  Forall (fun y => finite y = true) l ->
  StronglySorted (fun a b => le a b = true) (sort comparator l).
Proof.
  intros Hl. pose proof (sort_finite l Hl) as Hf. pose proof (sort_sorted l Hl) as Hs.
  induction Hs as [| x l' Hs IH Hx]; constructor.
  - apply IH. now apply Forall_cons in Hf as [_ Hf].
  - apply Forall_cons in Hf as [Hfx Hf].
    rewrite Forall_forall in Hx, Hf. apply Forall_forall. intros y Hy.
    apply le_scaled_le; auto using finite_is_number.
Qed.

(** C1. For every value and every distribution of finite samples,
    [calculatePercentile] returns the reference value: 50 for an empty
    distribution, 100 when every sample is strictly below the value, and
    otherwise [round(i / length * 100)], where [i], the index in the sorted
    array of the first sample at or above the value, is the number of
    samples strictly below the value (ties count as above). *)
Theorem calculatePercentile_reference (v : number) (d : list number) :
  is_number v = true -> Forall (fun x => finite x = true) d ->
  (calculatePercentile v (Some d)).1 = percentile_spec v d /\
  findIndex (fun x => ge x v) (sort comparator d) =
    let i := length (strictly_below v d) in
    if (i =? length d)%nat then -1 else Z.of_nat i.
Proof.
  intros Hv Hd. split.
  - now rewrite calculatePercentile_spec.
  - pose proof (sort_finite d Hd) as Hf.
    rewrite (findIndex_sorted (scaled v) _ (fun x => lt x v = true) (sort comparator d)).
    + unfold strictly_below. now rewrite length_sort, length_filter_sort.
    + eapply Forall_impl; [exact Hf |]. intros y Hy. cbn beta.
      unfold ge. fold (le v y). rewrite le_scaled by auto using finite_is_number.
      apply Z.leb_le.
    + eapply Forall_impl; [exact Hf |]. intros y Hy. cbn beta.
      rewrite lt_scaled by auto using finite_is_number. apply Z.ltb_lt.
    + now apply sort_sorted.
Qed.

(** Two of the five samples [5, 1, 3, 2, 3] are strictly below 3: the
    percentile of 3 is 40. *)
Lemma calculatePercentile_reference_witness :
  (calculatePercentile (int 3) (Some [int 5; int 1; int 3; int 2; int 3])).1 = int 40.
Proof.
  rewrite (proj1 (calculatePercentile_reference (int 3)
                    [int 5; int 1; int 3; int 2; int 3] eq_refl
                    ltac:(repeat constructor))).
  reflexivity.
Defined.

(** C9. A result of 100 does not mean that the value exceeds every sample:
    for the 200 distinct samples 1..200 and the value 200, the largest of
    them, the index is 199 and [round(199 / 200 * 100)] is 100. *)
Theorem percentile_100_without_exceeding_all :
  exists (v : number) (d : list number),
    d <> [] /\ Forall (fun x => finite x = true) d /\
    Exists (fun x => ge x v = true) d /\
    findIndex (fun x => ge x v) (sort comparator d) = 199 /\
    (calculatePercentile v (Some d)).1 = int 100.
Proof.
  exists (int 200), samples_1_200. split; [| split; [| split; [| split]]].
  - discriminate.
  - apply Forall_forall. intros x Hx. apply list_elem_of_In, in_map_iff in Hx.
    destruct Hx as [z [<- Hz]]. apply list_elem_of_In, elem_of_seqZ in Hz.
    assert (exists n, z = Z.of_nat n /\ (n <= 200)%nat) as [n [-> Hn]]
      by (exists (Z.to_nat z); lia).
    clear Hz. do 201 (destruct n as [| n]; [reflexivity |]). lia.
  - apply Exists_exists. exists (int 200). split; [| reflexivity].
    apply list_elem_of_In, in_map, list_elem_of_In, elem_of_seqZ. lia.
  - vm_compute. reflexivity.
  - vm_compute. reflexivity.
Qed.

(** The share is rounded as the engine computes it: 29 of the samples
    1..200 are strictly below 30, an exact share of 14.5 per cent, but
    [29 / 200 * 100] evaluates to a number just below 14.5 and the
    percentile is 14. *)
Lemma percentile_rounds_in_binary64 :
  length (strictly_below (int 30) samples_1_200) = 29%nat /\
  lt (mul (div (int 29) (int 200)) (int 100)) (dec 145 1) = true /\
  (calculatePercentile (int 30) (Some samples_1_200)).1 = int 14.
Proof. split; [| split]; now vm_compute. Qed.

(** C10. [calculatePercentile] sorts the caller's array in place: after a
    call with a non-empty distribution the array holds the same samples in
    ascending numeric order, so that an array that was not in ascending
    order has changed. *)
Theorem calculatePercentile_sorts_in_place (v : number) (d : list number) :
  d <> [] -> Forall (fun x => finite x = true) d ->
  exists d' : list number,
    (calculatePercentile v (Some d)).2 = Some d' /\
    d' ≡ₚ d /\
    StronglySorted (fun a b => le a b = true) d' /\
    (~ StronglySorted (fun a b => le a b = true) d -> d' <> d).
Proof.
  intros Hne Hd. exists (sort comparator d). split; [| split; [| split]].
  - unfold calculatePercentile. destruct d as [| x d']; [done |].
    cbn [length Nat.eqb]. now destruct (findIndex _ _ =? -1).
  - apply sort_Permutation.
  - now apply sort_ascending.
  - intros Hns Heq. apply Hns. rewrite <- Heq. now apply sort_ascending.
Qed.

(** The array [2, 1] is [1, 2] after the call. *)
Lemma calculatePercentile_sorts_in_place_witness :
  exists d' : list number,
    (calculatePercentile (int 0) (Some [int 2; int 1])).2 = Some d' /\
    d' = [int 1; int 2] /\ d' <> [int 2; int 1].
Proof.
  destruct (calculatePercentile_sorts_in_place (int 0) [int 2; int 1]
              ltac:(discriminate) ltac:(repeat constructor))
    as [d' [Hd' _]].
  exists d'. split; [exact Hd' |].
  vm_compute in Hd'. injection Hd' as <-. split; [reflexivity | discriminate].
Defined.

End PercentileFacts.

(** ** The score *)
Section ScoreFacts.
Import JS Score.
Local Open Scope Z_scope.

Lemma nonnegative_signed0 x : nonnegative x = true -> signed0 false x.
Proof. now destruct x as [[] | | | [] m e]. Qed.

Lemma mul_comm (x y : number) : mul x y = mul y x.
Proof.
  destruct x as [sx | sx | | sx mx ex], y as [sy | sy | | sy my ey]; cbn [mul SFmul];
    try reflexivity; try (now rewrite xorb_comm).
  now rewrite xorb_comm, Pos.mul_comm, Z.add_comm.
Qed.

Lemma div_signed0 x y :
  nonnegative x = true -> gt y (int 0) = true -> signed0 false (div x y).
Proof.
  destruct x as [[] | | | [] mx ex], y as [[] | [] | | [] my ey]; try discriminate;
    intros _ _; cbn [div SFdiv xorb signed0]; try reflexivity.
  destruct (SFdiv_core_binary prec emax (Zpos mx) ex (Zpos my) ey) as [[mz ez] lz] eqn:E.
  apply binary_round_aux_signed0.
  unfold SFdiv_core_binary in E.
  destruct (Z.div_eucl _ (Zpos my)) as [q r] eqn:Eq. inversion E; subst mz.
  match type of Eq with Z.div_eucl ?a ?b = _ =>
    pose proof (Z_div_mod a b ltac:(lia)) as Hdm; rewrite Eq in Hdm;
    assert (0 <= a) as Ha
  end.
  { destruct (ex - ey - _); [lia | | lia]. apply Z.shiftl_nonneg. lia. }
  nia.
Qed.

Lemma mul_signed0 x m e :
  signed0 false x -> signed0 false (mul x (S754_finite false m e)).
Proof.
  destruct x as [sx | sx | | sx mx ex]; cbn [signed0 mul SFmul]; try done;
    intros ->; try reflexivity.
  apply binary_round_aux_signed0. lia.
Qed.

Lemma add_signed0 x y : signed0 false x -> signed0 false y -> signed0 false (add x y).
Proof.
  destruct x as [sx | sx | | sx mx ex], y as [sy | sy | | sy my ey];
    cbn [signed0 add SFadd]; try done; intros -> ->; try reflexivity.
  cbn [cond_Zopp Z.add binary_normalize]. apply binary_round_signed0.
Qed.

Lemma round_half_up_nonneg n k : 0 < k -> 0 <= n -> 0 <= round_half_up n k.
Proof.
  intros Hk Hn. unfold round_half_up.
  pose proof (Z.pow_nonneg 2 (k - 1) ltac:(lia)).
  apply Z.div_pos; [lia | apply Z.pow_pos_nonneg; lia].
Qed.

Lemma int_signed0 z : 0 <= z -> signed0 false (int z).
Proof.
  intros Hz. destruct z as [| p | p]; [reflexivity | | lia].
  apply binary_round_signed0.
Qed.

Lemma Math_round_signed0 x : signed0 false x -> signed0 false (Math_round x).
Proof.
  destruct x as [sx | sx | | sx m e]; cbn [signed0 Math_round]; try done.
  intros ->. destruct (Z.leb_spec 0 e); [done |]. cbn [cond_Zopp].
  pose proof (round_half_up_nonneg (Zpos m) (- e) ltac:(lia) ltac:(lia)) as Hq.
  destruct (round_half_up (Zpos m) (- e)) as [| q | q] eqn:E; [done | | lia].
  now apply int_signed0.
Qed.

Lemma Math_min_100_nonnegative x :
  signed0 false x -> nonnegative (Math_min (int 100) x) = true.
Proof.
  destruct x as [sx | sx | | sx m e]; cbn [signed0]; try done; intros ->;
    try reflexivity.
  unfold Math_min. destruct (SFcompare (int 100) (S754_finite false m e)) as [[] |] eqn:E;
    try reflexivity.
  discriminate.
Qed.

Lemma clamp_0_100 (x : number) :
  Math_min (int 100) (Math_max (int 0) x) = clamp x (int 0) (int 100).
Proof.
  destruct x as [[] | [] | | [] m e]; try reflexivity.
  unfold clamp, Math_max, Math_min, le, gt, SFleb, SFltb.
  change (SFcompare (int 0) (S754_finite false m e)) with (Some Lt).
  change (SFcompare (S754_finite false m e) (int 0)) with (Some Gt).
  cbv iota.
  destruct (SFcompare (int 100) (S754_finite false m e)) as [[] |] eqn:E;
    try reflexivity.
  discriminate.
Qed.

(** C2. For every profile and every baseline -- with positive averages
    or not -- [calculateOverallScore] is
    [clamp(round(0.3 * min(100, followers / avgFollowers * 100)
                 + 0.5 * min(100, engagementRate / avgEngagement * 100)
                 + 0.2 * min(100, postFrequency / avgPostFrequency * 100)), 0, 100)];
    the profile (12543, 3.2, 4.2) against the baseline (8500, 2.3, 5.2)
    scores 96. *)
Theorem calculateOverallScore_formula (p : profile) (b : benchmarks) :
  calculateOverallScore p b =
    score_spec (ToNumber (followers p)) (ToNumber (engagement_rate p))
      (ToNumber (post_frequency p)) (avg_followers b) (avg_engagement b)
      (avg_post_frequency b) /\
  calculateOverallScore example_profile example_benchmarks = int 96.
Proof.
  split; [| now vm_compute].
  unfold calculateOverallScore, score_spec, ratio_score.
  rewrite !(mul_comm (dec _ 1)).
  apply clamp_0_100.
Qed.

(** The three capped ratios of the example are 100, 100 and a number
    between 80.76 and 80.77; the weighted sum rounds to 96. *)
Lemma example_components :
  ratio_score (int 12543) (int 8500) = int 100 /\
  ratio_score (dec 32 1) (dec 23 1) = int 100 /\
  lt (dec 8076 2) (ratio_score (dec 42 1) (dec 52 1)) = true /\
  lt (ratio_score (dec 42 1) (dec 52 1)) (dec 8077 2) = true /\
  score_spec (int 12543) (dec 32 1) (dec 42 1) (int 8500) (dec 23 1) (dec 52 1) = int 96.
Proof. repeat split; now vm_compute. Qed.

(** A ratio that is NaN makes the score NaN: neither [Math.min], the
    weighted sum, [Math.round] nor the final clamp turns NaN into a number. *)
Lemma followers_NaN_propagates (p : profile) (b : benchmarks) :
  div (ToNumber (followers p)) (avg_followers b) = NaN ->
  calculateOverallScore p b = NaN.
Proof. intros H. unfold calculateOverallScore. now rewrite H. Qed.

(** C3. The score of a profile without followers against a baseline whose
    average follower count is zero is NaN: [0 / 0] is NaN and nothing
    downstream replaces it. *)
Lemma score_zero_over_zero_is_NaN :
  calculateOverallScore
    {| followers := Num (int 0); engagement_rate := Num (dec 32 1);
       post_frequency := Num (dec 42 1) |}
    {| avg_followers := int 0; avg_engagement := dec 23 1;
       avg_post_frequency := dec 52 1 |} = NaN.
Proof. apply followers_NaN_propagates. reflexivity. Qed.

Lemma compare_finite_antisym s1 m1 e1 s2 m2 e2 :
  SFcompare (S754_finite s2 m2 e2) (S754_finite s1 m1 e1) =
    option_map CompOpp (SFcompare (S754_finite s1 m1 e1) (S754_finite s2 m2 e2)).
Proof.
  cbn [SFcompare option_map]. f_equal.
  change (Pos.compare_cont Eq m2 m1) with (m2 ?= m1)%positive.
  change (Pos.compare_cont Eq m1 m2) with (m1 ?= m2)%positive.
  rewrite (Z.compare_antisym e1 e2), (Pos.compare_antisym m1 m2).
  destruct s1, s2, (e1 ?= e2), (m1 ?= m2)%positive; reflexivity.
Qed.

Lemma clamp_in_range r :
  signed0 false r ->
  le (int 0) (clamp r (int 0) (int 100)) = true /\
  le (clamp r (int 0) (int 100)) (int 100) = true.
Proof.
  destruct r as [sx | sx | | sx m e]; cbn [signed0]; try done; intros ->;
    try (split; reflexivity).
  unfold clamp, gt, le, SFltb, SFleb.
  change (SFcompare (S754_finite false m e) (int 0)) with (Some Gt). cbv iota.
  change (int 100) with (S754_finite false 7036874417766400 (-46)).
  rewrite (compare_finite_antisym false m e).
  destruct (SFcompare (S754_finite false m e) _) as [[] |] eqn:E;
    cbn [option_map CompOpp]; cbv iota; rewrite ?E;
    try (split; reflexivity).
  discriminate.
Qed.

(** For non-negative metrics and positive averages the score is a number
    between 0 and 100. *)
Theorem score_in_range (p : profile) (b : benchmarks) :
  nonnegative (ToNumber (followers p)) = true ->
  nonnegative (ToNumber (engagement_rate p)) = true ->
  nonnegative (ToNumber (post_frequency p)) = true ->
  gt (avg_followers b) (int 0) = true ->
  gt (avg_engagement b) (int 0) = true ->
  gt (avg_post_frequency b) (int 0) = true ->
  le (int 0) (calculateOverallScore p b) = true /\
  le (calculateOverallScore p b) (int 100) = true.
Proof.
  intros Hf He Hp Haf Hae Hap.
  assert (signed0 false
            (Math_round
               (add (add (mul (Math_min (int 100)
                                 (mul (div (ToNumber (followers p)) (avg_followers b))
                                    (int 100))) (dec 3 1))
                       (mul (Math_min (int 100)
                               (mul (div (ToNumber (engagement_rate p)) (avg_engagement b))
                                  (int 100))) (dec 5 1)))
                  (mul (Math_min (int 100)
                          (mul (div (ToNumber (post_frequency p)) (avg_post_frequency b))
                             (int 100))) (dec 2 1))))) as Hr.
  { apply Math_round_signed0.
    repeat apply add_signed0; apply mul_signed0, nonnegative_signed0,
      Math_min_100_nonnegative, mul_signed0, div_signed0; assumption. }
  unfold calculateOverallScore. rewrite clamp_0_100.
  now apply clamp_in_range.
Qed.

Lemma score_in_range_witness :
  le (int 0) (calculateOverallScore example_profile example_benchmarks) = true /\
  le (calculateOverallScore example_profile example_benchmarks) (int 100) = true.
Proof.
  exact (score_in_range example_profile example_benchmarks
           eq_refl eq_refl eq_refl eq_refl eq_refl eq_refl).
Defined.

End ScoreFacts.

(** ** Rankings *)
Section RankingFacts.
Import JS Db Rankings.
Local Open Scope Z_scope.

Lemma parse_digits_uint (d : Decimal.uint) (acc : option Z) :
  0 <= default 0 acc ->
  parse_digits 10 acc (NilEmpty.string_of_uint d) =
    match d with
    | Decimal.Nil => acc
    | _ => Some (Z.of_nat (Nat.of_uint_acc d (Z.to_nat (default 0 acc))))
    end.
Proof.
  revert acc. induction d as [| d IH | d IH | d IH | d IH | d IH | d IH | d IH | d IH | d IH | d IH];
    intros acc Hacc; [reflexivity | ..];
    cbn [NilEmpty.string_of_uint parse_digits];
    (match goal with |- context [digit_value ?c] =>
       let v := eval vm_compute in (digit_value c) in change (digit_value c) with v end);
    cbv iota; cbn [Z.ltb Z.compare Pos.compare Pos.compare_cont];
    set (a := default 0 acc) in *;
    rewrite IH by (change (default 0 (Some ?x)) with x; lia);
    change (default 0 (Some ?x)) with x;
    cbn [Nat.of_uint_acc]; rewrite Nat.tail_mul_spec;
    (destruct d; [f_equal; cbn [Nat.of_uint_acc]; lia | f_equal; f_equal; f_equal; lia ..]).
Qed.

Lemma parseInt_string_uint (d : Decimal.uint) :
  parseInt_string (NilEmpty.string_of_uint d) =
    parse_digits 10 None (NilEmpty.string_of_uint d).
Proof.
  destruct d as [| d | d | d | d | d | d | d | d | d | d]; try reflexivity.
  destruct d; reflexivity.
Qed.

Lemma parseInt_decimal_string (n : nat) :
  parseInt_string (decimal_string n) = Some (Z.of_nat n).
Proof.
  unfold decimal_string. rewrite <- (DecimalNat.Unsigned.of_to n) at 2.
  generalize (Nat.to_uint n). intros d. unfold Nat.of_uint.
  destruct d as [| d | d | d | d | d | d | d | d | d | d]; [reflexivity | ..];
    unfold NilZero.string_of_uint;
    now rewrite parseInt_string_uint, parse_digits_uint.
Qed.

Lemma parseInt_decode_int8 (p : int8_parser) (n : nat) :
  parseInt (decode_int8 p n) = Some (Z.of_nat n).
Proof. destruct p; [apply parseInt_decimal_string | reflexivity]. Qed.

Lemma truthy_decimal_string (n : nat) : truthy (Str (decimal_string n)) = true.
Proof.
  unfold decimal_string, NilZero.string_of_uint.
  now destruct (Nat.to_uint n).
Qed.

Lemma rank_where_spec column location industry_ f e p :
  holds (rank_where column location industry_ f e p) =
    in_scope column location industry_ p && dominates p f e.
Proof.
  unfold rank_where, in_scope, dominates, sql_eq, sql_gt, sql_eqz.
  destruct (column p), location, (industry p), industry_; cbn;
    repeat match goal with |- context [String.eqb ?a ?b] => destruct (String.eqb a b) end;
    repeat match goal with |- context [Z.ltb ?a ?b] => destruct (Z.ltb a b) end;
    repeat match goal with |- context [Z.eqb ?a ?b] => destruct (Z.eqb a b) end;
    reflexivity.
Qed.

Lemma total_where_spec column location industry_ p :
  holds (total_where column location industry_ p) = in_scope column location industry_ p.
Proof.
  unfold total_where, in_scope, sql_eq.
  destruct (column p), location, (industry p), industry_; cbn;
    repeat match goal with |- context [String.eqb ?a ?b] => destruct (String.eqb a b) end;
    reflexivity.
Qed.
Lemma filter_filter_andb {A} (f g : A -> bool) (l : list A) :
  List.filter g (List.filter f l) = List.filter (fun x => f x && g x) l.
Proof.
  induction l as [| x l IH]; [reflexivity |]. cbn [List.filter].
  destruct (f x); cbn [List.filter andb]; [destruct (g x) |]; now rewrite IH.
Qed.

Lemma count_rank_where column location industry_ f e rows :
  count (rank_where column location industry_ f e) rows =
    length (dominating column location industry_ f e rows).
Proof.
  unfold count, dominating, members. rewrite filter_filter_andb.
  f_equal. apply List.filter_ext. intros p. apply rank_where_spec.
Qed.

Lemma count_total_where column location industry_ rows :
  count (total_where column location industry_) rows =
    length (members column location industry_ rows).
Proof.
  unfold count, members. f_equal. apply List.filter_ext. intros p.
  apply total_where_spec.
Qed.

Lemma rank_scope_ranking db column location industry_ f e fallback :
  rank (scope_ranking db column location industry_ f e fallback) =
    Some (1 + Z.of_nat (length (dominating column location industry_ f e (profiles db)))).
Proof.
  unfold scope_ranking. cbn [rank]. rewrite parseInt_decode_int8, count_rank_where.
  f_equal. lia.
Qed.

(** With the driver's default, a count arrives as its decimal string; the
    string ["0"] is truthy, so [total || fallback] is the count itself, zero
    included. *)
Lemma total_int8_as_string db column location industry_ f e fallback :
  int8 db = Int8AsString ->
  total (scope_ranking db column location industry_ f e fallback) =
    Some (Z.of_nat (length (members column location industry_ (profiles db)))).
Proof.
  intros Hp. unfold scope_ranking. cbn [total]. rewrite Hp. cbn [decode_int8].
  unfold logical_or. rewrite truthy_decimal_string, <- count_total_where.
  apply parseInt_decimal_string.
Qed.

(** Were the driver set to hand a count over as a Number, the fallback
    would replace a zero count. *)
Lemma total_int8_as_number db column location industry_ f e fallback :
  int8 db = Int8AsNumber ->
  total (scope_ranking db column location industry_ f e fallback) =
    Some (let n := Z.of_nat (length (members column location industry_ (profiles db))) in
          if n =? 0 then fallback else n).
Proof.
  intros Hp. unfold scope_ranking. cbn [total]. rewrite Hp. cbn [decode_int8].
  rewrite count_total_where. unfold logical_or, truthy.
  now destruct (Z.of_nat _ =? 0).
Qed.

(** The two readings of a total, for any store. *)
Lemma total_of_string_count ps bs t column location industry_ f e fallback :
  total (scope_ranking {| int8 := Int8AsString; profiles := ps; benchmarks := bs;
                          now := t |} column location industry_ f e fallback) =
    Some (Z.of_nat (length (members column location industry_ ps))).
Proof.
  unfold scope_ranking. cbn [total int8 profiles decode_int8].
  unfold logical_or. rewrite truthy_decimal_string, <- count_total_where.
  apply parseInt_decimal_string.
Qed.

Lemma total_of_number_count ps bs t column location industry_ f e fallback :
  total (scope_ranking {| int8 := Int8AsNumber; profiles := ps; benchmarks := bs;
                          now := t |} column location industry_ f e fallback) =
    Some (let n := Z.of_nat (length (members column location industry_ ps)) in
          if n =? 0 then fallback else n).
Proof.
  unfold scope_ranking. cbn [total int8 profiles decode_int8].
  rewrite count_total_where. unfold logical_or, truthy.
  now destruct (Z.of_nat _ =? 0).
Qed.

(** C5. When the subject is found, the rank of each scope is one more than
    the number of members of that scope (same industry, same value in the
    scope's location column) that dominate the subject, by more followers
    or by as many followers and a greater engagement rate; so a second
    subject with the same followers and engagement rate gets the same
    ranks. *)
Theorem rank_is_one_plus_dominating (db : database) (username_ : string)
    (industry_ locationCity locationState locationCountry : option string)
    (subject : profile_row) :
  head (List.filter (fun p => String.eqb (username p) username_) (profiles db))
    = Some subject ->
  exists r : rankings,
    calculateRankings username_ industry_ locationCity locationState locationCountry db
      = Ok r /\
    rank (city r) =
      Some (1 + Z.of_nat (length (dominating location_city locationCity industry_
                                    (followers subject) (engagement_rate subject)
                                    (profiles db)))) /\
    rank (state r) =
      Some (1 + Z.of_nat (length (dominating location_state locationState industry_
                                    (followers subject) (engagement_rate subject)
                                    (profiles db)))) /\
    rank (national r) =
      Some (1 + Z.of_nat (length (dominating location_country locationCountry industry_
                                    (followers subject) (engagement_rate subject)
                                    (profiles db)))) /\
    forall (username' : string) (subject' : profile_row),
      head (List.filter (fun p => String.eqb (username p) username') (profiles db))
        = Some subject' ->
      followers subject' = followers subject ->
      engagement_rate subject' = engagement_rate subject ->
      calculateRankings username' industry_ locationCity locationState locationCountry db
        = Ok r.
Proof.
  intros Hsubject. unfold calculateRankings.
  destruct (List.filter _ (profiles db)) as [| profile rest] eqn:E; [discriminate |].
  simpl in Hsubject. injection Hsubject as Hs. subst profile.
  eexists. split; [reflexivity |]. cbn [city state national].
  rewrite !rank_scope_ranking. repeat split.
  intros username' subject' Hsubject' Hf He.
  destruct (List.filter (fun p => String.eqb (username p) username') (profiles db))
    as [| profile' rest'] eqn:E'; [discriminate |].
  simpl in Hsubject'. injection Hsubject' as Hs'. subst profile'. now rewrite Hf, He.
Qed.

(** bob is second in Austin: only cyd, with as many followers and a greater
    engagement rate, dominates him. *)
Lemma rank_is_one_plus_dominating_witness :
  exists r : rankings,
    calculateRankings "bob" (Some "fitness") (Some "Austin") (Some "Texas")
      (Some "United States") austin_db = Ok r /\
    rank (city r) = Some 2.
Proof.
  destruct (rank_is_one_plus_dominating austin_db "bob" (Some "fitness") (Some "Austin")
              (Some "Texas") (Some "United States") (austin "bob" 12543 320) eq_refl)
    as [r [Hr [Hcity _]]].
  exists r. split; [exact Hr | exact Hcity].
Defined.

(** C6. With the driver's default, a scope without members is reported with
    a total of 0, not with the fallback: bob is looked up without a city
    (the location is NULL and matches no row), and the city total, which
    the fallback should make 1000, is 0. *)
Lemma empty_scope_total_is_zero :
  exists r : rankings,
    calculateRankings "bob" (Some "fitness") None (Some "Texas")
      (Some "United States") austin_db = Ok r /\
    members location_city None (Some "fitness") (profiles austin_db) = [] /\
    total (city r) = Some 0 /\
    total (state r) = Some 3.
Proof. eexists. repeat split. Qed.

End RankingFacts.

(** ** The baseline *)
Section BenchmarkFacts.
Import JS Db Benchmarks.
Local Open Scope Z_scope.

Lemma table_default : table !! "default" = Some default_row.
Proof. reflexivity. Qed.

(** Outside the inherited names, [getGlobalBenchmarks] is the row of the
    industry, or the ['default'] row for an industry the table lacks. *)
Lemma getGlobalBenchmarks_row (industry_ : string) :
  industry_ ∉ Object_prototype ->
  getGlobalBenchmarks industry_ = Some (Row (default default_row (table !! industry_))).
Proof.
  intros Hn. unfold getGlobalBenchmarks, get.
  destruct (table !! industry_) as [r |]; [reflexivity |].
  rewrite bool_decide_eq_false_2 by exact Hn.
  now rewrite table_default.
Qed.

(** An inherited name is found on the prototype and returned as it is. *)
Lemma getGlobalBenchmarks_inherited :
  getGlobalBenchmarks "constructor" = Some (Inherited "constructor").
Proof. reflexivity. Qed.

(** C4 (as amended). Whenever the 30-day corpus of a segment is empty, the
    recomputation ([calculateBenchmarks], which [getBenchmarks] runs on a
    cache miss) resolves to the row of the hardcoded table for the industry
    -- the ['default'] row (15000, 3.0, 5.0) for an industry the table
    lacks -- and stores nothing; that baseline has no distributions and no
    [sample_size] at all (it is [undefined], not 0), which the routes
    report as a sample size of 100. Industries named like an inherited
    property are left aside. *)
Theorem empty_corpus_resolves_to_defaults (industry_ : string)
    (locationCity locationState locationCountry : option string) (db : database) :
  List.filter (fun p => holds (corpus_where industry_ locationCity locationState
                                 locationCountry (now db) p))
    (profiles db) = [] ->
  industry_ ∉ Object_prototype ->
  exists row : global_row,
    calculateBenchmarks industry_ locationCity locationState locationCountry db
      = Ok (Global (Some (Row row)), db) /\
    (List.filter (fun b => holds (cache_where industry_ locationCity (now db) b))
       (benchmarks db) = [] ->
     getBenchmarks industry_ locationCity locationState locationCountry db
       = Ok (Global (Some (Row row)), db)) /\
    row = default default_row (table !! industry_) /\
    (table !! industry_ = None ->
     row = {| avg_followers := int 15000; avg_engagement := dec 30 1;
              avg_post_frequency := dec 50 1 |}) /\
    sample_size (Global (Some (Row row))) = None /\
    follower_distribution (Global (Some (Row row))) = None /\
    engagement_distribution (Global (Some (Row row))) = None /\
    reported_sampleSize (Global (Some (Row row))) = 100.
Proof.
  intros Hcorpus Hname.
  assert (calculateBenchmarks industry_ locationCity locationState locationCountry db
          = Ok (Global (Some (Row (default default_row (table !! industry_)))), db))
    as Hcalc.
  { unfold calculateBenchmarks. rewrite Hcorpus. cbn [length Nat.eqb].
    now rewrite getGlobalBenchmarks_row. }
  exists (default default_row (table !! industry_)).
  split; [exact Hcalc |]. split; [| split; [reflexivity | split; [| repeat split]]].
  - intros Hcache. unfold getBenchmarks. now rewrite Hcache.
  - now intros ->.
Qed.

(** For kayaking in Bergen that store resolves to the ['default'] row. *)
Lemma empty_corpus_resolves_to_defaults_witness :
  exists row : global_row,
    getBenchmarks "kayaking" (Some "Bergen") None (Some "Norway") kayaking_db
      = Ok (Global (Some (Row row)), kayaking_db) /\
    row = default_row.
Proof.
  destruct (empty_corpus_resolves_to_defaults "kayaking" (Some "Bergen") None
              (Some "Norway") kayaking_db eq_refl
              ltac:(apply (bool_decide_unpack _); by vm_compute))
    as [row [_ [Hb [Hrow _]]]].
  exists row. split; [exact (Hb eq_refl) | exact Hrow].
Defined.

(** C4 as stated fails: for the industry ["kayaking"] and an empty store
    the resolved baseline is the ['default'] row, but its [sample_size] is
    not 0: the fallback object has no such property. *)
Lemma empty_corpus_sample_size_is_not_zero :
  exists b : baseline,
    getBenchmarks "kayaking" None None None
      {| int8 := Int8AsString; profiles := []; benchmarks := []; now := 0 |}
      = Ok (b, {| int8 := Int8AsString; profiles := []; benchmarks := []; now := 0 |}) /\
    b = Global (Some (Row default_row)) /\
    sample_size b = None /\
    sample_size b <> Some 0 /\
    reported_sampleSize b = 100.
Proof.
  exists (Global (Some (Row default_row))).
  split; [reflexivity |]. split; [reflexivity |]. split; [reflexivity |].
  split; [discriminate | reflexivity].
Qed.

End BenchmarkFacts.

(** ** Insights *)
Section InsightFacts.
Import JS Db Insights.
Local Open Scope Z_scope.

Lemma lt_irreflexive (x : number) : lt x x = false.
Proof.
  unfold lt, SFltb. destruct x as [s | s | | s m e]; cbn [SFcompare];
    [now destruct s | now destruct s | reflexivity |].
  destruct s; rewrite Z.compare_refl, Pos.compare_cont_refl; reflexivity.
Qed.

Ltac rule_cases :=
  repeat match goal with
         | |- context [if ?c then _ else _] => destruct c eqn:?
         end.

(** The list [generateInsights] returns, when it returns one: what each
    rule appends, in the order of the rules. *)
Lemma generateInsights_Ok (p : profile) (b : benchmarks) (score : number)
    (l : list insight) :
  generateInsights p b score = Ok l ->
  l = (if lt (parseFloat (engagement_rate p))
            (mul (average_number (avg_engagement b)) (dec 7 1))
       then [engagement_warning (parseFloat (engagement_rate p))]
       else if gt (parseFloat (engagement_rate p))
                 (mul (average_number (avg_engagement b)) (dec 13 1))
       then [engagement_success (parseFloat (engagement_rate p))
               (average_number (avg_engagement b))]
       else [])
      ++ (if frequency_fires p b
          then [frequency_warning (parseFloat (or_zero (post_frequency p)))
                  (average_number (avg_post_frequency b))]
          else [])
      ++ (if content_fires p then [content_info] else [])
      ++ (if ge score (int 85) then [overall_success]
          else if lt score (int 60) then [overall_warning] else []).
Proof.
  unfold generateInsights, frequency_fires, content_fires, push.
  destruct (lt (parseFloat (or_zero (post_frequency p))) _).
  - destruct (avg_post_frequency b) as [x | x |]; cbn [toFixed_receiver average_number];
      [| discriminate | discriminate].
    rule_cases; intros [= <-]; reflexivity.
  - rule_cases; intros [= <-]; reflexivity.
Qed.

(** It returns a list unless the frequency rule fires on an average that
    is not a Number. *)
Lemma generateInsights_returns (p : profile) (b : benchmarks) (score : number) :
  (exists l, generateInsights p b score = Ok l) <->
  (frequency_fires p b = true -> exists x, avg_post_frequency b = AvgNumber x).
Proof.
  unfold generateInsights, frequency_fires.
  destruct (lt (parseFloat (or_zero (post_frequency p))) _).
  - destruct (avg_post_frequency b) as [x | x |]; cbn [toFixed_receiver]; split.
    + intros _ _. now exists x.
    + intros _. eexists. reflexivity.
    + intros [l H]. discriminate H.
    + intros H. destruct (H eq_refl) as [y Hy]. discriminate Hy.
    + intros [l H]. discriminate H.
    + intros H. destruct (H eq_refl) as [y Hy]. discriminate Hy.
  - split; [intros _ H; discriminate H | intros _; eexists; reflexivity].
Qed.

Lemma emits_engagement_warning (p : profile) (b : benchmarks) (score : number)
    (l : list insight) :
  generateInsights p b score = Ok l ->
  emits warning engagement l
    = lt (parseFloat (engagement_rate p))
         (mul (average_number (avg_engagement b)) (dec 7 1)).
Proof.
  intros ->%generateInsights_Ok. unfold frequency_fires, content_fires.
  rule_cases; reflexivity.
Qed.

(** C7. When [generateInsights] returns a list -- whatever the averages of
    the baseline are: Numbers, the decimal strings of a cached row, or
    missing --, the list has an engagement warning exactly when the rate is
    strictly below [avg_engagement * 0.7], and the engagement success
    exactly when there is no warning and the rate is strictly above
    [avg_engagement * 1.3]; and for a rate equal to that first product it
    returns a list as well, without the warning. *)
Theorem engagement_thresholds (p : profile) (b : benchmarks) (score : number)
    (l : list insight) :
  generateInsights p b score = Ok l ->
  emits warning engagement l
    = lt (parseFloat (engagement_rate p))
         (mul (average_number (avg_engagement b)) (dec 7 1)) /\
  emits success engagement l
    = negb (lt (parseFloat (engagement_rate p))
              (mul (average_number (avg_engagement b)) (dec 7 1)))
      && gt (parseFloat (engagement_rate p))
           (mul (average_number (avg_engagement b)) (dec 13 1)) /\
  exists l' : list insight,
    generateInsights
      {| engagement_rate := Num (mul (average_number (avg_engagement b)) (dec 7 1));
         post_frequency := post_frequency p;
         reel_percentage := reel_percentage p |} b score = Ok l' /\
    emits warning engagement l' = false.
Proof.
  intros H. split; [now apply (emits_engagement_warning p b score) | split].
  - apply generateInsights_Ok in H as ->. unfold frequency_fires, content_fires.
    rule_cases; reflexivity.
  - destruct (proj2 (generateInsights_returns
                       {| engagement_rate :=
                            Num (mul (average_number (avg_engagement b)) (dec 7 1));
                          post_frequency := post_frequency p;
                          reel_percentage := reel_percentage p |} b score)) as [l' Hl'].
    { apply (proj1 (generateInsights_returns p b score)). now exists l. }
    exists l'. split; [exact Hl' |].
    rewrite (emits_engagement_warning _ _ _ _ Hl'). cbn [engagement_rate parseFloat].
    apply lt_irreflexive.
Qed.

(** Against a cached average of 3.50 handed over as a string, a rate of 2.00
    gets the warning and a rate of 2.45, which is [3.5 * 0.7] as the engine
    computes it, gets none. *)
Lemma engagement_thresholds_witness :
  exists l l' : list insight,
    generateInsights
      {| engagement_rate := Num (dec 200 2); post_frequency := Num (dec 420 2);
         reel_percentage := Num (int 35) |}
      {| avg_engagement := AvgString (Numeric 350);
         avg_post_frequency := AvgString (Numeric 400) |} (int 70) = Ok l /\
    emits warning engagement l = true /\
    generateInsights
      {| engagement_rate := Num (mul (dec 350 2) (dec 7 1));
         post_frequency := Num (dec 420 2); reel_percentage := Num (int 35) |}
      {| avg_engagement := AvgString (Numeric 350);
         avg_post_frequency := AvgString (Numeric 400) |} (int 70) = Ok l' /\
    emits warning engagement l' = false.
Proof.
  assert (exists l,
            generateInsights
              {| engagement_rate := Num (dec 200 2); post_frequency := Num (dec 420 2);
                 reel_percentage := Num (int 35) |}
              {| avg_engagement := AvgString (Numeric 350);
                 avg_post_frequency := AvgString (Numeric 400) |} (int 70) = Ok l)
    as [l E] by (eexists; vm_compute; reflexivity).
  destruct (engagement_thresholds _ _ _ _ E) as (Hw & _ & l' & E' & Hw').
  exists l, l'. split; [exact E |]. split; [rewrite Hw; now vm_compute |].
  split; [exact E' | exact Hw'].
Defined.

(** The threshold is the product as the engine rounds it: 5.81 is 0.7
    times 8.3, but [8.3 * 0.7] evaluates to a number just above 5.81, and a
    rate of 5.81 against an average of 8.3 gets the warning. *)
Lemma engagement_threshold_is_rounded (p : profile) (b : benchmarks) (score : number)
    (l : list insight) :
  generateInsights
    {| engagement_rate := Num (dec 581 2);
       post_frequency := post_frequency p;
       reel_percentage := reel_percentage p |}
    {| avg_engagement := AvgNumber (dec 83 1);
       avg_post_frequency := avg_post_frequency b |} score = Ok l ->
  lt (dec 581 2) (mul (dec 83 1) (dec 7 1)) = true /\
  emits warning engagement l = true.
Proof.
  intros H. split; [now vm_compute |].
  rewrite (emits_engagement_warning _ _ _ _ H). now vm_compute.
Qed.



End InsightFacts.

(** ** Numbers: rounding

    A rounding gives a number in canonical form that lies between the two
    neighbours of the exact value on the grid of the result; the bounds
    below follow from that. *)
Section RoundingFacts.
Import JS.
Local Open Scope Z_scope.

Lemma Zdigits2_bounds m : 0 < m -> 2 ^ (Zdigits2 m - 1) <= m < 2 ^ Zdigits2 m.
Proof. destruct m as [| p | p]; try lia. intros _. apply digits2_pos_bounds. Qed.

Lemma Zdigits2_nonneg m : 0 <= Zdigits2 m.
Proof. destruct m; cbn; lia. Qed.

Lemma Zdigits2_ge m d : 0 < m -> 2 ^ (d - 1) <= m -> d <= Zdigits2 m.
Proof.
  intros Hm Hd. pose proof (Zdigits2_bounds m Hm) as [_ Hu].
  pose proof (Zdigits2_nonneg m).
  destruct (Z.le_gt_cases d (Zdigits2 m)) as [| Hlt]; [done |].
  assert (2 ^ Zdigits2 m <= 2 ^ (d - 1)) by (apply Z.pow_le_mono_r; lia). lia.
Qed.

Lemma Zdigits2_le m d : 0 <= d -> 0 <= m < 2 ^ d -> Zdigits2 m <= d.
Proof.
  intros Hd [Hm Hu]. destruct (Z.eq_dec m 0) as [-> | Hne]; [done |].
  pose proof (Zdigits2_bounds m ltac:(lia)) as [Hl _].
  destruct (Z.le_gt_cases (Zdigits2 m) d) as [| Hlt]; [done |].
  assert (2 ^ d <= 2 ^ (Zdigits2 m - 1)) by (apply Z.pow_le_mono_r; lia). lia.
Qed.

Lemma shr_nonpos mrs e n : n <= 0 -> shr mrs e n = (mrs, e).
Proof. destruct n; try reflexivity. lia. Qed.

Lemma loc_of_shr_record_of_loc m l : loc_of_shr_record (shr_record_of_loc m l) = l.
Proof. now destruct l as [| []]. Qed.

Lemma shr_fexp_value m e l :
  0 <= m -> e <= fexp prec emax (Zdigits2 m + e) ->
  snd (shr_fexp prec emax m e l) = fexp prec emax (Zdigits2 m + e) /\
  shr_m (fst (shr_fexp prec emax m e l)) = m / 2 ^ (fexp prec emax (Zdigits2 m + e) - e).
Proof.
  intros Hm He. unfold shr_fexp, shr.
  destruct (fexp prec emax (Zdigits2 m + e) - e) as [| n | n] eqn:Hn; cbn [fst snd].
  - rewrite shr_m_of_loc, Z.pow_0_r, Z.div_1_r. split; lia.
  - rewrite iter_shr_1_m by (rewrite shr_m_of_loc; lia). rewrite shr_m_of_loc.
    split; [lia | reflexivity].
  - lia.
Qed.

Lemma shifted_mantissa_bounds m e :
  0 <= m -> e <= fexp prec emax (Zdigits2 m + e) ->
  0 <= m / 2 ^ (fexp prec emax (Zdigits2 m + e) - e) < 2 ^ prec /\
  (emin < fexp prec emax (Zdigits2 m + e) ->
   2 ^ (prec - 1) <= m / 2 ^ (fexp prec emax (Zdigits2 m + e) - e)).
Proof.
  intros Hm He. set (e1 := fexp prec emax (Zdigits2 m + e)) in *.
  assert (0 < 2 ^ (e1 - e)) as Hk by (apply Z.pow_pos_nonneg; lia).
  assert (e1 = Z.max (Zdigits2 m + e - prec) emin) as E1 by reflexivity.
  destruct (Z.eq_dec m 0) as [-> | Hne].
  - rewrite Z.div_0_l by lia. cbn [Zdigits2] in *. split; [split; [lia | reflexivity] |].
    unfold prec in *. lia.
  - pose proof (Zdigits2_bounds m ltac:(lia)) as [Hl Hu].
    pose proof (Zdigits2_nonneg m) as Hd.
    split; [split |].
    + apply Z.div_pos; lia.
    + apply Z.div_lt_upper_bound; [lia |].
      rewrite <- Z.pow_add_r by (unfold prec; lia).
      eapply Z.lt_le_trans; [exact Hu |]. apply Z.pow_le_mono_r; lia.
    + intros Hlt. apply Z.div_le_lower_bound; [lia |].
      rewrite <- Z.pow_add_r by (unfold prec; lia).
      eapply Z.le_trans; [| exact Hl]. apply Z.pow_le_mono_r; lia.
Qed.

Lemma round_nearest_even_le m l : round_nearest_even m l <= m + 1.
Proof.
  destruct l as [| []]; cbn [round_nearest_even]; try lia.
  destruct (Z.even m); lia.
Qed.

Lemma Zdigits2_to_pos M : 0 < M -> Zpos (digits2_pos (Z.to_pos M)) = Zdigits2 M.
Proof. destruct M; try lia. reflexivity. Qed.

(** The outcome of a rounding. *)
Lemma binary_round_aux_cases s m e l :
  0 <= m -> e <= fexp prec emax (Zdigits2 m + e) ->
  exists M,
    m / 2 ^ (fexp prec emax (Zdigits2 m + e) - e) <= M
      <= m / 2 ^ (fexp prec emax (Zdigits2 m + e) - e) + 1 /\
    (fexp prec emax (Zdigits2 m + e) = e -> l = loc_Exact -> M = m) /\
    binary_round_aux prec emax s m e l =
      if M =? 0 then S754_zero s
      else if M <? 2 ^ prec then
        (if fexp prec emax (Zdigits2 m + e) <=? emax - prec
         then S754_finite s (Z.to_pos M) (fexp prec emax (Zdigits2 m + e))
         else S754_infinity s)
      else
        (if fexp prec emax (Zdigits2 m + e) + 1 <=? emax - prec
         then S754_finite s (Z.to_pos (2 ^ (prec - 1))) (fexp prec emax (Zdigits2 m + e) + 1)
         else S754_infinity s).
Proof.
  intros Hm He.
  pose proof (shr_fexp_value m e l Hm He) as [Hs Hv].
  pose proof (shifted_mantissa_bounds m e Hm He) as [[Hm0 Hm1] Hlow].
  set (e1 := fexp prec emax (Zdigits2 m + e)) in *.
  set (m1 := m / 2 ^ (e1 - e)) in *.
  assert (emin <= e1) as He1 by apply fexp_ge_emin.
  unfold binary_round_aux.
  destruct (shr_fexp prec emax m e l) as [mrs' e'] eqn:E1. cbn [fst snd] in Hs, Hv.
  subst e'.
  set (M := round_nearest_even (shr_m mrs') (loc_of_shr_record mrs')).
  assert (m1 <= M <= m1 + 1) as HM.
  { unfold M. rewrite Hv. split; [apply round_nearest_even_ge | apply round_nearest_even_le]. }
  exists M. split; [exact HM |]. split.
  - intros Heq ->. unfold shr_fexp in E1. fold e1 in E1. rewrite Heq, Z.sub_diag in E1.
    cbn in E1. injection E1 as <-. reflexivity.
  - destruct (Z.eqb_spec M 0) as [E0 | E0].
    + rewrite E0. unfold shr_fexp. cbn [Zdigits2 Z.add].
      rewrite shr_nonpos by (unfold fexp; fold emin; unfold prec; lia).
      reflexivity.
    + assert (0 < M) as HMpos by lia.
      destruct (Z.ltb_spec M (2 ^ prec)) as [Hlt | Hge].
      * unfold shr_fexp.
        rewrite shr_nonpos.
        -- cbn [shr_record_of_loc shr_m]. destruct M as [| p | p]; try lia. reflexivity.
        -- pose proof (Zdigits2_le M prec ltac:(unfold prec; lia) ltac:(lia)).
           unfold fexp. fold emin. lia.
      * assert (M = 2 ^ prec) as -> by lia.
        unfold shr_fexp.
        replace (fexp prec emax (Zdigits2 (2 ^ prec) + e1) - e1) with 1
          by (unfold fexp; fold emin; change (Zdigits2 (2 ^ prec)) with (prec + 1);
              unfold prec; lia).
        cbn [shr shr_record_of_loc]. reflexivity.
Qed.

Lemma bounded_intro M e :
  0 < M < 2 ^ prec -> emin <= e <= emax - prec -> (emin < e -> 2 ^ (prec - 1) <= M) ->
  bounded prec emax (Z.to_pos M) e = true.
Proof.
  intros [HM Hu] [Hl Hh] Hn. unfold bounded, canonical_mantissa.
  rewrite Zdigits2_to_pos by done.
  apply andb_true_iff. split; [| now apply Z.leb_le].
  apply Z.eqb_eq. unfold fexp. fold emin.
  pose proof (Zdigits2_le M prec ltac:(unfold prec; lia) ltac:(lia)) as Hd.
  destruct (Z.eq_dec e emin) as [-> | Hne]; [lia |].
  pose proof (Zdigits2_ge M prec HM (Hn ltac:(lia))). lia.
Qed.

(** A rounding gives a number in canonical form, whose value is one of the
    two neighbours of the exact one on the grid of the result. *)
Lemma binary_round_aux_spec s m e l :
  0 <= m -> e <= fexp prec emax (Zdigits2 m + e) ->
  exists M,
    m / 2 ^ (fexp prec emax (Zdigits2 m + e) - e) <= M
      <= m / 2 ^ (fexp prec emax (Zdigits2 m + e) - e) + 1 /\
    (fexp prec emax (Zdigits2 m + e) = e -> l = loc_Exact -> M = m) /\
    is_number (binary_round_aux prec emax s m e l) = true /\
    (binary_round_aux prec emax s m e l = S754_infinity s /\
       emax - prec <= fexp prec emax (Zdigits2 m + e)
     \/ finite (binary_round_aux prec emax s m e l) = true /\
        scaled (binary_round_aux prec emax s m e l) =
          cond_Zopp s (M * 2 ^ (fexp prec emax (Zdigits2 m + e) - emin))).
Proof.
  intros Hm He.
  destruct (binary_round_aux_cases s m e l Hm He) as [M [HM [Hex ->]]].
  pose proof (shifted_mantissa_bounds m e Hm He) as [[Hm0 Hm1] Hlow].
  set (e1 := fexp prec emax (Zdigits2 m + e)) in *.
  assert (emin <= e1) as He1 by apply fexp_ge_emin.
  exists M. split; [exact HM |]. split; [exact Hex |].
  destruct (Z.eqb_spec M 0) as [E0 | E0].
  { split; [reflexivity |]. right. split; [reflexivity |]. rewrite E0. now destruct s. }
  destruct (Z.ltb_spec M (2 ^ prec)) as [Hlt | Hge].
  - destruct (Z.leb_spec e1 (emax - prec)) as [Hle | Hgt].
    + assert (bounded prec emax (Z.to_pos M) e1 = true) as Hb
        by (apply bounded_intro; lia).
      cbn [is_number finite scaled]. rewrite Z2Pos.id by lia.
      split; [exact Hb |]. right. split; [exact Hb | reflexivity].
    + split; [reflexivity |]. left. split; [reflexivity | lia].
  - assert (M = 2 ^ prec) as -> by lia.
    destruct (Z.leb_spec (e1 + 1) (emax - prec)) as [Hle | Hgt].
    + assert (bounded prec emax (Z.to_pos (2 ^ (prec - 1))) (e1 + 1) = true) as Hb.
      { apply bounded_intro; [split; reflexivity | lia | lia]. }
      cbn [is_number finite scaled].
      split; [exact Hb |]. right. split; [exact Hb |].
      f_equal. replace (e1 + 1 - emin) with (1 + (e1 - emin)) by lia.
      rewrite Z.pow_add_r by lia.
      change (Z.pos (Z.to_pos (2 ^ (prec - 1)))) with (2 ^ (prec - 1)).
      change (2 ^ prec) with (2 ^ (prec - 1) * 2 ^ 1). ring.
    + split; [reflexivity |]. left. split; [reflexivity | lia].
Qed.

Lemma binary_round_aux_is_number s m e l :
  0 <= m -> e <= fexp prec emax (Zdigits2 m + e) ->
  is_number (binary_round_aux prec emax s m e l) = true.
Proof.
  intros Hm He. now destruct (binary_round_aux_spec s m e l Hm He) as [M [_ [_ [H _]]]].
Qed.

(** The arguments [binary_round] passes on satisfy the side condition. *)
Lemma Zdigits2_shift p k : 0 <= k -> Zdigits2 (Zpos p * 2 ^ k) = Zpos (digits2_pos p) + k.
Proof.
  intros Hk. pose proof (digits2_pos_bounds p) as [Hl Hu].
  assert (0 < 2 ^ k) as Hp by (apply Z.pow_pos_nonneg; lia).
  apply Z.le_antisymm.
  - apply Zdigits2_le; [lia |]. split; [lia |].
    rewrite Z.pow_add_r by lia. nia.
  - apply Zdigits2_ge; [lia |].
    replace (Zpos (digits2_pos p) + k - 1) with (Zpos (digits2_pos p) - 1 + k) by lia.
    rewrite Z.pow_add_r by lia. nia.
Qed.

Lemma shl_align_fexp m e :
  let '(mz, ez) := shl_align m e (fexp prec emax (Zpos (digits2_pos m) + e)) in
  ez <= fexp prec emax (Zdigits2 (Zpos mz) + ez) /\
  (fexp prec emax (Zpos (digits2_pos m) + e) <= e ->
   fexp prec emax (Zdigits2 (Zpos mz) + ez) = ez) /\
  Zpos mz * 2 ^ (ez - emin) = Zpos m * 2 ^ (e - emin) /\
  Zdigits2 (Zpos mz) + ez = Zpos (digits2_pos m) + e.
Proof.
  pose proof (fexp_ge_emin (Zpos (digits2_pos m) + e)) as Hf.
  destruct (Z.le_gt_cases (fexp prec emax (Zpos (digits2_pos m) + e)) e) as [Hle | Hgt].
  - pose proof (shl_align_value m e _ Hle) as [Hv Hs].
    destruct (shl_align m e _) as [mz ez]. cbn [fst snd] in Hv, Hs. subst ez.
    assert (Zdigits2 (Zpos mz) = Zpos (digits2_pos m) + (e - fexp prec emax (Zpos (digits2_pos m) + e))) as Hd
      by (rewrite Hv; apply Zdigits2_shift; lia).
    rewrite Hd.
    replace (Zpos (digits2_pos m) + (e - fexp prec emax (Zpos (digits2_pos m) + e)) +
             fexp prec emax (Zpos (digits2_pos m) + e)) with (Zpos (digits2_pos m) + e) by lia.
    split; [lia |]. split; [done |]. split; [| done].
    rewrite Hv, <- Z.mul_assoc, <- Z.pow_add_r by lia. f_equal. f_equal. lia.
  - unfold shl_align.
    destruct (fexp prec emax (Zpos (digits2_pos m) + e) - e) eqn:E; try lia.
    cbn [Zdigits2]. split; [lia |]. split; [lia | done].
Qed.

Lemma binary_round_is_number s m e : is_number (binary_round prec emax s m e) = true.
Proof.
  unfold binary_round. pose proof (shl_align_fexp m e) as H.
  destruct (shl_align m e _) as [mz ez]. destruct H as [H _].
  apply binary_round_aux_is_number; [lia | exact H].
Qed.

Lemma int_is_number z : is_number (int z) = true.
Proof. destruct z; [reflexivity | apply binary_round_is_number ..]. Qed.

(** An integer below [2^53] in magnitude is represented exactly. *)
Lemma binary_round_exact s p :
  Zpos p < 2 ^ prec ->
  finite (binary_round prec emax s p 0) = true /\
  scaled (binary_round prec emax s p 0) = cond_Zopp s (Zpos p * 2 ^ (- emin)).
Proof.
  intros Hp. unfold binary_round. pose proof (shl_align_fexp p 0) as H.
  assert (Zpos (digits2_pos p) <= prec) as Hd
    by (apply (Zdigits2_le (Zpos p)); [unfold prec; lia | lia]).
  assert (fexp prec emax (Zpos (digits2_pos p) + 0) <= 0) as Hf
    by (unfold fexp, SpecFloat.emin, prec, emax in *; lia).
  destruct (shl_align p 0 _) as [mz ez]. destruct H as [H1 [H2 [H3 H4]]].
  specialize (H2 Hf).
  destruct (binary_round_aux_spec s (Zpos mz) ez loc_Exact ltac:(lia) H1)
    as [M [_ [Hex [_ [[_ Hinf] | [Hfin Hsc]]]]]].
  - rewrite H4 in Hinf. unfold fexp, SpecFloat.emin, prec, emax in *. lia.
  - split; [exact Hfin |]. rewrite Hsc, (Hex H2 eq_refl), H2, H3. reflexivity.
Qed.

Lemma int_exact z :
  Z.abs z < 2 ^ prec -> finite (int z) = true /\ scaled (int z) = z * 2 ^ (- emin).
Proof.
  intros Hz. destruct z as [| p | p]; [split; reflexivity | ..]; cbn [int binary_normalize].
  - apply (binary_round_exact false). lia.
  - destruct (binary_round_exact true p ltac:(lia)) as [H1 H2]. split; [exact H1 |].
    rewrite H2. cbn [cond_Zopp]. lia.
Qed.

Lemma pow2_neg_pos m B e : 0 <= m -> m < B * 2 ^ (- e) -> e <= 0 /\ 0 < B.
Proof.
  intros Hm Hlt. destruct (Z.le_gt_cases e 0) as [He | He].
  - split; [done |]. pose proof (Z.pow_pos_nonneg 2 (- e) ltac:(lia) ltac:(lia)). nia.
  - rewrite Z.pow_neg_r in Hlt by lia. lia.
Qed.

(** A rounding does not cross a multiple of the grid: an exact value below
    [B] rounds to at most [B]. *)
Lemma binary_round_aux_upper s m e l B :
  0 <= m -> e <= fexp prec emax (Zdigits2 m + e) ->
  B <= 2 ^ prec -> m < B * 2 ^ (- e) ->
  finite (binary_round_aux prec emax s m e l) = true /\
  Z.abs (scaled (binary_round_aux prec emax s m e l)) <= B * 2 ^ (- emin).
Proof.
  intros Hm He HB Hlt.
  destruct (pow2_neg_pos m B e Hm Hlt) as [He0 HB0].
  destruct (binary_round_aux_spec s m e l Hm He) as [M [HM [_ [_ Hr]]]].
  pose proof (shifted_mantissa_bounds m e Hm He) as [[Hm0 _] _].
  set (e1 := fexp prec emax (Zdigits2 m + e)) in *.
  assert (emin <= e1) as He1 by apply fexp_ge_emin.
  assert (0 < 2 ^ (- e)) as Hp by (apply Z.pow_pos_nonneg; lia).
  assert (e1 <= 0) as He10.
  { assert (Zdigits2 m <= prec - e) as Hd.
    { apply Zdigits2_le; [unfold prec; lia |]. split; [done |].
      replace (prec - e) with (prec + - e) by lia.
      rewrite Z.pow_add_r by (unfold prec; lia). nia. }
    unfold e1, fexp, SpecFloat.emin, prec, emax in *. lia. }
  assert (0 < 2 ^ (e1 - e)) as Hp1 by (apply Z.pow_pos_nonneg; lia).
  assert (0 < 2 ^ (- e1)) as Hp2 by (apply Z.pow_pos_nonneg; lia).
  assert (0 < 2 ^ (e1 - emin)) as Hp3 by (apply Z.pow_pos_nonneg; lia).
  assert (2 ^ (e1 - e) * 2 ^ (- e1) = 2 ^ (- e)) as E1
    by (rewrite <- Z.pow_add_r by lia; f_equal; lia).
  assert (2 ^ (- e1) * 2 ^ (e1 - emin) = 2 ^ (- emin)) as E2
    by (rewrite <- Z.pow_add_r by lia; f_equal; lia).
  assert (m / 2 ^ (e1 - e) < B * 2 ^ (- e1)) as Hm1.
  { apply Z.div_lt_upper_bound; [done |]. nia. }
  destruct Hr as [[_ Hinf] | [Hfin Hsc]].
  - unfold prec, emax in Hinf. lia.
  - split; [exact Hfin |]. rewrite Hsc.
    assert (Z.abs (cond_Zopp s (M * 2 ^ (e1 - emin))) = M * 2 ^ (e1 - emin)) as ->
      by (destruct s; cbn [cond_Zopp]; nia).
    nia.
Qed.

(** Nor does it cross one from above. *)
Lemma binary_round_aux_lower s m e l B :
  0 < m -> e <= fexp prec emax (Zdigits2 m + e) ->
  0 <= B <= 2 ^ prec -> (e <= 0 -> B * 2 ^ (- e) <= m) ->
  binary_round_aux prec emax s m e l = S754_infinity s \/
  finite (binary_round_aux prec emax s m e l) = true /\
  B * 2 ^ (- emin) <= Z.abs (scaled (binary_round_aux prec emax s m e l)).
Proof.
  intros Hm He HB Hge.
  destruct (binary_round_aux_spec s m e l ltac:(lia) He) as [M [HM [_ [_ Hr]]]].
  pose proof (shifted_mantissa_bounds m e ltac:(lia) He) as [[Hm0 _] Hlow].
  set (e1 := fexp prec emax (Zdigits2 m + e)) in *.
  assert (emin <= e1) as He1 by apply fexp_ge_emin.
  destruct Hr as [[Hinf _] | [Hfin Hsc]]; [now left | right].
  split; [exact Hfin |]. rewrite Hsc.
  assert (0 < 2 ^ (e1 - emin)) as Hp3 by (apply Z.pow_pos_nonneg; lia).
  assert (Z.abs (cond_Zopp s (M * 2 ^ (e1 - emin))) = M * 2 ^ (e1 - emin)) as ->
    by (destruct s; cbn [cond_Zopp]; nia).
  destruct (Z.le_gt_cases e1 0) as [He10 | He10].
  - assert (0 < 2 ^ (e1 - e)) as Hp1 by (apply Z.pow_pos_nonneg; lia).
    assert (0 < 2 ^ (- e1)) as Hp2 by (apply Z.pow_pos_nonneg; lia).
    assert (2 ^ (e1 - e) * 2 ^ (- e1) = 2 ^ (- e)) as E1
      by (rewrite <- Z.pow_add_r by lia; f_equal; lia).
    assert (2 ^ (- e1) * 2 ^ (e1 - emin) = 2 ^ (- emin)) as E2
      by (rewrite <- Z.pow_add_r by lia; f_equal; lia).
    assert (B * 2 ^ (- e1) <= m / 2 ^ (e1 - e)) as Hm1.
    { apply Z.div_le_lower_bound; [done |]. specialize (Hge ltac:(lia)). nia. }
    nia.
  - specialize (Hlow ltac:(unfold emin, SpecFloat.emin, prec, emax; lia)).
    assert (2 ^ (- emin) * 2 <= 2 ^ (e1 - emin)) as Hp.
    { change (2 ^ (- emin) * 2) with (2 ^ (- emin + 1)). apply Z.pow_le_mono_r; lia. }
    assert (0 < 2 ^ (- emin)) by reflexivity.
    change (2 ^ prec) with (2 ^ (prec - 1) * 2) in HB.
    assert (0 < 2 ^ (prec - 1)) by reflexivity.
    nia.
Qed.

(** The product of two canonical mantissas satisfies the side condition. *)
Lemma mul_fexp mx ex my ey :
  bounded prec emax mx ex = true -> bounded prec emax my ey = true ->
  ex + ey <= fexp prec emax (Zdigits2 (Zpos (mx * my)) + (ex + ey)).
Proof.
  intros [Hex [Hdx Hnx]]%bounded_inv [Hey [Hdy Hny]]%bounded_inv.
  assert (fexp prec emax (Zdigits2 (Zpos (mx * my)) + (ex + ey)) =
          Z.max (Zdigits2 (Zpos (mx * my)) + (ex + ey) - prec) emin) as -> by reflexivity.
  destruct (Z.le_gt_cases (ex + ey) emin) as [| Hgt]; [lia |].
  assert (prec <= Zdigits2 (Zpos (mx * my))); [| lia].
  apply Zdigits2_ge; [lia |]. rewrite Pos2Z.inj_mul.
  pose proof (digits2_pos_bounds mx) as [Hlx _].
  pose proof (digits2_pos_bounds my) as [Hly _].
  assert (0 < 2 ^ (prec - 1)) by reflexivity.
  destruct (Z.eq_dec ex emin) as [Ex | Ex].
  - rewrite Hny in Hly by (unfold emin, SpecFloat.emin, prec, emax in *; lia). nia.
  - rewrite Hnx in Hlx by lia. nia.
Qed.

(** So does the quotient [SFdiv_core_binary] computes. *)
Lemma div_core_fexp mx ex my ey :
  let '(q, e', l) := SFdiv_core_binary prec emax (Zpos mx) ex (Zpos my) ey in
  0 <= q /\ e' <= fexp prec emax (Zdigits2 q + e') /\
  e' <= ex - ey /\
  e' <= fexp prec emax (Zpos (digits2_pos mx) + ex - (Zpos (digits2_pos my) + ey)) /\
  q * Zpos my <= Zpos mx * 2 ^ (ex - ey - e') < (q + 1) * Zpos my.
Proof.
  unfold SFdiv_core_binary. cbn [Zdigits2].
  set (t := Zpos (digits2_pos mx) + ex - (Zpos (digits2_pos my) + ey)).
  set (e' := Z.min (fexp prec emax t) (ex - ey)).
  set (s := ex - ey - e').
  assert (0 <= s) as Hs by (unfold s, e'; lia).
  set (m' := match s with Zpos _ => Z.shiftl (Zpos mx) s | Z0 => Zpos mx | Zneg _ => 0 end).
  assert (m' = Zpos mx * 2 ^ s) as Hm'.
  { unfold m'. destruct s as [| p | p] eqn:Es; [lia | | lia].
    apply Z.shiftl_mul_pow2. lia. }
  pose proof (Z_div_mod m' (Zpos my) ltac:(lia)) as Hdm.
  destruct (Z.div_eucl m' (Zpos my)) as [q r]. destruct Hdm as [Hq Hr].
  assert (0 < 2 ^ s) as Hp by (apply Z.pow_pos_nonneg; lia).
  assert (0 <= q) as Hq0 by nia.
  split; [exact Hq0 |].
  split; [| split; [unfold e'; lia | split; [unfold e'; lia | fold s; subst m'; nia]]].
  assert (fexp prec emax (Zdigits2 q + e') = Z.max (Zdigits2 q + e' - prec) emin) as ->
    by reflexivity.
  destruct (Z.le_gt_cases e' emin) as [| Hgt]; [lia |].
  assert (prec <= Zdigits2 q); [| lia].
  assert (e' <= t - prec) as Ht.
  { assert (e' <= fexp prec emax t) as Hf by (unfold e'; lia).
    unfold fexp in Hf. fold emin in Hf. lia. }
  pose proof (digits2_pos_bounds mx) as [Hlx _].
  pose proof (digits2_pos_bounds my) as [_ Huy].
  assert (2 ^ (prec - 1) * 2 ^ Zpos (digits2_pos my) <= Zpos mx * 2 ^ s) as Hbig.
  { apply Z.le_trans with (2 ^ (Zpos (digits2_pos mx) - 1) * 2 ^ s); [| nia].
    rewrite <- !Z.pow_add_r by (unfold prec; lia).
    apply Z.pow_le_mono_r; [lia |]. unfold s, t in *. lia. }
  assert (0 < 2 ^ (prec - 1)) by reflexivity.
  assert (2 ^ (prec - 1) <= q) as Hqb by nia.
  apply Zdigits2_ge; lia.
Qed.

Lemma abs_cond_Zopp s z : Z.abs (cond_Zopp s z) = Z.abs z.
Proof. destruct s; cbn [cond_Zopp]; lia. Qed.

(** The magnitude of a finite number against an integer bound. *)
Lemma scaled_lt_bound m e B :
  bounded prec emax m e = true -> B <= 2 ^ prec ->
  Zpos m * 2 ^ (e - emin) < B * 2 ^ (- emin) -> e <= 0 /\ Zpos m < B * 2 ^ (- e).
Proof.
  intros [He [Hd Hn]]%bounded_inv HB Hlt.
  assert (0 < 2 ^ (e - emin)) as Hp by (apply Z.pow_pos_nonneg; lia).
  assert (0 < 2 ^ (- emin)) as Hp0 by reflexivity.
  assert (e <= 0) as He0.
  { destruct (Z.le_gt_cases e 0) as [| Hgt]; [done | exfalso].
    pose proof (digits2_pos_bounds m) as [Hl _].
    rewrite Hn in Hl by (unfold emin, SpecFloat.emin, prec, emax in *; lia).
    assert (2 ^ (- emin) * 2 <= 2 ^ (e - emin)) as Hp1.
    { change (2 ^ (- emin) * 2) with (2 ^ (- emin + 1)). apply Z.pow_le_mono_r; lia. }
    change (2 ^ prec) with (2 ^ (prec - 1) * 2) in HB.
    assert (0 < 2 ^ (prec - 1)) by reflexivity. nia. }
  split; [done |].
  assert (0 < 2 ^ (- e)) as Hp1 by (apply Z.pow_pos_nonneg; lia).
  assert (2 ^ (- e) * 2 ^ (e - emin) = 2 ^ (- emin)) as E
    by (rewrite <- Z.pow_add_r by lia; f_equal; lia).
  nia.
Qed.

Lemma scaled_le_bound m e B :
  bounded prec emax m e = true -> B < 2 ^ prec ->
  Zpos m * 2 ^ (e - emin) <= B * 2 ^ (- emin) -> e <= 0 /\ Zpos m <= B * 2 ^ (- e).
Proof.
  intros Hb HB Hle.
  assert (0 < 2 ^ (- emin)) as Hp0 by reflexivity.
  destruct (scaled_lt_bound m e (B + 1) Hb ltac:(lia) ltac:(lia)) as [He _].
  split; [done |].
  apply bounded_inv in Hb as [Hb _].
  assert (0 < 2 ^ (e - emin)) as Hp by (apply Z.pow_pos_nonneg; lia).
  assert (0 < 2 ^ (- e)) as Hp1 by (apply Z.pow_pos_nonneg; lia).
  assert (2 ^ (- e) * 2 ^ (e - emin) = 2 ^ (- emin)) as E
    by (rewrite <- Z.pow_add_r by lia; f_equal; lia).
  nia.
Qed.

Lemma scaled_ge_bound m e B :
  bounded prec emax m e = true ->
  B * 2 ^ (- emin) <= Zpos m * 2 ^ (e - emin) -> e <= 0 -> B * 2 ^ (- e) <= Zpos m.
Proof.
  intros [He _]%bounded_inv Hle He0.
  assert (0 < 2 ^ (e - emin)) as Hp by (apply Z.pow_pos_nonneg; lia).
  assert (0 < 2 ^ (- e)) as Hp1 by (apply Z.pow_pos_nonneg; lia).
  assert (2 ^ (- e) * 2 ^ (e - emin) = 2 ^ (- emin)) as E
    by (rewrite <- Z.pow_add_r by lia; f_equal; lia).
  nia.
Qed.

(** A quotient of magnitude below [B] rounds to at most [B]. *)
Lemma div_upper sx mx ex sy my ey B :
  bounded prec emax mx ex = true -> bounded prec emax my ey = true ->
  B <= 2 ^ prec ->
  Zpos mx * 2 ^ (ex - emin) < B * (Zpos my * 2 ^ (ey - emin)) ->
  finite (div (S754_finite sx mx ex) (S754_finite sy my ey)) = true /\
  Z.abs (scaled (div (S754_finite sx mx ex) (S754_finite sy my ey))) <= B * 2 ^ (- emin).
Proof.
  intros Hbx Hby HB Hlt. cbn [div SFdiv].
  pose proof (div_core_fexp mx ex my ey) as H.
  destruct (SFdiv_core_binary prec emax (Zpos mx) ex (Zpos my) ey) as [[q e'] l].
  destruct H as [Hq [Hf [He1 [He2 [Hlo Hhi]]]]].
  pose proof (bounded_inv _ _ Hbx) as [Hex _]. pose proof (bounded_inv _ _ Hby) as [Hey _].
  assert (0 < 2 ^ (ex - emin)) as Hpx by (apply Z.pow_pos_nonneg; lia).
  assert (0 < 2 ^ (ey - emin)) as Hpy by (apply Z.pow_pos_nonneg; lia).
  assert (0 < B) as HB0 by nia.
  apply binary_round_aux_upper; try done.
  pose proof (digits2_pos_bounds mx) as [Hlx _].
  pose proof (digits2_pos_bounds my) as [_ Huy].
  assert (e' <= 0) as He0.
  { assert (Zpos (digits2_pos mx) + ex - (Zpos (digits2_pos my) + ey) <= prec) as Ht.
    { assert (2 ^ (Zpos (digits2_pos mx) - 1 + (ex - emin))
              < 2 ^ (prec + Zpos (digits2_pos my) + (ey - emin))) as Hpow.
      { rewrite !Z.pow_add_r by (unfold prec; lia).
        assert (0 < 2 ^ Zpos (digits2_pos my)) by (apply Z.pow_pos_nonneg; lia).
        assert (0 < 2 ^ prec) by reflexivity.
        apply Z.le_lt_trans with (Zpos mx * 2 ^ (ex - emin)); [nia |].
        apply Z.lt_le_trans with (B * (Zpos my * 2 ^ (ey - emin))); [done |].
        apply Z.le_trans with (2 ^ prec * (Zpos my * 2 ^ (ey - emin))); nia. }
      apply Z.pow_lt_mono_r_iff in Hpow; [lia | lia | unfold prec; lia]. }
    unfold fexp, SpecFloat.emin, prec, emax in *. lia. }
  set (a := 2 ^ (- e')). set (P := 2 ^ (ex - ey - e')) in *.
  assert (0 < a) as Ha by (apply Z.pow_pos_nonneg; lia).
  assert (P * 2 ^ (ey - emin) = 2 ^ (ex - emin) * a) as E.
  { unfold P, a. rewrite <- !Z.pow_add_r by lia. f_equal. lia. }
  destruct (Z.lt_ge_cases q (B * a)) as [| Hge]; [done | exfalso].
  assert (B * a * (Zpos my * 2 ^ (ey - emin)) <= Zpos mx * 2 ^ (ex - emin) * a) as H1.
  { replace (Zpos mx * 2 ^ (ex - emin) * a) with (Zpos mx * P * 2 ^ (ey - emin))
      by (rewrite <- Z.mul_assoc, E; ring).
    apply Z.le_trans with (q * Zpos my * 2 ^ (ey - emin)); nia. }
  nia.
Qed.

(** A quotient of magnitude at least [B] rounds to at least [B]. *)
Lemma div_lower sx mx ex sy my ey B :
  bounded prec emax mx ex = true -> bounded prec emax my ey = true ->
  1 <= B <= 2 ^ prec ->
  B * (Zpos my * 2 ^ (ey - emin)) <= Zpos mx * 2 ^ (ex - emin) ->
  div (S754_finite sx mx ex) (S754_finite sy my ey) = S754_infinity (xorb sx sy) \/
  finite (div (S754_finite sx mx ex) (S754_finite sy my ey)) = true /\
  B * 2 ^ (- emin) <= Z.abs (scaled (div (S754_finite sx mx ex) (S754_finite sy my ey))).
Proof.
  intros Hbx Hby HB Hle. cbn [div SFdiv].
  pose proof (div_core_fexp mx ex my ey) as H.
  destruct (SFdiv_core_binary prec emax (Zpos mx) ex (Zpos my) ey) as [[q e'] l].
  destruct H as [Hq [Hf [He1 [He2 [Hlo Hhi]]]]].
  pose proof (bounded_inv _ _ Hbx) as [Hex _]. pose proof (bounded_inv _ _ Hby) as [Hey _].
  assert (0 < 2 ^ (ex - emin)) as Hpx by (apply Z.pow_pos_nonneg; lia).
  assert (0 < 2 ^ (ey - emin)) as Hpy by (apply Z.pow_pos_nonneg; lia).
  assert (e' <= 0 -> B * 2 ^ (- e') <= q) as Hge.
  { intros He0. set (a := 2 ^ (- e')). set (P := 2 ^ (ex - ey - e')) in *.
    assert (0 < a) as Ha by (apply Z.pow_pos_nonneg; lia).
    assert (P * 2 ^ (ey - emin) = 2 ^ (ex - emin) * a) as E.
    { unfold P, a. rewrite <- !Z.pow_add_r by lia. f_equal. lia. }
    destruct (Z.le_gt_cases (B * a) q) as [| Hgt]; [done | exfalso].
    assert (Zpos mx * 2 ^ (ex - emin) * a < B * a * (Zpos my * 2 ^ (ey - emin))) as H1.
    { replace (Zpos mx * 2 ^ (ex - emin) * a) with (Zpos mx * P * 2 ^ (ey - emin))
        by (rewrite <- Z.mul_assoc, E; ring).
      apply Z.lt_le_trans with ((q + 1) * Zpos my * 2 ^ (ey - emin)); nia. }
    nia. }
  apply binary_round_aux_lower; [| done | lia | done].
  destruct (Z.eq_dec q 0) as [-> | Hne]; [exfalso | lia].
  cbn [Zdigits2 Z.add] in Hf.
  assert (e' <= 0) as He0 by (unfold fexp, SpecFloat.emin, prec, emax in Hf; lia).
  specialize (Hge He0).
  pose proof (Z.pow_pos_nonneg 2 (- e') ltac:(lia) ltac:(lia)). nia.
Qed.

(** A product of magnitude below [B] rounds to at most [B]. *)
Lemma mul_upper sx mx ex sy my ey B :
  bounded prec emax mx ex = true -> bounded prec emax my ey = true ->
  B <= 2 ^ prec ->
  Zpos mx * 2 ^ (ex - emin) * (Zpos my * 2 ^ (ey - emin)) < B * 2 ^ (- emin) * 2 ^ (- emin) ->
  finite (mul (S754_finite sx mx ex) (S754_finite sy my ey)) = true /\
  Z.abs (scaled (mul (S754_finite sx mx ex) (S754_finite sy my ey))) <= B * 2 ^ (- emin).
Proof.
  intros Hbx Hby HB Hlt. cbn [mul SFmul].
  pose proof (mul_fexp mx ex my ey Hbx Hby) as Hf.
  pose proof (bounded_inv _ _ Hbx) as [Hex [Hdx Hnx]].
  pose proof (bounded_inv _ _ Hby) as [Hey [Hdy Hny]].
  assert (0 < 2 ^ (ex - emin)) as Hpx by (apply Z.pow_pos_nonneg; lia).
  assert (0 < 2 ^ (ey - emin)) as Hpy by (apply Z.pow_pos_nonneg; lia).
  assert (0 < 2 ^ (- emin)) as Hp0 by reflexivity.
  apply binary_round_aux_upper; try done.
  rewrite Pos2Z.inj_mul.
  assert (ex + ey <= 0) as He0.
  { destruct (Z.le_gt_cases (ex + ey) 0) as [| Hgt]; [done | exfalso].
    assert (prec <= Zdigits2 (Zpos (mx * my))) as Hd
      by (unfold fexp, SpecFloat.emin, emin, prec, emax in *; lia).
    pose proof (Zdigits2_bounds (Zpos (mx * my)) ltac:(lia)) as [Hl _].
    assert (2 ^ (prec - 1) <= Zpos (mx * my)) as Hm.
    { eapply Z.le_trans; [| exact Hl]. apply Z.pow_le_mono_r; lia. }
    rewrite Pos2Z.inj_mul in Hm.
    assert (2 ^ (- emin) * 2 * 2 ^ (- emin) <= 2 ^ (ex - emin) * 2 ^ (ey - emin)) as Hp2.
    { rewrite <- Z.pow_add_r by lia.
      change (2 ^ (- emin) * 2 * 2 ^ (- emin)) with (2 ^ (- emin + 1 + - emin)).
      apply Z.pow_le_mono_r; unfold emin, SpecFloat.emin, prec, emax in *; lia. }
    change (2 ^ prec) with (2 ^ (prec - 1) * 2) in HB.
    assert (0 < 2 ^ (prec - 1)) by reflexivity. nia. }
  assert (0 < 2 ^ (- (ex + ey))) as Hp1 by (apply Z.pow_pos_nonneg; lia).
  assert (2 ^ (- (ex + ey)) * (2 ^ (ex - emin) * 2 ^ (ey - emin)) = 2 ^ (- emin) * 2 ^ (- emin)) as E.
  { rewrite <- !Z.pow_add_r by lia. f_equal. lia. }
  destruct (Z.lt_ge_cases (Zpos mx * Zpos my) (B * 2 ^ (- (ex + ey)))) as [| Hge]; [done |].
  exfalso. nia.
Qed.

(** A product of magnitude at least [B] rounds to at least [B]. *)
Lemma mul_lower sx mx ex sy my ey B :
  bounded prec emax mx ex = true -> bounded prec emax my ey = true ->
  0 <= B <= 2 ^ prec ->
  B * 2 ^ (- emin) * 2 ^ (- emin) <= Zpos mx * 2 ^ (ex - emin) * (Zpos my * 2 ^ (ey - emin)) ->
  mul (S754_finite sx mx ex) (S754_finite sy my ey) = S754_infinity (xorb sx sy) \/
  finite (mul (S754_finite sx mx ex) (S754_finite sy my ey)) = true /\
  B * 2 ^ (- emin) <= Z.abs (scaled (mul (S754_finite sx mx ex) (S754_finite sy my ey))).
Proof.
  intros Hbx Hby HB Hle. cbn [mul SFmul].
  pose proof (mul_fexp mx ex my ey Hbx Hby) as Hf.
  pose proof (bounded_inv _ _ Hbx) as [Hex _].
  pose proof (bounded_inv _ _ Hby) as [Hey _].
  assert (0 < 2 ^ (ex - emin)) as Hpx by (apply Z.pow_pos_nonneg; lia).
  assert (0 < 2 ^ (ey - emin)) as Hpy by (apply Z.pow_pos_nonneg; lia).
  assert (0 < 2 ^ (- emin)) as Hp0 by reflexivity.
  apply binary_round_aux_lower; try done. intros He0.
  rewrite Pos2Z.inj_mul.
  assert (0 < 2 ^ (- (ex + ey))) as Hp1 by (apply Z.pow_pos_nonneg; lia).
  assert (2 ^ (- (ex + ey)) * (2 ^ (ex - emin) * 2 ^ (ey - emin)) = 2 ^ (- emin) * 2 ^ (- emin)) as E.
  { rewrite <- !Z.pow_add_r by lia. f_equal. lia. }
  destruct (Z.le_gt_cases (B * 2 ^ (- (ex + ey))) (Zpos mx * Zpos my)) as [| Hgt]; [done |].
  exfalso. nia.
Qed.

Lemma compare_Eq_finite s m e s' m' e' :
  SFcompare (S754_finite s m e) (S754_finite s' m' e') = Some Eq ->
  S754_finite s m e = S754_finite s' m' e'.
Proof.
  cbn [SFcompare]. intros H. injection H as H.
  destruct s, s'; try discriminate;
    destruct (Z.compare_spec e e') as [-> | |]; try discriminate;
    change (Pos.compare_cont Eq m m') with (m ?= m')%positive in H;
    destruct (Pos.compare_spec m m') as [-> | |]; try discriminate; reflexivity.
Qed.

(** Two finite numbers of the same value, one of them not zero, are the
    same number. *)
Lemma scaled_inj x s m e :
  finite x = true -> bounded prec emax m e = true ->
  scaled x = scaled (S754_finite s m e) -> x = S754_finite s m e.
Proof.
  intros Hx Hb Hs.
  pose proof (compare_scaled x (S754_finite s m e) (finite_is_number _ Hx) Hb) as Hc.
  rewrite Hs, Z.compare_refl in Hc.
  destruct x as [sx | sx | | sx mx ex]; try discriminate.
  - exfalso. cbn [scaled] in Hs.
    pose proof (scaled_pos_pos m e (proj1 (bounded_inv _ _ Hb))). destruct s; cbn in Hs; lia.
  - now apply compare_Eq_finite.
Qed.

Lemma nonnegative_scaled x : nonnegative x = true -> 0 <= scaled x.
Proof.
  destruct x as [[] | | | [] m e]; cbn [nonnegative]; intros H; try discriminate H;
    cbn [scaled cond_Zopp]; [lia |].
  apply Z.mul_nonneg_nonneg; [lia | apply Z.pow_nonneg; lia].
Qed.

Lemma signed0_finite_nonnegative x :
  signed0 false x -> finite x = true -> nonnegative x = true.
Proof. destruct x as [[] | | | [] m e]; cbn; try done. Qed.

(** [Math.round] of a finite number between 0 and [B] is an integer
    between 0 and [B]. *)
Lemma Math_round_range x B :
  finite x = true -> nonnegative x = true -> 0 <= B < 2 ^ (prec - 1) ->
  scaled x <= B * 2 ^ (- emin) ->
  exists z, 0 <= z <= B /\ Math_round x = int z.
Proof.
  destruct x as [[] | | | [] m e]; cbn [finite nonnegative]; intros Hb Hn HB Hle;
    try discriminate Hb; try discriminate Hn; clear Hn.
  - exists 0. split; [lia | reflexivity].
  - cbn [finite] in Hb. cbn [scaled cond_Zopp] in Hle.
    assert (2 ^ (prec - 1) < 2 ^ prec) as Hpp by reflexivity.
    destruct (scaled_le_bound m e B Hb ltac:(lia) Hle) as [He Hm].
    pose proof (bounded_inv _ _ Hb) as [_ [_ Hn]].
    assert (e < 0) as He0.
    { destruct (Z.eq_dec e 0) as [-> | ]; [exfalso | lia].
      pose proof (digits2_pos_bounds m) as [Hl _].
      rewrite Hn in Hl by (unfold emin, SpecFloat.emin, prec, emax; lia).
      cbn in Hm. lia. }
    cbn [Math_round]. destruct (Z.leb_spec 0 e) as [| _]; [lia |].
    cbn [cond_Zopp]. unfold round_half_up.
    assert (0 < 2 ^ (- e)) as Hp by (apply Z.pow_pos_nonneg; lia).
    assert (2 ^ (- e) = 2 * 2 ^ (- e - 1)) as E.
    { rewrite <- Z.pow_succ_r by lia. f_equal. lia. }
    set (z := (Zpos m + 2 ^ (- e - 1)) / 2 ^ (- e)).
    assert (0 <= z) as Hz0 by (apply Z.div_pos; lia).
    assert (z < B + 1) as Hz1 by (apply Z.div_lt_upper_bound; [done | nia]).
    exists z. split; [lia |]. destruct z; [reflexivity | reflexivity | lia].
Qed.

Lemma int_positive n :
  0 < n < 2 ^ prec ->
  exists m e, int n = S754_finite false m e /\ bounded prec emax m e = true /\
              Zpos m * 2 ^ (e - emin) = n * 2 ^ (- emin).
Proof.
  intros Hn. destruct (int_exact n ltac:(lia)) as [Hf Hs].
  assert (0 < 2 ^ (- emin)) by reflexivity.
  destruct (int n) as [s | s | | s m e]; try discriminate.
  - cbn [scaled] in Hs. nia.
  - cbn [finite] in Hf. pose proof (scaled_pos_pos m e (proj1 (bounded_inv _ _ Hf))).
    destruct s; cbn [scaled cond_Zopp] in Hs; [nia |].
    exists m, e. now split.
Qed.

Lemma div_self s m e :
  bounded prec emax m e = true ->
  div (S754_finite s m e) (S754_finite s m e) = int 1.
Proof.
  intros Hb. cbn [div SFdiv]. unfold SFdiv_core_binary.
  rewrite Z.sub_diag.
  replace (Zdigits2 (Zpos m) + e - (Zdigits2 (Zpos m) + e)) with 0 by lia.
  change (Z.min (fexp prec emax 0) 0) with (-53). change (0 - -53) with 53.
  rewrite Z.shiftl_mul_pow2 by lia.
  pose proof (Z_div_mod (Zpos m * 2 ^ 53) (Zpos m) ltac:(lia)) as Hdm.
  destruct (Z.div_eucl (Zpos m * 2 ^ 53) (Zpos m)) as [q r]. destruct Hdm as [Hq Hr].
  assert (q = 2 ^ 53 /\ r = 0) as [-> ->].
  { set (K := 2 ^ 53) in *. clearbody K.
    assert (q = K) as -> by (destruct (Z.lt_trichotomy q K) as [| [|]]; nia).
    split; [reflexivity | lia]. }
  destruct s; cbn [xorb]; unfold new_location, new_location_even, new_location_odd;
    destruct (Z.even (Zpos m)); reflexivity.
Qed.

(** The share of an index in a length, in per cent: a finite number
    between 0 and 100. *)
Lemma share_bounds i n :
  0 <= i <= n -> 0 < n < 2 ^ prec ->
  finite (mul (div (int i) (int n)) (int 100)) = true /\
  nonnegative (mul (div (int i) (int n)) (int 100)) = true /\
  scaled (mul (div (int i) (int n)) (int 100)) <= 100 * 2 ^ (- emin).
Proof.
  intros Hi Hn.
  destruct (int_positive n ltac:(lia)) as [mn [en [En [Hbn Hsn]]]]. rewrite En.
  assert (0 < 2 ^ (- emin)) as Hp0 by reflexivity.
  destruct (Z.eq_dec i 0) as [-> | Hi0].
  { split; [reflexivity |]. split; [reflexivity |]. now vm_compute. }
  destruct (Z.eq_dec i n) as [-> | Hin].
  { rewrite En, div_self by done. split; [reflexivity |]. split; [reflexivity |].
    now vm_compute. }
  destruct (int_positive i ltac:(lia)) as [mi [ei [Ei [Hbi Hsi]]]]. rewrite Ei.
  destruct (div_upper false mi ei false mn en 1 Hbi Hbn ltac:(done) ltac:(nia))
    as [Hfq Hsq].
  assert (signed0 false (div (S754_finite false mi ei) (S754_finite false mn en))) as Hq0
    by (now apply div_signed0).
  pose proof (signed0_finite_nonnegative _ Hq0 Hfq) as Hqn.
  pose proof (nonnegative_scaled _ Hqn) as Hq1.
  set (q := div (S754_finite false mi ei) (S754_finite false mn en)) in *.
  rewrite Z.abs_eq in Hsq by done.
  destruct (Z.eq_dec (scaled q) (2 ^ (- emin))) as [E1 | E1].
  { rewrite (scaled_inj q false 4503599627370496 (-52) Hfq eq_refl E1).
    split; [reflexivity |]. split; [reflexivity |]. now vm_compute. }
  destruct q as [[] | | | [] mq eq] eqn:Eq; try discriminate.
  { split; [reflexivity |]. split; [reflexivity |]. now vm_compute. }
  cbn [finite scaled cond_Zopp] in *.
  change (int 100) with (S754_finite false 7036874417766400 (-46)).
  destruct (mul_upper false mq eq false 7036874417766400 (-46) 100 Hfq eq_refl
              ltac:(done)) as [Hfp Hsp].
  { change (Zpos 7036874417766400 * 2 ^ (-46 - emin)) with (100 * 2 ^ (- emin)). nia. }
  assert (signed0 false (mul (S754_finite false mq eq)
                           (S754_finite false 7036874417766400 (-46)))) as Hp1
    by (now apply mul_signed0).
  pose proof (signed0_finite_nonnegative _ Hp1 Hfp) as Hpn.
  rewrite Z.abs_eq in Hsp by now apply nonnegative_scaled.
  done.
Qed.

Lemma share_range i n :
  0 <= i < n -> n < 2 ^ prec ->
  exists z, 0 <= z <= 100 /\ Math_round (mul (div (int i) (int n)) (int 100)) = int z.
Proof.
  intros Hi Hn.
  destruct (share_bounds i n ltac:(lia) ltac:(lia)) as [Hf [Hnn Hs]].
  now apply Math_round_range.
Qed.

Lemma int_nonzero z :
  z <> 0 -> Z.abs z < 2 ^ prec ->
  exists s m e, int z = S754_finite s m e /\ bounded prec emax m e = true /\
                Zpos m * 2 ^ (e - emin) = Z.abs z * 2 ^ (- emin).
Proof.
  intros Hz Hlt. destruct (int_exact z Hlt) as [Hf Hs].
  assert (0 < 2 ^ (- emin)) by reflexivity.
  destruct (int z) as [s | s | | s m e]; try discriminate.
  - cbn [scaled] in Hs. nia.
  - cbn [finite] in Hf. pose proof (scaled_pos_pos m e (proj1 (bounded_inv _ _ Hf))).
    exists s, m, e. split; [reflexivity |]. split; [exact Hf |].
    destruct s; cbn [scaled cond_Zopp] in Hs; nia.
Qed.

(** [Math.floor] of a finite number between 0 and [B] is an integer
    between 0 and [B]. *)
Lemma Math_floor_range x B :
  finite x = true -> nonnegative x = true -> 0 <= B < 2 ^ (prec - 1) ->
  scaled x <= B * 2 ^ (- emin) ->
  exists z, 0 <= z <= B /\ Math_floor x = int z.
Proof.
  destruct x as [[] | | | [] m e]; cbn [finite nonnegative]; intros Hb Hn HB Hle;
    try discriminate Hb; try discriminate Hn; clear Hn.
  - exists 0. split; [lia | reflexivity].
  - cbn [scaled cond_Zopp] in Hle.
    assert (2 ^ (prec - 1) < 2 ^ prec) as Hpp by reflexivity.
    destruct (scaled_le_bound m e B Hb ltac:(lia) Hle) as [He Hm].
    pose proof (bounded_inv _ _ Hb) as [_ [_ Hn]].
    assert (e < 0) as He0.
    { destruct (Z.eq_dec e 0) as [-> | ]; [exfalso | lia].
      pose proof (digits2_pos_bounds m) as [Hl _].
      rewrite Hn in Hl by (unfold emin, SpecFloat.emin, prec, emax; lia).
      cbn in Hm. lia. }
    cbn [Math_floor]. destruct (Z.leb_spec 0 e) as [| _]; [lia |].
    cbn [cond_Zopp].
    assert (0 < 2 ^ (- e)) as Hp by (apply Z.pow_pos_nonneg; lia).
    set (z := Zpos m / 2 ^ (- e)).
    assert (0 <= z) as Hz0 by (apply Z.div_pos; lia).
    assert (z < B + 1) as Hz1 by (apply Z.div_lt_upper_bound; [done | nia]).
    exists z. split; [lia |]. destruct z; [reflexivity | reflexivity | lia].
Qed.

(** *** Exact roundings *)

Lemma shr_1_exact r :
  shr_r r = false -> shr_s r = false -> 0 <= shr_m r -> (exists k, shr_m r = k * 2) ->
  shr_r (shr_1 r) = false /\ shr_s (shr_1 r) = false.
Proof.
  destruct r as [m b1 b2]; cbn [shr_m shr_r shr_s shr_1]. intros -> -> Hm [k Hk].
  destruct m as [| [p | p |] | p]; cbn; try (split; reflexivity); lia.
Qed.

Lemma iter_shr_1_exact p r :
  shr_r r = false -> shr_s r = false -> 0 <= shr_m r ->
  (exists k, shr_m r = k * 2 ^ Zpos p) ->
  shr_r (SpecFloat.iter_pos shr_1 p r) = false /\
  shr_s (SpecFloat.iter_pos shr_1 p r) = false.
Proof.
  revert r. induction p as [p IH | p IH |]; intros r Hr Hs Hm [k Hk];
    cbn [SpecFloat.iter_pos].
  - assert (0 < 2 ^ Zpos p) as HP by (apply Z.pow_pos_nonneg; lia).
    assert (2 ^ Zpos p~1 = 2 ^ Zpos p * 2 ^ Zpos p * 2) as E.
    { replace (Zpos p~1) with (Zpos p + Zpos p + 1) by lia.
      rewrite !Z.pow_add_r by lia. reflexivity. }
    rewrite E in Hk.
    destruct (shr_1_exact r Hr Hs Hm) as [Hr1 Hs1];
      [exists (k * 2 ^ Zpos p * 2 ^ Zpos p); lia |].
    assert (shr_m (shr_1 r) = k * 2 ^ Zpos p * 2 ^ Zpos p) as Hm1.
    { rewrite shr_1_m by done. rewrite Hk. symmetry. apply Z.div_unique_exact; lia. }
    assert (0 <= k) as Hk0 by nia.
    destruct (IH (shr_1 r) Hr1 Hs1 ltac:(nia)) as [Hr2 Hs2];
      [exists (k * 2 ^ Zpos p); lia |].
    apply IH; try done.
    + rewrite iter_shr_1_m by nia. apply Z.div_pos; nia.
    + exists k. rewrite iter_shr_1_m by nia. rewrite Hm1. now rewrite Z.div_mul by lia.
  - assert (0 < 2 ^ Zpos p) as HP by (apply Z.pow_pos_nonneg; lia).
    assert (2 ^ Zpos p~0 = 2 ^ Zpos p * 2 ^ Zpos p) as E.
    { replace (Zpos p~0) with (Zpos p + Zpos p) by lia.
      rewrite !Z.pow_add_r by lia. reflexivity. }
    rewrite E in Hk.
    destruct (IH r Hr Hs Hm) as [Hr2 Hs2]; [exists (k * 2 ^ Zpos p); lia |].
    apply IH; try done.
    + rewrite iter_shr_1_m by done. apply Z.div_pos; lia.
    + exists k. rewrite iter_shr_1_m by done. rewrite Hk, Z.mul_assoc.
      now rewrite Z.div_mul by lia.
  - apply shr_1_exact; try done. exists k. exact Hk.
Qed.

(** A rounding of a value on the grid of the result is exact. *)
Lemma binary_round_aux_exact_shift s m e :
  0 <= m -> e <= fexp prec emax (Zdigits2 m + e) ->
  (exists k, m = k * 2 ^ (fexp prec emax (Zdigits2 m + e) - e)) ->
  binary_round_aux prec emax s m e loc_Exact =
    binary_round_aux prec emax s (m / 2 ^ (fexp prec emax (Zdigits2 m + e) - e))
      (fexp prec emax (Zdigits2 m + e)) loc_Exact /\
  fexp prec emax (Zdigits2 (m / 2 ^ (fexp prec emax (Zdigits2 m + e) - e))
                  + fexp prec emax (Zdigits2 m + e))
    = fexp prec emax (Zdigits2 m + e).
Proof.
  intros Hm He Hk.
  pose proof (shr_fexp_value m e loc_Exact Hm He) as [Hs Hv].
  pose proof (shifted_mantissa_bounds m e Hm He) as [[Hm0 Hm1] Hlow].
  set (e1 := fexp prec emax (Zdigits2 m + e)) in *.
  assert (emin <= e1) as He1 by apply fexp_ge_emin.
  assert (loc_of_shr_record (fst (shr_fexp prec emax m e loc_Exact)) = loc_Exact) as Hloc.
  { unfold shr_fexp, shr. fold e1.
    destruct (e1 - e) as [| p | p] eqn:Ep; cbn [fst]; try reflexivity.
    destruct (iter_shr_1_exact p (shr_record_of_loc m loc_Exact) eq_refl eq_refl Hm Hk)
      as [Hr Hs'].
    destruct (SpecFloat.iter_pos shr_1 p _) as [m' r' s']. cbn in Hr, Hs'. now subst. }
  split.
  - unfold binary_round_aux at 1.
    destruct (shr_fexp prec emax m e loc_Exact) as [mrs' e'] eqn:E1.
    cbn [fst snd] in Hs, Hv, Hloc. subst e'. rewrite Hloc, Hv. cbn [round_nearest_even].
    unfold binary_round_aux.
    assert (shr_fexp prec emax (m / 2 ^ (e1 - e)) e1 loc_Exact =
            (shr_record_of_loc (m / 2 ^ (e1 - e)) loc_Exact, e1)) as Es.
    { unfold shr_fexp. apply shr_nonpos.
      pose proof (Zdigits2_le (m / 2 ^ (e1 - e)) prec ltac:(unfold prec; lia) ltac:(lia)).
      unfold fexp. fold emin. lia. }
    rewrite Es.
    cbn [shr_record_of_loc shr_m loc_of_shr_record round_nearest_even].
    rewrite Es. reflexivity.
  - set (m1 := m / 2 ^ (e1 - e)) in *.
    unfold fexp. fold emin. fold (fexp prec emax (Zdigits2 m + e)). fold e1.
    pose proof (Zdigits2_le m1 prec ltac:(unfold prec; lia) ltac:(lia)).
    destruct (Z.eq_dec e1 emin) as [| Hne]; [lia |].
    assert (0 < m1)
      by (specialize (Hlow ltac:(lia)); assert (0 < 2 ^ (prec - 1)) by reflexivity; lia).
    pose proof (Zdigits2_ge m1 prec ltac:(lia) (Hlow ltac:(lia))). lia.
Qed.

Lemma binary_round_aux_exact s m e :
  0 <= m -> e <= fexp prec emax (Zdigits2 m + e) ->
  (exists k, m = k * 2 ^ (fexp prec emax (Zdigits2 m + e) - e)) ->
  binary_round_aux prec emax s m e loc_Exact = S754_infinity s /\
    emax - prec <= fexp prec emax (Zdigits2 m + e)
  \/ finite (binary_round_aux prec emax s m e loc_Exact) = true /\
     scaled (binary_round_aux prec emax s m e loc_Exact) =
       cond_Zopp s (m / 2 ^ (fexp prec emax (Zdigits2 m + e) - e)
                    * 2 ^ (fexp prec emax (Zdigits2 m + e) - emin)).
Proof.
  intros Hm He Hk.
  destruct (binary_round_aux_exact_shift s m e Hm He Hk) as [E Hf1].
  pose proof (shifted_mantissa_bounds m e Hm He) as [[Hm0 Hm1] _].
  rewrite E.
  set (e1 := fexp prec emax (Zdigits2 m + e)) in *.
  set (m1 := m / 2 ^ (e1 - e)) in *.
  destruct (binary_round_aux_spec s m1 e1 loc_Exact ltac:(lia) ltac:(lia))
    as [M [_ [Hex [_ Hr]]]].
  rewrite Hf1 in *. rewrite (Hex eq_refl eq_refl) in Hr. exact Hr.
Qed.

(** Unless the exponent is beyond the range, it gives the value itself. *)
Lemma binary_round_aux_exact_finite s m e :
  0 < m -> e <= fexp prec emax (Zdigits2 m + e) ->
  (exists k, m = k * 2 ^ (fexp prec emax (Zdigits2 m + e) - e)) ->
  fexp prec emax (Zdigits2 m + e) <= emax - prec ->
  binary_round_aux prec emax s m e loc_Exact =
    S754_finite s (Z.to_pos (m / 2 ^ (fexp prec emax (Zdigits2 m + e) - e)))
      (fexp prec emax (Zdigits2 m + e)).
Proof.
  intros Hm He Hk Hle.
  destruct (binary_round_aux_exact_shift s m e ltac:(lia) He Hk) as [E Hf1].
  pose proof (shifted_mantissa_bounds m e ltac:(lia) He) as [[Hm0 Hm1] _].
  rewrite E.
  set (e1 := fexp prec emax (Zdigits2 m + e)) in *.
  assert (0 < 2 ^ (e1 - e)) as Hp by (apply Z.pow_pos_nonneg; lia).
  assert (0 < m / 2 ^ (e1 - e)) as Hm1pos.
  { destruct Hk as [k Hk]. rewrite Hk, Z.div_mul by lia. nia. }
  set (m1 := m / 2 ^ (e1 - e)) in *.
  destruct (binary_round_aux_cases s m1 e1 loc_Exact ltac:(lia) ltac:(lia))
    as [M [_ [Hex ->]]].
  rewrite Hf1 in *. rewrite (Hex eq_refl eq_refl).
  destruct (Z.eqb_spec m1 0); [lia |].
  destruct (Z.ltb_spec m1 (2 ^ prec)); [| lia].
  destruct (Z.leb_spec e1 (emax - prec)); [reflexivity | lia].
Qed.

(** *** Sums *)

Lemma binary_round_upper s m e B :
  emin <= e -> B <= 2 ^ prec ->
  Zpos m * 2 ^ (e - emin) < B * 2 ^ (- emin) ->
  finite (binary_round prec emax s m e) = true /\
  Z.abs (scaled (binary_round prec emax s m e)) <= B * 2 ^ (- emin).
Proof.
  intros He HB Hlt. unfold binary_round.
  pose proof (shl_align_fexp m e) as H.
  pose proof (fexp_ge_emin (Zpos (digits2_pos m) + e)) as Hfe.
  assert (emin <= snd (shl_align m e (fexp prec emax (Zpos (digits2_pos m) + e)))) as Hez.
  { unfold shl_align. destruct (fexp prec emax (Zpos (digits2_pos m) + e) - e) eqn:E;
      cbn [snd]; lia. }
  destruct (shl_align m e _) as [mz ez]. cbn [snd] in Hez.
  destruct H as [H1 [_ [H3 H4]]]. rewrite <- H3 in Hlt.
  apply binary_round_aux_upper; [lia | exact H1 | exact HB |].
  assert (0 < 2 ^ (ez - emin)) as Hp by (apply Z.pow_pos_nonneg; lia).
  assert (0 < 2 ^ (- emin)) as Hp0 by reflexivity.
  assert (ez <= 0) as Hez0.
  { destruct (Z.le_gt_cases ez 0) as [| Hgt]; [done | exfalso].
    assert (prec <= Zdigits2 (Zpos mz)) as Hd
      by (unfold fexp, SpecFloat.emin, emin, prec, emax in *; lia).
    pose proof (Zdigits2_bounds (Zpos mz) ltac:(lia)) as [Hl _].
    assert (2 ^ (prec - 1) <= Zpos mz) as Hm.
    { eapply Z.le_trans; [| exact Hl]. apply Z.pow_le_mono_r; lia. }
    assert (2 ^ (- emin) * 2 <= 2 ^ (ez - emin)) as Hp1.
    { change (2 ^ (- emin) * 2) with (2 ^ (- emin + 1)). apply Z.pow_le_mono_r; lia. }
    change (2 ^ prec) with (2 ^ (prec - 1) * 2) in HB.
    assert (0 < 2 ^ (prec - 1)) by reflexivity. nia. }
  assert (0 < 2 ^ (- ez)) as Hp1 by (apply Z.pow_pos_nonneg; lia).
  assert (2 ^ (- ez) * 2 ^ (ez - emin) = 2 ^ (- emin)) as E
    by (rewrite <- Z.pow_add_r by lia; f_equal; lia).
  nia.
Qed.

Lemma binary_round_lower s m e B :
  emin <= e -> 0 <= B <= 2 ^ prec ->
  B * 2 ^ (- emin) <= Zpos m * 2 ^ (e - emin) ->
  binary_round prec emax s m e = S754_infinity s \/
  finite (binary_round prec emax s m e) = true /\
  B * 2 ^ (- emin) <= Z.abs (scaled (binary_round prec emax s m e)).
Proof.
  intros He HB Hle. unfold binary_round.
  pose proof (shl_align_fexp m e) as H.
  pose proof (fexp_ge_emin (Zpos (digits2_pos m) + e)) as Hfe.
  assert (emin <= snd (shl_align m e (fexp prec emax (Zpos (digits2_pos m) + e)))) as Hez.
  { unfold shl_align. destruct (fexp prec emax (Zpos (digits2_pos m) + e) - e) eqn:E;
      cbn [snd]; lia. }
  destruct (shl_align m e _) as [mz ez]. cbn [snd] in Hez.
  destruct H as [H1 [_ [H3 H4]]]. rewrite <- H3 in Hle.
  apply binary_round_aux_lower; [lia | exact H1 | exact HB |]. intros Hez0.
  assert (0 < 2 ^ (ez - emin)) as Hp by (apply Z.pow_pos_nonneg; lia).
  assert (0 < 2 ^ (- ez)) as Hp1 by (apply Z.pow_pos_nonneg; lia).
  assert (2 ^ (- ez) * 2 ^ (ez - emin) = 2 ^ (- emin)) as E
    by (rewrite <- Z.pow_add_r by lia; f_equal; lia).
  nia.
Qed.

(** The sum of two positive finite numbers. *)
Lemma add_positive_value mx ex my ey :
  bounded prec emax mx ex = true -> bounded prec emax my ey = true ->
  exists m e,
    add (S754_finite false mx ex) (S754_finite false my ey) = binary_round prec emax false m e /\
    emin <= e /\
    Zpos m * 2 ^ (e - emin) = Zpos mx * 2 ^ (ex - emin) + Zpos my * 2 ^ (ey - emin).
Proof.
  intros [Hex _]%bounded_inv [Hey _]%bounded_inv. cbn [add SFadd cond_Zopp].
  pose proof (shl_align_value mx ex (Z.min ex ey) ltac:(lia)) as [Vx _].
  pose proof (shl_align_value my ey (Z.min ex ey) ltac:(lia)) as [Vy _].
  set (ez := Z.min ex ey) in *.
  destruct (Zpos (shl_align mx ex ez).1 + Zpos (shl_align my ey ez).1) as [| p | p] eqn:E;
    try lia.
  exists p, ez. split; [reflexivity |]. split; [lia |].
  rewrite <- E, Vx, Vy.
  assert (forall m e, ez <= e -> emin <= e ->
            Zpos m * 2 ^ (e - ez) * 2 ^ (ez - emin) = Zpos m * 2 ^ (e - emin)) as Hs.
  { intros m e H1 H2. rewrite <- Z.mul_assoc, <- Z.pow_add_r by lia. do 2 f_equal. lia. }
  rewrite Z.mul_add_distr_r, !Hs by lia. reflexivity.
Qed.

(** A product with [4] is exact. *)
Lemma mul_4_exact m e :
  bounded prec emax m e = true -> Zpos m * 2 ^ (e - emin) < 2 ^ (- emin) ->
  finite (mul (S754_finite false m e) (int 4)) = true /\
  nonnegative (mul (S754_finite false m e) (int 4)) = true /\
  scaled (mul (S754_finite false m e) (int 4)) = 4 * (Zpos m * 2 ^ (e - emin)).
Proof.
  intros Hb Hlt.
  change (int 4) with (S754_finite false 4503599627370496 (-50)).
  pose proof (mul_fexp m e 4503599627370496 (-50) Hb eq_refl) as Hf.
  pose proof (bounded_inv _ _ Hb) as [He [Hd Hn]].
  destruct (scaled_lt_bound m e 1 Hb ltac:(done) ltac:(lia)) as [He0 _].
  cbn [mul SFmul xorb]. rewrite Pos2Z.inj_mul in *.
  change (Zpos 4503599627370496) with (2 ^ 52) in *.
  set (e1 := fexp prec emax (Zdigits2 (Zpos m * 2 ^ 52) + (e + -50))) in *.
  assert (Zdigits2 (Zpos m * 2 ^ 52) = Zpos (digits2_pos m) + 52) as Hdig
    by (apply Zdigits2_shift; lia).
  assert (e1 - (e + -50) <= 52) as Hk.
  { unfold e1, fexp. fold emin. rewrite Hdig.
    destruct (Z.eq_dec e emin) as [-> | Hne]; [unfold prec in *; lia |].
    rewrite Hn by lia. unfold prec. lia. }
  assert (0 < 2 ^ (e1 - (e + -50))) as Hp by (apply Z.pow_pos_nonneg; lia).
  assert (2 ^ 52 = 2 ^ (52 - (e1 - (e + -50))) * 2 ^ (e1 - (e + -50))) as E52.
  { rewrite <- Z.pow_add_r by lia. f_equal. lia. }
  assert (emin <= e1) as He1 by apply fexp_ge_emin.
  destruct (binary_round_aux_exact false (Zpos m * 2 ^ 52) (e + -50) ltac:(lia) Hf)
    as [[_ Hinf] | [Hfin Hsc]].
  - exists (Zpos m * 2 ^ (52 - (e1 - (e + -50)))). fold e1. rewrite E52 at 1. ring.
  - exfalso. fold e1 in Hinf.
    pose proof (Zdigits2_nonneg (Zpos m)). 
    unfold e1, fexp, SpecFloat.emin, emin, prec, emax in *. rewrite Hdig in Hinf.
    cbn [Zdigits2] in Hd. lia.
  - fold e1 in Hfin, Hsc. split; [exact Hfin |].
    split.
    + apply signed0_finite_nonnegative; [| exact Hfin].
      apply binary_round_aux_signed0. lia.
    + rewrite Hsc. cbn [cond_Zopp]. rewrite E52 at 1.
      rewrite Z.mul_assoc, Z.div_mul by lia.
      rewrite <- !Z.mul_assoc, <- Z.pow_add_r by lia.
      replace (52 - (e1 - (e + -50)) + (e1 - emin)) with (2 + (e - emin)) by lia.
      rewrite Z.pow_add_r by lia. change (2 ^ 2) with 4. ring.
Qed.

End RoundingFacts.

(** ** The percentile: range, order and repetition *)
Section PercentileMore.
Import JS Percentile.
Local Open Scope Z_scope.

Lemma findIndex_range p l :
  findIndex p l = -1 \/ 0 <= findIndex p l < Z.of_nat (length l).
Proof.
  induction l as [| x l IH]; cbn [findIndex length]; [now left |].
  destruct (p x); [right; lia |].
  destruct (Z.eqb_spec (findIndex p l) (-1)); [now left | right; lia].
Qed.

Lemma percentile_in_range (v : number) (d : list number) :
  Z.of_nat (length d) < 2 ^ 32 ->
  exists z, 0 <= z <= 100 /\ (calculatePercentile v (Some d)).1 = int z.
Proof.
  intros Hlen. unfold calculatePercentile.
  destruct (length d =? 0)%nat; [exists 50; split; [lia | reflexivity] |].
  pose proof (findIndex_range (fun x => ge x v) (sort comparator d)) as Hi.
  rewrite length_sort in *.
  destruct (Z.eqb_spec (findIndex (fun x => ge x v) (sort comparator d)) (-1)) as [| Hne].
  - exists 100. split; [lia | reflexivity].
  - cbn [fst]. apply share_range; [lia |].
    eapply Z.lt_trans; [exact Hlen | reflexivity].
Qed.

(** Whatever the value and the distribution (missing, empty, with NaN or
    infinities), the result of [calculatePercentile] is a whole number
    between 0 and 100, for an array of fewer than 2^32 elements (the most
    an array holds). *)
Theorem calculatePercentile_range (v : number) (d : option (list number)) :
  Z.of_nat (length (default [] d)) < 2 ^ 32 ->
  exists z, 0 <= z <= 100 /\ (calculatePercentile v d).1 = int z.
Proof.
  destruct d as [d |]; cbn [default from_option id].
  - apply percentile_in_range.
  - intros _. exists 50. split; [lia | reflexivity].
Qed.

Lemma calculatePercentile_range_witness :
  exists z, 0 <= z <= 100 /\
    (calculatePercentile NaN (Some [int 5; S754_infinity false; NaN])).1 = int z.
Proof. apply calculatePercentile_range. reflexivity. Defined.

(** Sorting an ascending array leaves it as it is. *)
Lemma sort_ascending_id l :
  Forall (fun y => finite y = true) l -> StronglySorted scaled_le l ->
  sort comparator l = l.
Proof.
  intros Hf Hs. induction Hs as [| x l Hs IH Hx]; [reflexivity |].
  apply Forall_cons in Hf as [Hfx Hf]. cbn [sort]. rewrite IH by done.
  destruct l as [| y l']; [reflexivity |]. cbn [insert].
  apply Forall_cons in Hf as [Hfy _]. apply Forall_cons in Hx as [Hxy _].
  unfold comparator. rewrite gt_comparator by done.
  unfold scaled_le in Hxy. destruct (Z.ltb_spec (scaled y) (scaled x)); [lia | reflexivity].
Qed.

Lemma sort_idempotent l :
  Forall (fun y => finite y = true) l ->
  sort comparator (sort comparator l) = sort comparator l.
Proof. intros Hf. apply sort_ascending_id; [now apply sort_finite | now apply sort_sorted]. Qed.

Lemma calculatePercentile_array (v : number) (d : list number) :
  (calculatePercentile v (Some d)).2 = Some (if (length d =? 0)%nat then d else sort comparator d).
Proof.
  unfold calculatePercentile. destruct (length d =? 0)%nat; [reflexivity |].
  now destruct (_ =? -1).
Qed.

(** A second call finds the array as the first call left it: it does not
    change it again, and it returns what it would have returned on the
    original array. *)
Theorem calculatePercentile_twice (v w : number) (d : list number) :
  Forall (fun x => finite x = true) d ->
  calculatePercentile w (calculatePercentile v (Some d)).2 =
    ((calculatePercentile w (Some d)).1, (calculatePercentile v (Some d)).2).
Proof.
  intros Hd. rewrite calculatePercentile_array.
  destruct d as [| x d']; [reflexivity |]. set (d := x :: d') in *.
  assert ((length d =? 0)%nat = false) as Hlen by reflexivity.
  unfold calculatePercentile. cbv zeta.
  rewrite !Hlen, !length_sort, !Hlen, sort_idempotent by done.
  now destruct (findIndex (fun x => ge x w) (sort comparator d) =? -1).
Qed.

(** After a first call the array [3, 1] is [1, 3], and stays so. *)
Lemma calculatePercentile_twice_witness :
  calculatePercentile (int 2) (calculatePercentile (int 9) (Some [int 3; int 1])).2
    = (int 50, Some [int 1; int 3]).
Proof.
  rewrite (calculatePercentile_twice (int 9) (int 2) [int 3; int 1]
             ltac:(repeat constructor)).
  reflexivity.
Defined.

(** The result depends on the samples as a multiset. *)
Theorem calculatePercentile_multiset (v : number) (d d' : list number) :
  is_number v = true -> Forall (fun x => finite x = true) d -> d ≡ₚ d' ->
  (calculatePercentile v (Some d)).1 = (calculatePercentile v (Some d')).1.
Proof.
  intros Hv Hd Hp.
  assert (Forall (fun x => finite x = true) d') as Hd' by now rewrite <- Hp.
  rewrite !calculatePercentile_spec by done. cbn [fst].
  unfold percentile_spec, strictly_below.
  assert (length (filter (fun x => lt x v = true) d) =
          length (filter (fun x => lt x v = true) d')) as E1 by now rewrite Hp.
  assert (length d = length d') as E2 by now rewrite Hp.
  destruct d as [| x l], d' as [| x' l']; try discriminate; [reflexivity |].
  now rewrite E1, E2.
Qed.

Lemma calculatePercentile_multiset_witness :
  (calculatePercentile (int 3) (Some [int 5; int 1; int 3])).1 =
  (calculatePercentile (int 3) (Some [int 1; int 3; int 5])).1.
Proof.
  apply calculatePercentile_multiset; [reflexivity | repeat constructor |].
  exact (Permutation_cons_append [int 1; int 3] (int 5)).
Defined.

Lemma filter_all {A} (P : A -> Prop) `{!forall x, Decision (P x)} (l : list A) :
  Forall P l -> filter P l = l.
Proof.
  induction 1 as [| x l Hx _ IH]; [done |]. rewrite filter_cons_True by done. now rewrite IH.
Qed.

Lemma share_zero n :
  0 < n < 2 ^ prec -> Math_round (mul (div (int 0) (int n)) (int 100)) = int 0.
Proof.
  intros Hn. destruct (int_positive n Hn) as [m [e [-> _]]]. reflexivity.
Qed.

(** The two ends: 100 above every sample, 0 at or below every sample. *)
Theorem calculatePercentile_extremes (v : number) (d : list number) :
  is_number v = true -> Forall (fun x => finite x = true) d -> d <> [] ->
  Z.of_nat (length d) < 2 ^ 32 ->
  (Forall (fun x => lt x v = true) d -> (calculatePercentile v (Some d)).1 = int 100) /\
  (Forall (fun x => le v x = true) d -> (calculatePercentile v (Some d)).1 = int 0).
Proof.
  intros Hv Hd Hne Hlen. rewrite calculatePercentile_spec by done. cbn [fst].
  unfold percentile_spec, strictly_below.
  destruct d as [| x l]; [done |]. set (d := x :: l) in *. split.
  - intros Hall.
    assert (filter (fun x => lt x v = true) d = d) as ->.
    { now apply filter_all. }
    now rewrite Nat.eqb_refl.
  - intros Hall.
    assert (filter (fun x => lt x v = true) d = []) as ->.
    { apply filter_none. rewrite Forall_forall in Hall, Hd. apply Forall_forall.
      intros y Hy. specialize (Hall y Hy). specialize (Hd y Hy).
      rewrite lt_scaled by auto using finite_is_number.
      rewrite le_scaled in Hall by auto using finite_is_number.
      apply Z.leb_le in Hall. intros Hlt%Z.ltb_lt. lia. }
    subst d. cbn [length Nat.eqb]. apply share_zero. cbn [length] in Hlen.
    split; [lia |]. eapply Z.lt_trans; [exact Hlen | reflexivity].
Qed.

Lemma calculatePercentile_extremes_witness :
  (calculatePercentile (int 9) (Some [int 3; int 1])).1 = int 100 /\
  (calculatePercentile (int 1) (Some [int 3; int 1])).1 = int 0.
Proof.
  destruct (calculatePercentile_extremes (int 9) [int 3; int 1] eq_refl
              ltac:(repeat constructor) ltac:(discriminate) eq_refl) as [H _].
  destruct (calculatePercentile_extremes (int 1) [int 3; int 1] eq_refl
              ltac:(repeat constructor) ltac:(discriminate) eq_refl) as [_ H'].
  split; [apply H | apply H']; repeat constructor.
Defined.

End PercentileMore.

(** ** The score: full marks *)
Section ScoreMore.
Import JS Score.
Local Open Scope Z_scope.

Lemma finite_positive x :
  finite x = true -> gt x (int 0) = true ->
  exists m e, x = S754_finite false m e /\ bounded prec emax m e = true.
Proof.
  destruct x as [[] | | | [] m e]; try discriminate. intros Hb _. now exists m, e.
Qed.

(** A metric at or above a positive average earns the full 100 points. *)
Lemma ratio_score_full x a :
  finite x = true -> finite a = true -> gt a (int 0) = true -> le a x = true ->
  ratio_score x a = int 100.
Proof.
  intros Hx Ha Ha0 Hax.
  destruct (finite_positive a Ha Ha0) as [ma [ea [-> Hba]]].
  rewrite le_scaled in Hax by auto using finite_is_number. apply Z.leb_le in Hax.
  pose proof (scaled_pos_pos ma ea (proj1 (bounded_inv _ _ Hba))) as Hpa.
  cbn [scaled cond_Zopp] in Hax.
  destruct x as [sx | sx | | [] mx ex]; try discriminate;
    cbn [scaled cond_Zopp] in Hax; try lia.
  cbn [finite] in Hx.
  unfold ratio_score.
  assert (0 < 2 ^ (- emin)) as Hp0 by reflexivity.
  destruct (div_lower false mx ex false ma ea 1 Hx Hba ltac:(done) ltac:(lia))
    as [-> | [Hfq Hsq]]; [reflexivity |].
  assert (signed0 false (div (S754_finite false mx ex) (S754_finite false ma ea))) as Hq0
    by (now apply div_signed0).
  pose proof (signed0_finite_nonnegative _ Hq0 Hfq) as Hqn.
  destruct (div (S754_finite false mx ex) (S754_finite false ma ea))
    as [[] | | | [] mq eq]; try discriminate; cbn [scaled cond_Zopp Z.abs] in Hsq; try lia.
  cbn [finite] in Hfq.
  change (int 100) with (S754_finite false 7036874417766400 (-46)).
  destruct (mul_lower false mq eq false 7036874417766400 (-46) 100 Hfq eq_refl
              ltac:(done)) as [-> | [Hfp Hsp]]; [| reflexivity |].
  { change (Zpos 7036874417766400 * 2 ^ (-46 - emin)) with (100 * 2 ^ (- emin)).
    pose proof (scaled_pos_pos mq eq (proj1 (bounded_inv _ _ Hfq))). nia. }
  assert (signed0 false (mul (S754_finite false mq eq)
                           (S754_finite false 7036874417766400 (-46)))) as Hp1
    by (now apply mul_signed0).
  pose proof (signed0_finite_nonnegative _ Hp1 Hfp) as Hpn.
  rewrite Z.abs_eq in Hsp by now apply nonnegative_scaled.
  set (p := mul (S754_finite false mq eq) (S754_finite false 7036874417766400 (-46))) in *.
  unfold Math_min.
  rewrite (compare_scaled (S754_finite false 7036874417766400 (-46)) p eq_refl
             (finite_is_number _ Hfp)).
  change (scaled (S754_finite false 7036874417766400 (-46))) with (100 * 2 ^ (- emin)).
  destruct (Z.compare_spec (100 * 2 ^ (- emin)) (scaled p)) as [E | |]; [| reflexivity | lia].
  cbn [is_neg_zero]. apply scaled_inj; [done | reflexivity | exact (eq_sym E)].
Qed.

(** A profile whose followers, engagement rate and post frequency are each
    at or above a positive average scores exactly 100. *)
Theorem score_100_at_or_above_average (p : profile) (b : benchmarks) :
  finite (ToNumber (followers p)) = true ->
  finite (ToNumber (engagement_rate p)) = true ->
  finite (ToNumber (post_frequency p)) = true ->
  finite (avg_followers b) = true -> gt (avg_followers b) (int 0) = true ->
  finite (avg_engagement b) = true -> gt (avg_engagement b) (int 0) = true ->
  finite (avg_post_frequency b) = true -> gt (avg_post_frequency b) (int 0) = true ->
  le (avg_followers b) (ToNumber (followers p)) = true ->
  le (avg_engagement b) (ToNumber (engagement_rate p)) = true ->
  le (avg_post_frequency b) (ToNumber (post_frequency p)) = true ->
  calculateOverallScore p b = int 100.
Proof.
  intros Hf He Hp Haf Haf0 Hae Hae0 Hap Hap0 H1 H2 H3.
  unfold calculateOverallScore.
  fold (ratio_score (ToNumber (followers p)) (avg_followers b)).
  fold (ratio_score (ToNumber (engagement_rate p)) (avg_engagement b)).
  fold (ratio_score (ToNumber (post_frequency p)) (avg_post_frequency b)).
  rewrite !ratio_score_full by assumption. now vm_compute.
Qed.

Lemma score_100_at_or_above_average_witness :
  calculateOverallScore
    {| followers := Num (int 12000); engagement_rate := Num (dec 25 1);
       post_frequency := Num (dec 52 1) |}
    {| avg_followers := int 12000; avg_engagement := dec 25 1;
       avg_post_frequency := dec 40 1 |} = int 100.
Proof.
  apply score_100_at_or_above_average; reflexivity.
Defined.

End ScoreMore.

(** ** Rankings: bounds and order *)
Section RankingMore.
Import JS Db Rankings.
Local Open Scope Z_scope.

Lemma filter_length_lt {A} (f : A -> bool) (x : A) (l : list A) :
  In x l -> f x = false -> (length (List.filter f l) < length l)%nat.
Proof.
  intros Hin Hf. induction l as [| y l IH]; [destruct Hin |]. cbn [List.filter length].
  pose proof (List.filter_length_le f l) as Hle.
  destruct Hin as [-> | Hin].
  - rewrite Hf. lia.
  - specialize (IH Hin). destruct (f y); cbn [length]; lia.
Qed.

Lemma filter_length_mono {A} (f g : A -> bool) (l : list A) :
  (forall x, f x = true -> g x = true) ->
  (length (List.filter f l) <= length (List.filter g l))%nat.
Proof.
  intros Hfg. induction l as [| y l IH]; [done |]. cbn [List.filter].
  destruct (f y) eqn:Ef.
  - rewrite (Hfg y Ef). cbn [length]. lia.
  - destruct (g y); cbn [length]; lia.
Qed.

Lemma dominates_irreflexive p : dominates p (followers p) (engagement_rate p) = false.
Proof. unfold dominates. rewrite !Z.ltb_irrefl, andb_false_r. reflexivity. Qed.

Lemma subject_found db username_ subject :
  head (List.filter (fun p => String.eqb (username p) username_) (profiles db)) = Some subject ->
  In subject (profiles db) /\ username subject = username_.
Proof.
  intros H.
  assert (In subject (List.filter (fun p => String.eqb (username p) username_) (profiles db)))
    as Hin.
  { destruct (List.filter _ (profiles db)) as [| p l]; [discriminate |].
    injection H as ->. now left. }
  apply List.filter_In in Hin as [Hin Heq]. split; [done | now apply String.eqb_eq].
Qed.

Lemma scope_ranking_within db column location industry_ subject fallback :
  In subject (profiles db) -> in_scope column location industry_ subject = true ->
  exists k n,
    rank (scope_ranking db column location industry_ (followers subject)
            (engagement_rate subject) fallback) = Some k /\
    total (scope_ranking db column location industry_ (followers subject)
             (engagement_rate subject) fallback) = Some n /\
    1 <= k <= n.
Proof.
  intros Hin Hscope.
  assert (In subject (members column location industry_ (profiles db))) as Hmem
    by (apply List.filter_In; split; assumption).
  pose proof (filter_length_lt (fun p => dominates p (followers subject) (engagement_rate subject))
                subject _ Hmem (dominates_irreflexive subject)) as Hlt.
  fold (dominating column location industry_ (followers subject) (engagement_rate subject)
          (profiles db)) in Hlt.
  destruct (int8 db) eqn:Ep.
  - eexists _, _. split; [apply rank_scope_ranking |].
    split; [now apply total_int8_as_string |]. lia.
  - eexists _, _. split; [apply rank_scope_ranking |].
    split; [now apply total_int8_as_number |]. cbv zeta.
    destruct (Z.eqb_spec (Z.of_nat (length (members column location industry_ (profiles db)))) 0);
      lia.
Qed.

(** In a scope the subject itself belongs to, its rank is between 1 and
    the total of the scope. *)
Theorem rank_within_total (db : database) (username_ : string)
    (industry_ locationCity locationState locationCountry : option string)
    (subject : profile_row) :
  head (List.filter (fun p => String.eqb (username p) username_) (profiles db))
    = Some subject ->
  exists r : rankings,
    calculateRankings username_ industry_ locationCity locationState locationCountry db
      = Ok r /\
    (in_scope location_city locationCity industry_ subject = true ->
     exists k n, rank (city r) = Some k /\ total (city r) = Some n /\ 1 <= k <= n) /\
    (in_scope location_state locationState industry_ subject = true ->
     exists k n, rank (state r) = Some k /\ total (state r) = Some n /\ 1 <= k <= n) /\
    (in_scope location_country locationCountry industry_ subject = true ->
     exists k n, rank (national r) = Some k /\ total (national r) = Some n /\ 1 <= k <= n).
Proof.
  intros Hsubject. destruct (subject_found _ _ _ Hsubject) as [Hin _].
  unfold calculateRankings.
  destruct (List.filter _ (profiles db)) as [| profile rest] eqn:E; [discriminate |].
  simpl in Hsubject. injection Hsubject as Hs. subst profile.
  eexists. split; [reflexivity |]. cbn [city state national].
  repeat split; intros Hscope; now apply scope_ranking_within.
Qed.

(** bob is ranked among the three accounts of Austin. *)
Lemma rank_within_total_witness :
  exists r : rankings,
    calculateRankings "bob" (Some "fitness") (Some "Austin") (Some "Texas")
      (Some "United States") austin_db = Ok r /\
    exists k n, rank (city r) = Some k /\ total (city r) = Some n /\ 1 <= k <= n.
Proof.
  destruct (rank_within_total austin_db "bob" (Some "fitness") (Some "Austin")
              (Some "Texas") (Some "United States") (austin "bob" 12543 320) eq_refl)
    as [r [Hr [Hcity _]]].
  exists r. split; [exact Hr | exact (Hcity eq_refl)].
Defined.

Lemma dominates_mono p fa ea fb eb :
  fb < fa \/ fa = fb /\ eb <= ea ->
  dominates p fa ea = true -> dominates p fb eb = true.
Proof.
  unfold dominates. intros Hab.
  rewrite !orb_true_iff, !andb_true_iff, !Z.ltb_lt, !Z.eqb_eq. lia.
Qed.

Lemma scope_rank_mono db column location industry_ fa ea fb eb fallback :
  fb < fa \/ fa = fb /\ eb <= ea ->
  exists ka kb,
    rank (scope_ranking db column location industry_ fa ea fallback) = Some ka /\
    rank (scope_ranking db column location industry_ fb eb fallback) = Some kb /\
    1 <= ka <= kb.
Proof.
  intros Hab. eexists _, _. split; [apply rank_scope_ranking |].
  split; [apply rank_scope_ranking |].
  pose proof (filter_length_mono (fun p => dominates p fa ea) (fun p => dominates p fb eb)
                (members column location industry_ (profiles db))
                (fun p => dominates_mono p fa ea fb eb Hab)) as H.
  unfold dominating. lia.
Qed.

(** A subject with more followers, or as many and at least the engagement
    rate, never ranks behind. *)
Theorem rank_monotone (db : database) (ua ub : string)
    (industry_ locationCity locationState locationCountry : option string)
    (a b : profile_row) :
  head (List.filter (fun p => String.eqb (username p) ua) (profiles db)) = Some a ->
  head (List.filter (fun p => String.eqb (username p) ub) (profiles db)) = Some b ->
  followers b < followers a \/
    followers a = followers b /\ engagement_rate b <= engagement_rate a ->
  exists ra rb : rankings,
    calculateRankings ua industry_ locationCity locationState locationCountry db = Ok ra /\
    calculateRankings ub industry_ locationCity locationState locationCountry db = Ok rb /\
    (exists ka kb, rank (city ra) = Some ka /\ rank (city rb) = Some kb /\ 1 <= ka <= kb) /\
    (exists ka kb, rank (state ra) = Some ka /\ rank (state rb) = Some kb /\ 1 <= ka <= kb) /\
    (exists ka kb, rank (national ra) = Some ka /\ rank (national rb) = Some kb /\
                   1 <= ka <= kb).
Proof.
  intros Ha Hb Hab. unfold calculateRankings.
  destruct (List.filter (fun p => String.eqb (username p) ua) (profiles db))
    as [| pa resta]; [discriminate |].
  destruct (List.filter (fun p => String.eqb (username p) ub) (profiles db))
    as [| pb restb]; [discriminate |].
  simpl in Ha, Hb. injection Ha as ->. injection Hb as ->.
  eexists _, _. split; [reflexivity |]. split; [reflexivity |]. cbn [city state national].
  repeat split; now apply scope_rank_mono.
Qed.

(** cyd, with bob's followers and a greater engagement rate, ranks at or
    before bob. *)
Lemma rank_monotone_witness :
  exists ra rb : rankings,
    calculateRankings "cyd" (Some "fitness") (Some "Austin") (Some "Texas")
      (Some "United States") austin_db = Ok ra /\
    calculateRankings "bob" (Some "fitness") (Some "Austin") (Some "Texas")
      (Some "United States") austin_db = Ok rb /\
    exists ka kb, rank (city ra) = Some ka /\ rank (city rb) = Some kb /\ 1 <= ka <= kb.
Proof.
  destruct (rank_monotone austin_db "cyd" "bob" (Some "fitness") (Some "Austin")
              (Some "Texas") (Some "United States") (austin "cyd" 12543 350)
              (austin "bob" 12543 320) eq_refl eq_refl
              ltac:(right; split; [reflexivity | cbn; lia]))
    as [ra [rb [Hra [Hrb [Hcity _]]]]].
  exists ra, rb. split; [exact Hra | split; [exact Hrb | exact Hcity]].
Defined.


End RankingMore.

(** ** The baseline: the cache, the upsert and the distributions *)
Section BenchmarkMore.
Import JS Db Benchmarks Percentile.
Local Open Scope Z_scope.

Lemma holds_and a b : holds (sql_and a b) = holds a && holds b.
Proof. now destruct a as [[] |], b as [[] |]. Qed.

Lemma same_key_None industry_ b : same_key industry_ None b = false.
Proof.
  unfold same_key. rewrite !holds_and.
  now destruct (b_location_value b); rewrite andb_false_r.
Qed.

Lemma cache_where_spec industry_ city_ t b :
  holds (cache_where industry_ city_ t b) =
    same_key industry_ city_ b
    && holds (sql_gt (b_updated_at b) (Some (t - hours 24))).
Proof. unfold cache_where, same_key. now rewrite !holds_and. Qed.

Lemma filter_none_bool {A} (f : A -> bool) (l : list A) :
  (forall x, f x = false) -> List.filter f l = [].
Proof.
  intros Hf. induction l as [| x l IH]; [done |]. cbn [List.filter]. now rewrite Hf.
Qed.

(** What a recomputation that finds a corpus has done. *)
Lemma calculateBenchmarks_computed industry_ city_ st co db c db' :
  calculateBenchmarks industry_ city_ st co db = Ok (Computed c, db') ->
  let data :=
    List.filter (fun p => holds (corpus_where industry_ city_ st co (now db) p))
      (profiles db) in
  exists industry_stored city_stored af ae apf ar,
    varchar 100 industry_ = Some industry_stored /\
    varchar_null 100 city_ = Some city_stored /\
    (length data =? 0)%nat = false /\
    store_numeric 10 (mean (fun p => int (followers p)) data) = Some af /\
    store_numeric 5 (mean (fun p => of_hundredths (engagement_rate p)) data) = Some ae /\
    store_numeric 5
      (mean (fun p => parseFloat
                        (or_zero (from_option (fun h => Num (of_hundredths h)) Null
                                    (post_frequency p)))) data) = Some apf /\
    store_numeric 5
      (mean (fun p => ToNumber
                        (or_zero (from_option (fun z => Num (int z)) Null
                                    (reel_percentage p)))) data) = Some ar /\
    c_avg_followers c = mean (fun p => int (followers p)) data /\
    c_avg_engagement c = mean (fun p => of_hundredths (engagement_rate p)) data /\
    c_avg_post_frequency c =
      mean (fun p => parseFloat
                       (or_zero (from_option (fun h => Num (of_hundredths h)) Null
                                   (post_frequency p)))) data /\
    c_follower_distribution c = map (fun p => int (followers p)) data /\
    c_engagement_distribution c = map (fun p => of_hundredths (engagement_rate p)) data /\
    c_sample_size c = Z.of_nat (length data) /\
    db' = {| int8 := int8 db; profiles := profiles db;
             benchmarks :=
               upsert industry_stored city_stored af ae apf ar (c_follower_distribution c)
                 (c_engagement_distribution c) (c_sample_size c) (now db) (benchmarks db);
             now := now db |}.
Proof.
  intros H data. unfold calculateBenchmarks in H. fold data in H.
  destruct (length data =? 0)%nat; [discriminate |].
  destruct (varchar 100 industry_) as [industry_stored |] eqn:Ei; [| discriminate].
  destruct (varchar_null 100 city_) as [city_stored |] eqn:Ec; [| discriminate].
  match type of H with
  | match ?x1 with _ => _ end = _ =>
      destruct x1 as [af |] eqn:E1; [| discriminate];
      match type of H with
      | match ?x2 with _ => _ end = _ =>
          destruct x2 as [ae |] eqn:E2; [| discriminate];
          match type of H with
          | match ?x3 with _ => _ end = _ =>
              destruct x3 as [apf |] eqn:E3; [| discriminate];
              match type of H with
              | match ?x4 with _ => _ end = _ =>
                  destruct x4 as [ar |] eqn:E4; [| discriminate]
              end
          end
      end
  end.
  injection H as <- <-. exists industry_stored, city_stored, af, ae, apf, ar. cbn.
  repeat split; assumption.
Qed.

(** What a VARCHAR column keeps. *)
Lemma varchar_fits (n : nat) (s : string) :
  (String.length s <= n)%nat -> varchar n s = Some s.
Proof.
  revert n. induction s as [| a s IH]; intros n H; [now destruct n |].
  destruct n as [| n]; cbn [String.length] in H; [lia |].
  cbn [varchar]. rewrite IH by lia. reflexivity.
Qed.

Lemma varchar_length (n : nat) (s r : string) :
  varchar n s = Some r -> (String.length r <= n)%nat.
Proof.
  revert n r. induction s as [| a s IH]; intros n r H.
  - destruct n; injection H as <-; cbn; lia.
  - destruct n as [| n]; cbn [varchar] in H.
    + destruct (all_spaces (String a s)); [injection H as <-; cbn; lia | discriminate].
    + destruct (varchar n s) as [q |] eqn:E; [| discriminate].
      injection H as <-. cbn [String.length]. specialize (IH n q E). lia.
Qed.

Lemma varchar_null_fits (n : nat) (s : option string) :
  from_option (fun x => (String.length x <= n)%nat) True s ->
  varchar_null n s = Some s.
Proof.
  destruct s as [x |]; cbn [from_option varchar_null]; [| reflexivity].
  intros H. now rewrite varchar_fits.
Qed.

(** Without a city the cache is never read, and every recomputation that
    finds a corpus adds one more row to the table. *)
Theorem no_city_never_cached (industry_ : string) (locationState locationCountry :
    option string) (db : database) :
  getBenchmarks industry_ None locationState locationCountry db =
    calculateBenchmarks industry_ None locationState locationCountry db /\
  forall (c : computed) (db' : database),
    calculateBenchmarks industry_ None locationState locationCountry db
      = Ok (Computed c, db') ->
    exists row : benchmark_row,
      benchmarks db' = benchmarks db ++ [row] /\
      b_location_value row = None /\
      b_sample_size row = Some (c_sample_size c) /\
      getBenchmarks industry_ None locationState locationCountry db' =
        calculateBenchmarks industry_ None locationState locationCountry db'.
Proof.
  assert (forall db0, getBenchmarks industry_ None locationState locationCountry db0 =
            calculateBenchmarks industry_ None locationState locationCountry db0) as Hget.
  { intros db0. unfold getBenchmarks.
    rewrite filter_none_bool; [reflexivity |]. intros b.
    now rewrite cache_where_spec, same_key_None. }
  split; [apply Hget |]. intros c db' H.
  destruct (calculateBenchmarks_computed _ _ _ _ _ _ _ H)
    as (i_ & c_ & af & ae & apf & ar & Hi_ & Hc_ & _ & _ & _ & _ & _ & _ & _ & _
        & _ & _ & _ & ->).
  injection Hc_ as <-. cbn [benchmarks]. unfold upsert.
  assert (existsb (same_key i_ None) (benchmarks db) = false) as ->.
  { apply not_true_is_false. intros [b [_ Hb]]%existsb_exists.
    now rewrite same_key_None in Hb. }
  eexists. split; [reflexivity |]. cbn [b_location_value b_sample_size].
  split; [reflexivity |]. split; [reflexivity |]. apply Hget.
Qed.

Lemma upsert_stored industry_ city_ af ae apf ar fd ed n t rows :
  (forall b, In b (upsert industry_ (Some city_) af ae apf ar fd ed n t rows) ->
             same_key industry_ (Some city_) b = true ->
             stored af ae apf ar fd ed n t b) /\
  (exists b, In b (upsert industry_ (Some city_) af ae apf ar fd ed n t rows) /\
             same_key industry_ (Some city_) b = true).
Proof.
  unfold upsert. destruct (existsb (same_key industry_ (Some city_)) rows) eqn:E.
  - split.
    + intros b' [b [<- Hb]]%in_map_iff.
      destruct (same_key industry_ (Some city_) b) eqn:Eb.
      * intros _. repeat split.
      * intros H. congruence.
    + apply existsb_exists in E as [b [Hb Hk]]. eexists. split.
      * apply in_map_iff. exists b. split; [reflexivity | exact Hb].
      * rewrite Hk. exact Hk.
  - split.
    + intros b [Hb | [<- | []]]%in_app_or.
      * intros Hk. exfalso.
        assert (existsb (same_key industry_ (Some city_)) rows = true) as E'
          by (apply existsb_exists; eauto).
        congruence.
      * intros _. repeat split.
    + eexists. split; [apply in_or_app; right; left; reflexivity |].
      unfold same_key, sql_eq. cbn. now rewrite !String.eqb_refl.
Qed.

Lemma upsert_idempotent industry_ city_ af ae apf ar fd ed n t rows :
  upsert industry_ (Some city_) af ae apf ar fd ed n t
    (upsert industry_ (Some city_) af ae apf ar fd ed n t rows) =
  upsert industry_ (Some city_) af ae apf ar fd ed n t rows.
Proof.
  destruct (upsert_stored industry_ city_ af ae apf ar fd ed n t rows) as [Hall [b [Hb Hk]]].
  set (rows' := upsert industry_ (Some city_) af ae apf ar fd ed n t rows) in *.
  unfold upsert at 1.
  assert (existsb (same_key industry_ (Some city_)) rows' = true) as ->
    by (apply existsb_exists; eauto).
  rewrite <- (map_id rows') at 2. apply map_ext_in. intros r Hr.
  destruct (same_key industry_ (Some city_) r) eqn:Er; [| reflexivity].
  destruct (Hall r Hr Er) as (H1 & H2 & H3 & H4 & H5 & H6 & H7 & H8).
  destruct r. cbn in *. now subst.
Qed.

Lemma upsert_cached industry_ city_ af ae apf ar fd ed n t rows :
  exists row rest,
    List.filter (fun b => holds (cache_where industry_ (Some city_) t b))
      (upsert industry_ (Some city_) af ae apf ar fd ed n t rows) = row :: rest /\
    stored af ae apf ar fd ed n t row.
Proof.
  destruct (upsert_stored industry_ city_ af ae apf ar fd ed n t rows) as [Hall [b [Hb Hk]]].
  set (rows' := upsert industry_ (Some city_) af ae apf ar fd ed n t rows) in *.
  assert (forall r, In r rows' -> same_key industry_ (Some city_) r = true ->
                    holds (cache_where industry_ (Some city_) t r) = true) as Hfresh.
  { intros r Hr Hkr. rewrite cache_where_spec, Hkr.
    destruct (Hall r Hr Hkr) as (_ & _ & _ & _ & _ & _ & _ & ->).
    cbn. destruct (Z.ltb_spec (t - hours 24) t); [reflexivity | unfold hours in *; lia]. }
  destruct (List.filter _ rows') as [| row rest] eqn:E.
  - exfalso.
    assert (In b (List.filter (fun b => holds (cache_where industry_ (Some city_) t b)) rows'))
      as Hin by (apply List.filter_In; auto).
    rewrite E in Hin. destruct Hin.
  - exists row, rest. split; [reflexivity |].
    assert (In row (List.filter (fun b => holds (cache_where industry_ (Some city_) t b)) rows'))
      as Hin by (rewrite E; now left).
    apply List.filter_In in Hin as [Hin Hc].
    rewrite cache_where_spec in Hc. apply andb_true_iff in Hc as [Hc _]. auto.
Qed.

(** A baseline computed for a city is served from the cache afterwards,
    whatever state and country the next request names; the industry and
    the city have at most 100 characters, so that the store holds them as
    they were passed. *)
Theorem computed_baseline_is_cached (industry_ city_ : string)
    (locationState locationCountry : option string) (db db' : database) (c : computed) :
  (String.length industry_ <= 100)%nat -> (String.length city_ <= 100)%nat ->
  calculateBenchmarks industry_ (Some city_) locationState locationCountry db
    = Ok (Computed c, db') ->
  forall locationState' locationCountry' : option string,
    exists row : benchmark_row,
      getBenchmarks industry_ (Some city_) locationState' locationCountry' db'
        = Ok (Cached row, db') /\
      b_sample_size row = Some (c_sample_size c) /\
      b_follower_distribution row = Some (c_follower_distribution c) /\
      b_engagement_distribution row = Some (c_engagement_distribution c) /\
      Some (b_avg_followers row) = store_numeric 10 (c_avg_followers c) /\
      Some (b_avg_engagement row) = store_numeric 5 (c_avg_engagement c) /\
      Some (b_avg_post_frequency row) = store_numeric 5 (c_avg_post_frequency c).
Proof.
  intros Hli Hlc H st' co'.
  destruct (calculateBenchmarks_computed _ _ _ _ _ _ _ H)
    as (i_ & c_ & af & ae & apf & ar & Hi_ & Hc_ & _ & E1 & E2 & E3 & _
        & -> & -> & -> & _ & _ & _ & ->).
  rewrite varchar_fits in Hi_ by exact Hli. injection Hi_ as <-.
  rewrite (varchar_null_fits 100 (Some city_)) in Hc_ by exact Hlc. injection Hc_ as <-.
  unfold getBenchmarks. cbn [benchmarks now].
  match goal with |- context [upsert ?i (Some ?ci) ?a1 ?a2 ?a3 ?a4 ?fd ?ed ?n ?t ?rows] =>
    destruct (upsert_cached i ci a1 a2 a3 a4 fd ed n t rows)
      as [row [rest [-> (H1 & H2 & H3 & H4 & H5 & H6 & H7 & H8)]]]
  end.
  exists row. rewrite E1, E2, E3. repeat split; congruence.
Qed.

(** The baseline computed for fitness in Austin is then served for a
    request that names no state and no country. *)
Lemma computed_baseline_is_cached_witness :
  exists c db' row,
    calculateBenchmarks "fitness" (Some "Austin") (Some "Texas") (Some "United States")
      Rankings.austin_db = Ok (Computed c, db') /\
    getBenchmarks "fitness" (Some "Austin") None None db' = Ok (Cached row, db') /\
    b_sample_size row = Some 3.
Proof.
  assert (exists c db',
            calculateBenchmarks "fitness" (Some "Austin") (Some "Texas")
              (Some "United States") Rankings.austin_db = Ok (Computed c, db') /\
            c_sample_size c = 3) as [c [db' [E En]]].
  { eexists _, _. split; [vm_compute; reflexivity | reflexivity]. }
  destruct (computed_baseline_is_cached "fitness" "Austin" _ _ _ _ _
              ltac:(cbn; lia) ltac:(cbn; lia) E None None) as [row [Hget [Hn _]]].
  exists c, db', row. split; [exact E |]. split; [exact Hget |]. now rewrite Hn, En.
Defined.

(** Recomputing the baseline of a city at once changes nothing: the upsert
    finds the row it has just written and writes the same values. *)
Theorem calculateBenchmarks_idempotent (industry_ city_ : string)
    (locationState locationCountry : option string) (db db' : database) (c : computed) :
  calculateBenchmarks industry_ (Some city_) locationState locationCountry db
    = Ok (Computed c, db') ->
  calculateBenchmarks industry_ (Some city_) locationState locationCountry db'
    = Ok (Computed c, db').
Proof.
  intros H.
  destruct (calculateBenchmarks_computed _ _ _ _ _ _ _ H)
    as (i_ & c_ & af & ae & apf & ar & Hi_ & Hc_ & El & E1 & E2 & E3 & E4 & _ & _ & _
        & Efd & Eed & En & Edb).
  rewrite Efd, Eed, En in Edb. subst db'.
  assert (exists x, c_ = Some x) as [x ->].
  { cbn [varchar_null] in Hc_. destruct (varchar 100 city_) as [x |]; [| discriminate].
    injection Hc_ as <-. now exists x. }
  unfold calculateBenchmarks in *. cbn [profiles now benchmarks int8].
  rewrite El in *. rewrite Hi_, Hc_ in *. rewrite E1, E2, E3, E4 in *. injection H as <-.
  cbn [c_follower_distribution c_engagement_distribution c_sample_size].
  now rewrite upsert_idempotent.
Qed.

Lemma calculateBenchmarks_idempotent_witness :
  exists c db',
    calculateBenchmarks "fitness" (Some "Austin") (Some "Texas") (Some "United States")
      Rankings.austin_db = Ok (Computed c, db') /\
    calculateBenchmarks "fitness" (Some "Austin") (Some "Texas") (Some "United States")
      db' = Ok (Computed c, db').
Proof.
  assert (exists c db',
            calculateBenchmarks "fitness" (Some "Austin") (Some "Texas")
              (Some "United States") Rankings.austin_db = Ok (Computed c, db')) as [c [db' E]].
  { eexists _, _. vm_compute. reflexivity. }
  exists c, db'. split; [exact E |]. exact (calculateBenchmarks_idempotent _ _ _ _ _ _ _ E).
Defined.

Lemma filter_none_in {A} (f : A -> bool) (l : list A) :
  (forall x, In x l -> f x = false) -> List.filter f l = [].
Proof.
  induction l as [| x l IH]; intros Hf; [done |]. cbn [List.filter].
  rewrite (Hf x) by now left. apply IH. intros y Hy. apply Hf. now right.
Qed.

Lemma upsert_location_values industry_ city_ af ae apf ar fd ed n t rows
    (P : option string -> Prop) :
  Forall (fun b => P (b_location_value b)) rows -> P city_ ->
  Forall (fun b => P (b_location_value b))
    (upsert industry_ city_ af ae apf ar fd ed n t rows).
Proof.
  intros Hrows Hcity. unfold upsert. destruct (existsb _ rows).
  - apply Forall_forall. intros b' [b [<- Hb%list_elem_of_In]]%list_elem_of_In%in_map_iff.
    rewrite Forall_forall in Hrows. specialize (Hrows b Hb).
    now destruct (same_key industry_ city_ b).
  - apply Forall_app. split; [exact Hrows |]. now repeat constructor.
Qed.

Lemma same_key_location industry_ city_ b :
  same_key industry_ (Some city_) b = true -> b_location_value b = Some city_.
Proof.
  unfold same_key. rewrite !holds_and. intros [_ H]%andb_true_iff.
  destruct (b_location_value b) as [v |]; [| discriminate].
  cbn in H. destruct (String.eqb_spec v city_) as [Hv | Hv];
    [now rewrite Hv | discriminate].
Qed.

(** A city of more than 100 characters that the store takes (those past
    the 100th being spaces) is stored without them, and the cache is then
    asked for a name no row holds: every later request for that city
    computes the baseline again. The rows already there fit their column,
    as every row the store has taken does. *)
Theorem clipped_city_is_never_cached (industry_ city_ : string)
    (locationState locationCountry : option string) (db db' : database) (c : computed) :
  (100 < String.length city_)%nat ->
  Forall (fun b => from_option (fun v => (String.length v <= 100)%nat) True
                     (b_location_value b)) (benchmarks db) ->
  calculateBenchmarks industry_ (Some city_) locationState locationCountry db
    = Ok (Computed c, db') ->
  (exists row : benchmark_row,
     In row (benchmarks db') /\ b_location_value row = varchar 100 city_ /\
     b_sample_size row = Some (c_sample_size c)) /\
  Forall (fun b => from_option (fun v => (String.length v <= 100)%nat) True
                     (b_location_value b)) (benchmarks db') /\
  forall locationState' locationCountry' : option string,
    getBenchmarks industry_ (Some city_) locationState' locationCountry' db'
      = calculateBenchmarks industry_ (Some city_) locationState' locationCountry' db'.
Proof.
  intros Hlong Hrows H.
  destruct (calculateBenchmarks_computed _ _ _ _ _ _ _ H)
    as (i_ & c_ & af & ae & apf & ar & _ & Hc_ & _ & _ & _ & _ & _ & _ & _ & _
        & _ & _ & _ & ->).
  cbn [varchar_null] in Hc_. destruct (varchar 100 city_) as [x |] eqn:Ex; [| discriminate].
  injection Hc_ as <-. cbn [benchmarks].
  pose proof (varchar_length _ _ _ Ex) as Hx.
  assert (Forall (fun b => from_option (fun v => (String.length v <= 100)%nat) True
                             (b_location_value b))
            (upsert i_ (Some x) af ae apf ar (c_follower_distribution c)
               (c_engagement_distribution c) (c_sample_size c) (now db) (benchmarks db)))
    as Hall by (apply upsert_location_values; [exact Hrows | exact Hx]).
  split; [| split; [exact Hall |]].
  - destruct (upsert_stored i_ x af ae apf ar (c_follower_distribution c)
                (c_engagement_distribution c) (c_sample_size c) (now db) (benchmarks db))
      as [Hst [row [Hin Hk]]].
    exists row. split; [exact Hin |]. split; [now apply same_key_location in Hk |].
    now destruct (Hst row Hin Hk) as (_ & _ & _ & _ & _ & _ & -> & _).
  - intros st' co'. unfold getBenchmarks. cbn [benchmarks now].
    rewrite filter_none_in; [reflexivity |]. intros b Hin.
    destruct (holds (cache_where industry_ (Some city_) (now db) b)) eqn:Eb; [| reflexivity].
    exfalso. rewrite cache_where_spec in Eb. apply andb_true_iff in Eb as [Hk _].
    apply same_key_location in Hk.
    rewrite Forall_forall in Hall. apply list_elem_of_In in Hin.
    specialize (Hall b Hin). rewrite Hk in Hall. cbn [from_option] in Hall. lia.
Qed.

(** Austin followed by 95 spaces: 101 characters. The accounts are found by
    their state; the row is stored under Austin and some spaces, and the
    same request computes the baseline again. *)
Lemma clipped_city_is_never_cached_witness :
  exists c db',
    calculateBenchmarks "fitness" (Some ("Austin" +:+ String.concat " " (repeat EmptyString 96)))
      (Some "Texas") None Rankings.austin_db = Ok (Computed c, db') /\
    getBenchmarks "fitness" (Some ("Austin" +:+ String.concat " " (repeat EmptyString 96)))
      (Some "Texas") None db'
      = calculateBenchmarks "fitness"
          (Some ("Austin" +:+ String.concat " " (repeat EmptyString 96)))
          (Some "Texas") None db'.
Proof.
  assert (exists c db',
            calculateBenchmarks "fitness"
              (Some ("Austin" +:+ String.concat " " (repeat EmptyString 96)))
              (Some "Texas") None Rankings.austin_db = Ok (Computed c, db'))
    as [c [db' E]] by (eexists _, _; vm_compute; reflexivity).
  destruct (clipped_city_is_never_cached "fitness"
              ("Austin" +:+ String.concat " " (repeat EmptyString 96)) (Some "Texas") None
              Rankings.austin_db db' c ltac:(vm_compute; lia) ltac:(constructor) E)
    as (_ & _ & Hget).
  exists c, db'. split; [exact E | apply Hget].
Defined.

(** Every row of the hardcoded table has three positive finite averages:
    outside the inherited names, the fallback baseline is one that a score
    can be divided by. *)
Theorem fallback_averages_positive (industry_ : string) :
  industry_ ∉ Object_prototype ->
  exists row : global_row,
    getGlobalBenchmarks industry_ = Some (Row row) /\
    usable (avg_followers row) /\ usable (avg_engagement row) /\
    usable (avg_post_frequency row).
Proof.
  intros Hn. rewrite getGlobalBenchmarks_row by exact Hn.
  eexists. split; [reflexivity |].
  destruct (table !! industry_) as [r |] eqn:E; cbn [default].
  - apply elem_of_list_to_map_2 in E.
    repeat (apply elem_of_cons in E as [E | E];
            [injection E as _ ->; repeat split; reflexivity |]).
    now apply elem_of_nil in E.
  - repeat split; reflexivity.
Qed.

(** An industry the table lacks gets the ['default'] row. *)
Lemma fallback_averages_positive_witness :
  exists row : global_row,
    getGlobalBenchmarks "kayaking" = Some (Row row) /\ usable (avg_followers row).
Proof.
  destruct (fallback_averages_positive "kayaking"
              ltac:(apply (bool_decide_unpack _); by vm_compute)) as [row [H [Hf _]]].
  exists row. split; [exact H | exact Hf].
Defined.

(** An inherited name resolves to the inherited property, never to a row. *)
Theorem inherited_names_shadow_default (industry_ : string) :
  industry_ ∈ Object_prototype ->
  getGlobalBenchmarks industry_ = Some (Inherited industry_).
Proof.
  intros Hin. unfold getGlobalBenchmarks, get.
  assert (table !! industry_ = None) as ->.
  { repeat (apply elem_of_cons in Hin as [-> | Hin]; [reflexivity |]).
    now apply elem_of_nil in Hin. }
  now rewrite bool_decide_eq_true_2.
Qed.

Lemma inherited_names_shadow_default_witness :
  getGlobalBenchmarks "toString" = Some (Inherited "toString").
Proof.
  apply inherited_names_shadow_default. apply (bool_decide_unpack _). by vm_compute.
Defined.

Lemma of_hundredths_finite z : Z.abs z < 2 ^ prec -> finite (of_hundredths z) = true.
Proof.
  intros Hz. unfold of_hundredths, dec.
  change (int (10 ^ Z.of_nat 2)) with (S754_finite false 7036874417766400 (-46)).
  destruct (Z.eq_dec z 0) as [-> | Hne]; [reflexivity |].
  destruct (int_nonzero z Hne Hz) as [s [m [e [-> [Hb Hs]]]]].
  apply (div_upper s m e false 7036874417766400 (-46) (2 ^ prec) Hb eq_refl ltac:(lia)).
  change (Zpos 7036874417766400 * 2 ^ (-46 - emin)) with (100 * 2 ^ (- emin)).
  assert (0 < 2 ^ (- emin)) by reflexivity. nia.
Qed.

(** The distributions of a computed baseline are arrays of finite numbers,
    one per account of the corpus, so that the percentile of any value in
    them is the reference one. *)
Theorem computed_distributions_are_samples (industry_ : string)
    (locationCity locationState locationCountry : option string) (db db' : database)
    (c : computed) :
  calculateBenchmarks industry_ locationCity locationState locationCountry db
    = Ok (Computed c, db') ->
  Forall (fun p => Z.abs (followers p) < 2 ^ 31 /\ Z.abs (engagement_rate p) < 10 ^ 5)
    (profiles db) ->
  Forall (fun x => finite x = true) (c_follower_distribution c) /\
  Forall (fun x => finite x = true) (c_engagement_distribution c) /\
  Z.of_nat (length (c_follower_distribution c)) = c_sample_size c /\
  Z.of_nat (length (c_engagement_distribution c)) = c_sample_size c /\
  0 < c_sample_size c /\
  forall v : number, is_number v = true ->
    (calculatePercentile v (Some (c_follower_distribution c))).1
      = percentile_spec v (c_follower_distribution c) /\
    (calculatePercentile v (Some (c_engagement_distribution c))).1
      = percentile_spec v (c_engagement_distribution c).
Proof.
  intros H Hcols.
  destruct (calculateBenchmarks_computed _ _ _ _ _ _ _ H)
    as (i_ & c_ & af & ae & apf & ar & Hi_ & Hc_ & El & _ & _ & _ & _ & _ & _ & _ & Efd & Eed & En & _).
  set (data := List.filter _ (profiles db)) in *.
  assert (Forall (fun p => Z.abs (followers p) < 2 ^ 31 /\ Z.abs (engagement_rate p) < 10 ^ 5)
            data) as Hdata.
  { apply Forall_forall. intros p Hp%list_elem_of_In. apply List.filter_In in Hp as [Hp _].
    rewrite Forall_forall in Hcols. apply Hcols. now apply list_elem_of_In. }
  assert (Forall (fun x => finite x = true) (c_follower_distribution c)) as Hfd.
  { rewrite Efd. apply Forall_fmap. eapply Forall_impl; [exact Hdata |].
    intros p [Hp _]. cbn. apply int_exact.
    eapply Z.lt_trans; [exact Hp | reflexivity]. }
  assert (Forall (fun x => finite x = true) (c_engagement_distribution c)) as Hed.
  { rewrite Eed. apply Forall_fmap. eapply Forall_impl; [exact Hdata |].
    intros p [_ Hp]. cbn. apply of_hundredths_finite.
    eapply Z.lt_trans; [exact Hp | reflexivity]. }
  split; [exact Hfd |]. split; [exact Hed |].
  rewrite Efd, Eed, En, !length_map. split; [reflexivity |]. split; [reflexivity |].
  split; [apply Nat.eqb_neq in El; lia |].
  intros v Hv. rewrite <- Efd, <- Eed. now rewrite !calculatePercentile_spec.
Qed.

(** The three accounts of Austin give three finite samples. *)
Lemma computed_distributions_are_samples_witness :
  exists c db',
    calculateBenchmarks "fitness" (Some "Austin") (Some "Texas") (Some "United States")
      Rankings.austin_db = Ok (Computed c, db') /\
    Forall (fun x => finite x = true) (c_follower_distribution c) /\
    c_sample_size c = 3.
Proof.
  assert (exists c db',
            calculateBenchmarks "fitness" (Some "Austin") (Some "Texas")
              (Some "United States") Rankings.austin_db = Ok (Computed c, db') /\
            c_sample_size c = 3) as [c [db' [E En]]].
  { eexists _, _. split; [vm_compute; reflexivity | reflexivity]. }
  destruct (computed_distributions_are_samples _ _ _ _ _ _ _ E) as [Hfd _].
  { repeat constructor; cbn; lia. }
  exists c, db'. split; [exact E |]. split; [exact Hfd | exact En].
Defined.

End BenchmarkMore.

(** ** Insights: the other rules, and the exception *)
Section InsightMore.
Import JS Db Insights.
Local Open Scope Z_scope.

Ltac insight_cases :=
  repeat match goal with
         | |- context [if ?c then _ else _] => destruct c eqn:?
         end.

(** The frequency, content and overall rules, on the list
    [generateInsights] returns, whatever the averages of the baseline are:
    Numbers, the decimal strings of a cached row, or missing. *)
Theorem remaining_rules (p : profile) (b : benchmarks) (score : number)
    (l : list insight) :
  generateInsights p b score = Ok l ->
  emits warning frequency l
    = lt (parseFloat (or_zero (post_frequency p)))
         (mul (average_number (avg_post_frequency b)) (dec 7 1)) /\
  emits info content l = lt (ToNumber (reel_percentage p)) (int 30) /\
  emits success overall l = ge score (int 85) /\
  emits warning overall l = negb (ge score (int 85)) && lt score (int 60) /\
  (reel_percentage p = Null -> emits info content l = true) /\
  (post_frequency p = Null ->
   emits warning frequency l
     = gt (mul (average_number (avg_post_frequency b)) (dec 7 1)) (int 0)) /\
  (score = NaN ->
   emits success overall l = false /\ emits warning overall l = false).
Proof.
  intros ->%generateInsights_Ok.
  match goal with |- emits _ _ ?r = _ /\ _ => set (l := r) end.
  assert (emits warning frequency l
          = lt (parseFloat (or_zero (post_frequency p)))
               (mul (average_number (avg_post_frequency b)) (dec 7 1))) as Hf
    by (unfold l, frequency_fires, content_fires; insight_cases; reflexivity).
  assert (emits info content l = lt (ToNumber (reel_percentage p)) (int 30)) as Hc
    by (unfold l, frequency_fires, content_fires; insight_cases; reflexivity).
  assert (emits success overall l = ge score (int 85)) as Hs
    by (unfold l, frequency_fires, content_fires; insight_cases; reflexivity).
  assert (emits warning overall l = negb (ge score (int 85)) && lt score (int 60)) as Hw
    by (unfold l, frequency_fires, content_fires; insight_cases; reflexivity).
  split; [exact Hf |]. split; [exact Hc |]. split; [exact Hs |]. split; [exact Hw |].
  split; [| split].
  - intros E. rewrite Hc, E. reflexivity.
  - intros E. rewrite Hf, E. reflexivity.
  - intros ->. rewrite Hs, Hw. split; reflexivity.
Qed.

(** An account without a post frequency and without a reel percentage,
    scoring 90 against cached averages handed over as strings whose post
    frequency is NaN: the frequency rule does not fire, the content and the
    overall rule do. *)
Lemma remaining_rules_witness :
  exists l : list insight,
    generateInsights
      {| engagement_rate := Num (dec 310 2); post_frequency := Null;
         reel_percentage := Null |}
      {| avg_engagement := AvgString (Numeric 350);
         avg_post_frequency := AvgString NumericNaN |} (int 90) = Ok l /\
    emits warning frequency l = false /\ emits info content l = true /\
    emits success overall l = true.
Proof.
  assert (exists l,
            generateInsights
              {| engagement_rate := Num (dec 310 2); post_frequency := Null;
                 reel_percentage := Null |}
              {| avg_engagement := AvgString (Numeric 350);
                 avg_post_frequency := AvgString NumericNaN |} (int 90) = Ok l)
    as [l E] by (eexists; vm_compute; reflexivity).
  destruct (remaining_rules _ _ _ _ E) as (Hf & _ & Hs & _ & Hc & _).
  exists l. split; [exact E |]. split; [rewrite Hf; now vm_compute |].
  split; [now apply Hc | rewrite Hs; now vm_compute].
Defined.

Lemma lt_NaN_r (x : number) : lt x NaN = false.
Proof. now destruct x as [[] | [] | | [] m e]. Qed.


(** The one exception [generateInsights] throws: the TypeError of
    [toFixed] on a string, exactly when the frequency rule fires on an
    average that is a string. A missing average never fires the rule (its
    product is NaN), so the property access on [undefined] is never
    reached. *)
Theorem generateInsights_throws (p : profile) (b : benchmarks) (score : number)
    (e : string) :
  generateInsights p b score = Throw e <->
  frequency_fires p b = true /\ (exists x, avg_post_frequency b = AvgString x) /\
  e = "benchmarks.avg_post_frequency.toFixed is not a function".
Proof.
  unfold generateInsights, frequency_fires.
  destruct (avg_post_frequency b) as [x | x |]; cbn [toFixed_receiver average_number].
  - split.
    + destruct (lt (parseFloat (or_zero (post_frequency p))) _); discriminate.
    + intros (_ & [y Hy] & _). discriminate Hy.
  - destruct (lt (parseFloat (or_zero (post_frequency p))) _); split.
    + intros [= <-]. split; [reflexivity |]. split; [now exists x | reflexivity].
    + intros (_ & _ & ->). reflexivity.
    + discriminate.
    + intros (H & _). discriminate H.
  - change (mul NaN (dec 7 1)) with NaN. rewrite lt_NaN_r. split; [discriminate |].
    intros (H & _). discriminate H.
Qed.

End InsightMore.

(** ** The scraped metrics *)
Section MetricsFacts.
Import JS Metrics.
Local Open Scope Z_scope.

(** The share of reels among the posts is a whole number of per cent
    between 0 and 100. *)
Theorem reel_percentage_range (random : number) (profile : apify_profile) :
  Z.of_nat (length (default [] (latestPosts profile))) < 2 ^ 32 ->
  exists z, 0 <= z <= 100 /\
    reel_percentage (calculateEngagementMetrics random profile) = int z.
Proof.
  intros Hlen. unfold calculateEngagementMetrics.
  set (posts := default [] (latestPosts profile)) in *.
  destruct ((length posts =? 0)%nat || no_followers (followersCount profile)) eqn:E.
  { exists 0. split; [lia | reflexivity]. }
  apply orb_false_iff in E as [E%Nat.eqb_neq _]. cbn [reel_percentage].
  pose proof (List.filter_length_le is_reel posts) as Hle.
  destruct (share_bounds (Z.of_nat (length (List.filter is_reel posts)))
              (Z.of_nat (length posts)) ltac:(lia)) as [Hf [Hn Hs]].
  { split; [lia |]. eapply Z.lt_trans; [exact Hlen | reflexivity]. }
  now apply Math_floor_range.
Qed.

(** Three reels among twelve posts. *)
Lemma reel_percentage_range_witness :
  exists z, 0 <= z <= 100 /\
    reel_percentage (calculateEngagementMetrics (dec 5 1) sample_profile) = int z.
Proof. apply reel_percentage_range. reflexivity. Defined.

(** [Math.random] is read only for the post frequency, and only when
    there are fewer than two posts or the first or the last post has no
    timestamp; with two or more posts whose timestamps are date strings,
    the post frequency is 0. *)
Theorem random_estimate_only_without_timestamps (random random' : number)
    (profile : apify_profile) :
  engagement_rate (calculateEngagementMetrics random profile)
    = engagement_rate (calculateEngagementMetrics random' profile) /\
  avg_likes (calculateEngagementMetrics random profile)
    = avg_likes (calculateEngagementMetrics random' profile) /\
  avg_comments (calculateEngagementMetrics random profile)
    = avg_comments (calculateEngagementMetrics random' profile) /\
  avg_views (calculateEngagementMetrics random profile)
    = avg_views (calculateEngagementMetrics random' profile) /\
  reel_percentage (calculateEngagementMetrics random profile)
    = reel_percentage (calculateEngagementMetrics random' profile) /\
  ((2 <= length (default [] (latestPosts profile)))%nat ->
   stamp_truthy (from_option timestamp NoStamp (head (default [] (latestPosts profile))))
     = true ->
   stamp_truthy (from_option timestamp NoStamp (last (default [] (latestPosts profile))))
     = true ->
   calculateEngagementMetrics random profile = calculateEngagementMetrics random' profile) /\
  ((2 <= length (default [] (latestPosts profile)))%nat ->
   from_option timestamp NoStamp (head (default [] (latestPosts profile))) = DateString ->
   from_option timestamp NoStamp (last (default [] (latestPosts profile))) = DateString ->
   post_frequency (calculateEngagementMetrics random profile) = int 0).
Proof.
  unfold calculateEngagementMetrics.
  set (posts := default [] (latestPosts profile)).
  destruct ((length posts =? 0)%nat || no_followers (followersCount profile)) eqn:E.
  { repeat split; reflexivity. }
  cbn [engagement_rate avg_likes avg_comments avg_views reel_percentage post_frequency].
  do 5 (split; [reflexivity |]). split.
  - intros Hlen%Nat.leb_le H1 H2. now rewrite Hlen, H1, H2.
  - intros Hlen%Nat.leb_le H1 H2. rewrite Hlen, H1, H2. reflexivity.
Qed.

(** A numeral with one fraction digit between 3.0 and 7.0 reads back as a
    number between 3 and 7. *)
Lemma tenths_3_to_7 n :
  30 <= n <= 70 ->
  parseFloat_printed (Plain false n 1) = dec n 1 /\
  le (int 3) (dec n 1) = true /\ le (dec n 1) (int 7) = true.
Proof.
  intros Hn.
  assert (exists k : nat, n = 30 + Z.of_nat k /\ (k <= 40)%nat) as [k [-> Hk]]
    by (exists (Z.to_nat (n - 30)); lia).
  clear Hn. do 41 (destruct k as [| k]; [now vm_compute |]). lia.
Qed.

(** [toFixed(1)] of a finite number between 3 and 7 prints between 30 and
    70 tenths. *)
Lemma toFixed_1_range x :
  finite x = true -> nonnegative x = true ->
  3 * 2 ^ (- emin) <= scaled x <= 7 * 2 ^ (- emin) ->
  exists n, 30 <= n <= 70 /\ toFixed 1 x = Plain false n 1.
Proof.
  assert (0 < 2 ^ (- emin)) as Hp0 by reflexivity.
  destruct x as [[] | | | [] m e]; cbn [finite nonnegative]; intros Hb Hn [Hlo Hhi];
    try discriminate Hb; try discriminate Hn; clear Hn.
  { cbn [scaled] in Hlo. lia. }
  cbn [scaled cond_Zopp] in Hlo, Hhi.
  destruct (scaled_le_bound m e 7 Hb ltac:(done) Hhi) as [He Hm].
  pose proof (scaled_ge_bound m e 3 Hb Hlo He) as Hm3.
  pose proof (bounded_inv _ _ Hb) as [_ [_ Hd]].
  assert (e < 0) as He0.
  { destruct (Z.eq_dec e 0) as [-> | ]; [exfalso | lia].
    pose proof (digits2_pos_bounds m) as [Hl _].
    rewrite Hd in Hl by (unfold emin, SpecFloat.emin, prec, emax; lia).
    cbn in Hm. assert (7 < 2 ^ (prec - 1)) by reflexivity. lia. }
  assert (0 < 2 ^ (- e)) as Hp by (apply Z.pow_pos_nonneg; lia).
  assert (2 ^ (- e) = 2 * 2 ^ (- e - 1)) as E.
  { rewrite <- Z.pow_succ_r by lia. f_equal. lia. }
  cbn [toFixed]. destruct (Z.leb_spec 0 e) as [| _]; [lia |].
  destruct (Z.leb_spec (10 ^ 21 * 2 ^ (- e)) (Zpos m)) as [Hbig | _].
  { exfalso. assert (7 < 10 ^ 21) by reflexivity. nia. }
  eexists. split; [| reflexivity]. unfold round_half_up.
  change (10 ^ Z.of_nat 1) with 10. split.
  - apply Z.div_le_lower_bound; [done | nia].
  - assert ((10 * Zpos m + 2 ^ (- e - 1)) / 2 ^ (- e) < 71); [| lia].
    apply Z.div_lt_upper_bound; [done | nia].
Qed.

(** [random * 4 + 3] for a [random] in [0, 1) is a finite number between
    3 and 7. *)
Lemma estimate_bounds random :
  finite random = true -> nonnegative random = true -> lt random (int 1) = true ->
  finite (add (mul random (int 4)) (int 3)) = true /\
  nonnegative (add (mul random (int 4)) (int 3)) = true /\
  3 * 2 ^ (- emin) <= scaled (add (mul random (int 4)) (int 3)) <= 7 * 2 ^ (- emin).
Proof.
  assert (0 < 2 ^ (- emin)) as Hp0 by reflexivity.
  intros Hf Hn Hlt.
  rewrite lt_scaled in Hlt by auto using finite_is_number.
  apply Z.ltb_lt in Hlt. change (scaled (int 1)) with (2 ^ (- emin)) in Hlt.
  destruct random as [[] | | | [] m e]; try discriminate.
  { split; [reflexivity |]. split; [reflexivity |]. now vm_compute. }
  cbn [finite] in Hf. cbn [scaled cond_Zopp] in Hlt.
  destruct (mul_4_exact m e Hf Hlt) as [Hf1 [Hn1 Hs1]].
  pose proof (scaled_pos_pos m e (proj1 (bounded_inv _ _ Hf))) as Hpos.
  destruct (mul (S754_finite false m e) (int 4)) as [[] | | | [] m1 e1];
    try discriminate; cbn [scaled cond_Zopp] in Hs1; try lia.
  cbn [finite] in Hf1.
  change (int 3) with (S754_finite false 6755399441055744 (-51)).
  destruct (add_positive_value m1 e1 6755399441055744 (-51) Hf1 eq_refl)
    as [ms [es [-> [Hes Hval]]]].
  change (Zpos 6755399441055744 * 2 ^ (-51 - emin)) with (3 * 2 ^ (- emin)) in Hval.
  destruct (binary_round_upper false ms es 7 Hes ltac:(done) ltac:(lia)) as [Hfin Hup].
  destruct (binary_round_lower false ms es 3 Hes ltac:(done) ltac:(lia))
    as [Hinf | [_ Hlow]].
  { rewrite Hinf in Hfin. discriminate. }
  pose proof (signed0_finite_nonnegative _ (binary_round_signed0 false ms es) Hfin) as Hnn.
  rewrite Z.abs_eq in Hup, Hlow by now apply nonnegative_scaled.
  done.
Qed.

(** The estimate used when the timestamps are missing is a multiple of 0.1
    between 3 and 7 posts per week. *)
Theorem random_estimate_range (random : number) (profile : apify_profile) :
  finite random = true -> nonnegative random = true -> lt random (int 1) = true ->
  (length (default [] (latestPosts profile)) =? 0)%nat = false ->
  no_followers (followersCount profile) = false ->
  (2 <=? length (default [] (latestPosts profile)))%nat
    && stamp_truthy (from_option timestamp NoStamp (head (default [] (latestPosts profile))))
    && stamp_truthy (from_option timestamp NoStamp (last (default [] (latestPosts profile))))
    = false ->
  exists n, 30 <= n <= 70 /\
    post_frequency (calculateEngagementMetrics random profile) = dec n 1 /\
    le (int 3) (post_frequency (calculateEngagementMetrics random profile)) = true /\
    le (post_frequency (calculateEngagementMetrics random profile)) (int 7) = true.
Proof.
  intros Hf Hn Hlt Hlen Hfol Hts. unfold calculateEngagementMetrics.
  rewrite Hlen, Hfol, Hts. cbn [orb post_frequency].
  destruct (estimate_bounds random Hf Hn Hlt) as [Hfx [Hnx Hsx]].
  destruct (toFixed_1_range _ Hfx Hnx Hsx) as [n [Hn30 ->]].
  destruct (tenths_3_to_7 n Hn30) as [-> [H3 H7]].
  exists n. now repeat split.
Qed.

(** For a single post without a usable history and a random number of 0.5,
    the estimate is 5.0. *)
Lemma random_estimate_range_witness :
  exists n, 30 <= n <= 70 /\
    post_frequency
      (calculateEngagementMetrics (dec 5 1)
         {| latestPosts := Some [sample_post false]; followersCount := Num (int 1200) |})
      = dec n 1.
Proof.
  destruct (random_estimate_range (dec 5 1)
              {| latestPosts := Some [sample_post false]; followersCount := Num (int 1200) |}
              eq_refl eq_refl eq_refl eq_refl eq_refl eq_refl) as [n [Hn [H _]]].
  exists n. split; [exact Hn | exact H].
Defined.

End MetricsFacts.

(** ** The analyze route *)
Section AnalyzeFacts.
Import JS Db Analyze.
Local Open Scope Z_scope.

Lemma emits_frequency_warning p b score l :
  Insights.generateInsights p b score = Ok l ->
  Insights.emits Insights.warning Insights.frequency l = Insights.frequency_fires p b.
Proof.
  intros ->%generateInsights_Ok. unfold Insights.content_fires.
  repeat match goal with
         | |- context [if ?c then _ else _] => destruct c eqn:?
         end; reflexivity.
Qed.

(** The frequency rule on a string average. *)
Lemma generateInsights_string p b score x :
  Insights.frequency_fires p b = true ->
  Insights.avg_post_frequency b = Insights.AvgString x ->
  Insights.generateInsights p b score
    = Throw "benchmarks.avg_post_frequency.toFixed is not a function".
Proof.
  unfold Insights.generateInsights, Insights.frequency_fires. intros -> ->. reflexivity.
Qed.

(** With a baseline served from the cache and NUMERIC columns handed over
    as strings, an analysis whose frequency rule fires ends in a TypeError
    and status 500; were they handed over as Numbers, the same analysis
    would succeed and carry the frequency warning. *)
Theorem frequency_warning_on_cached_baseline (username_ industry_ : string)
    (locationCity locationState locationCountry : option string) (p : profile_row)
    (db db1 : database) (row : benchmark_row) (r : Rankings.rankings) :
  Benchmarks.getBenchmarks industry_ locationCity locationState locationCountry db
    = Ok (Benchmarks.Cached row, db1) ->
  Rankings.calculateRankings username_ (Some industry_) locationCity locationState
    locationCountry db1 = Ok r ->
  Insights.frequency_fires (insight_profile p)
    (insight_benchmarks NumericAsString (Benchmarks.Cached row)) = true ->
  analysis NumericAsString username_ industry_ locationCity locationState locationCountry
    p db = (Status500 "benchmarks.avg_post_frequency.toFixed is not a function", db1) /\
  exists b : body,
    analysis NumericAsNumber username_ industry_ locationCity locationState
      locationCountry p db = (Status200 b, db1) /\
    Insights.emits Insights.warning Insights.frequency (insights b) = true.
Proof.
  intros Hb Hr Hf. unfold analysis. rewrite Hb, Hr. split.
  - now rewrite (generateInsights_string _ _ _ (b_avg_post_frequency row) Hf).
  - assert (Insights.frequency_fires (insight_profile p)
              (insight_benchmarks NumericAsNumber (Benchmarks.Cached row)) = true) as Hf'
      by exact Hf.
    destruct (proj2 (generateInsights_returns (insight_profile p)
                       (insight_benchmarks NumericAsNumber (Benchmarks.Cached row))
                       (Score.calculateOverallScore (score_profile p)
                          (score_benchmarks NumericAsNumber (Benchmarks.Cached row)))))
      as [l Hl].
    { intros _. eexists. reflexivity. }
    rewrite Hl. eexists. split; [reflexivity |]. cbn [insights].
    now rewrite (emits_frequency_warning _ _ _ _ Hl).
Qed.

(** ann posts 4.2 times a week against a cached average of 9. *)
Lemma frequency_warning_on_cached_baseline_witness :
  analysis NumericAsString "ann" "fitness" (Some "Austin") (Some "Texas")
    (Some "United States") ann cached_db
    = (Status500 "benchmarks.avg_post_frequency.toFixed is not a function", cached_db).
Proof.
  apply (frequency_warning_on_cached_baseline "ann" "fitness" (Some "Austin") (Some "Texas")
           (Some "United States") ann cached_db cached_db cached_row
           {| Rankings.city := {| Rankings.rank := Some 1; Rankings.total := Some 1;
                                  Rankings.place := Some "Austin" |};
              Rankings.state := {| Rankings.rank := Some 1; Rankings.total := Some 1;
                                   Rankings.place := Some "Texas" |};
              Rankings.national := {| Rankings.rank := Some 1; Rankings.total := Some 1;
                                      Rankings.place := Some "United States" |} |});
    now vm_compute.
Defined.


(** The percentiles of a response are whole numbers between 0 and 100, and
    both are the neutral 50 against the fallback baseline, whose sample
    size is reported as 100. *)
Theorem analysis_percentiles (np : numeric_parser) (username_ industry_ : string)
    (locationCity locationState locationCountry : option string) (p : profile_row)
    (db db1 db' : database) (b : Benchmarks.baseline) (a : body) :
  Benchmarks.getBenchmarks industry_ locationCity locationState locationCountry db
    = Ok (b, db1) ->
  analysis np username_ industry_ locationCity locationState locationCountry p db
    = (Status200 a, db') ->
  Z.of_nat (length (default [] (Benchmarks.follower_distribution b))) < 2 ^ 32 ->
  Z.of_nat (length (default [] (Benchmarks.engagement_distribution b))) < 2 ^ 32 ->
  db' = db1 /\
  (exists z, 0 <= z <= 100 /\ followerPercentile a = int z) /\
  (exists z, 0 <= z <= 100 /\ engagementPercentile a = int z) /\
  (forall g, b = Benchmarks.Global g ->
     followerPercentile a = int 50 /\ engagementPercentile a = int 50 /\
     sampleSize (benchmarks_ a) = 100).
Proof.
  intros Hb Ha H1 H2. unfold analysis in Ha. rewrite Hb in Ha.
  destruct (Rankings.calculateRankings _ _ _ _ _ _) as [r | e]; [| discriminate].
  destruct (Insights.generateInsights _ _ _) as [i | e] eqn:Ei.
  - assert ((Status200
               {| overall := Score.calculateOverallScore (score_profile p) (score_benchmarks np b);
                  followerPercentile :=
                    (Percentile.calculatePercentile (int (followers p))
                       (Some (default [] (Benchmarks.follower_distribution b)))).1;
                  engagementPercentile :=
                    (Percentile.calculatePercentile
                       (Benchmarks.of_hundredths (engagement_rate p))
                       (Some (default [] (Benchmarks.engagement_distribution b)))).1;
                  benchmarks_ := summarize np b; rankings_ := r; insights := i |}, db1)
            = (Status200 a, db')) as E.
    { destruct b as [row | c | [g |]]; try exact Ha. discriminate. }
    injection E as <- <-. split; [reflexivity |]. cbn [followerPercentile engagementPercentile].
    split; [now apply percentile_in_range |].
    split; [now apply percentile_in_range |].
    intros g ->. repeat split.
  - destruct b as [row | c | [g |]]; discriminate.
Qed.

Lemma analysis_percentiles_witness :
  exists a : body,
    analysis NumericAsNumber "ann" "fitness" (Some "Austin") (Some "Texas")
      (Some "United States") ann cached_db = (Status200 a, cached_db) /\
    exists z, 0 <= z <= 100 /\ followerPercentile a = int z.
Proof.
  assert (exists a, analysis NumericAsNumber "ann" "fitness" (Some "Austin") (Some "Texas")
                      (Some "United States") ann cached_db = (Status200 a, cached_db))
    as [a Ha] by (eexists; vm_compute; reflexivity).
  destruct (analysis_percentiles NumericAsNumber "ann" "fitness" (Some "Austin")
              (Some "Texas") (Some "United States") ann cached_db cached_db cached_db
              (Benchmarks.Cached cached_row) a ltac:(now vm_compute) Ha
              ltac:(now vm_compute) ltac:(now vm_compute)) as [_ [H1 _]].
  exists a. split; [exact Ha | exact H1].
Defined.





End AnalyzeFacts.

(** ** Exact quotients and the DECIMAL round trip *)
Section ExactFacts.
Import JS.
Local Open Scope Z_scope.

(** A division by [1] is exact. *)
Lemma div_one_exact x : finite x = true -> div x (int 1) = x.
Proof.
  destruct x as [[] | | | s m e]; try discriminate; try reflexivity.
  cbn [finite]. intros Hb.
  change (int 1) with (S754_finite false 4503599627370496 (-52)).
  pose proof (bounded_inv _ _ Hb) as [He [Hd Hn]].
  assert (fexp prec emax (Zpos (digits2_pos m) + e) = e) as Hcan.
  { unfold bounded, canonical_mantissa in Hb. apply andb_true_iff in Hb as [Hc _].
    now apply Z.eqb_eq in Hc. }
  assert (e <= emax - prec) as Hmax.
  { unfold bounded in Hb. apply andb_true_iff in Hb as [_ Hc]. now apply Z.leb_le in Hc. }
  cbn [div SFdiv]. unfold SFdiv_core_binary.
  change (Zdigits2 (Zpos 4503599627370496)) with 53. cbn [Zdigits2].
  set (e' := Z.min (fexp prec emax (Zpos (digits2_pos m) + e - (53 + -52))) (e - -52)).
  assert (e' <= e) as He'.
  { unfold e', fexp. fold emin. unfold fexp in Hcan. fold emin in Hcan. unfold prec in *. lia. }
  assert (emin <= e') as He'0.
  { unfold e', fexp. fold emin. lia. }
  set (s' := e - -52 - e').
  assert (52 <= s') as Hs' by (unfold s'; lia).
  assert (match s' with
          | 0 => Zpos m
          | Zpos _ => Z.shiftl (Zpos m) s'
          | Zneg _ => 0
          end = Zpos m * 2 ^ (e - e') * 2 ^ 52) as ->.
  { destruct s' as [| p | p] eqn:Es; [lia | | lia].
    rewrite Z.shiftl_mul_pow2 by lia. rewrite <- Z.mul_assoc, <- Z.pow_add_r by lia.
    do 2 f_equal. lia. }
  change (Zpos 4503599627370496) with (2 ^ 52).
  pose proof (Z_div_mod (Zpos m * 2 ^ (e - e') * 2 ^ 52) (2 ^ 52) ltac:(reflexivity)) as Hdm.
  destruct (Z.div_eucl (Zpos m * 2 ^ (e - e') * 2 ^ 52) (2 ^ 52)) as [q r].
  destruct Hdm as [Hq Hr].
  assert (q = Zpos m * 2 ^ (e - e') /\ r = 0) as [-> ->].
  { set (K := 2 ^ 52) in *. assert (0 < K) by reflexivity. clearbody K.
    set (Q := Zpos m * 2 ^ (e - e')) in *. clearbody Q.
    assert (q = Q) as -> by (destruct (Z.lt_trichotomy q Q) as [| [|]]; nia).
    split; [reflexivity | lia]. }
  assert (new_location (2 ^ 52) 0 = loc_Exact) as -> by reflexivity.
  assert (Zdigits2 (Zpos m * 2 ^ (e - e')) = Zpos (digits2_pos m) + (e - e')) as Hdig
    by (apply Zdigits2_shift; lia).
  assert (fexp prec emax (Zdigits2 (Zpos m * 2 ^ (e - e')) + e') = e) as Hf.
  { rewrite Hdig. rewrite <- Hcan at 2. f_equal. lia. }
  assert (0 < 2 ^ (e - e')) as Hp by (apply Z.pow_pos_nonneg; lia).
  rewrite binary_round_aux_exact_finite; rewrite ?Hf; try lia.
  - rewrite Z.div_mul by lia. rewrite xorb_false_r. reflexivity.
  - exists (Zpos m). reflexivity.
Qed.

Lemma add_zero_l x : finite x = true -> is_neg_zero x = false -> add (int 0) x = x.
Proof. destruct x as [[] | | | s m e]; try discriminate; reflexivity. Qed.

(** [toFixed(2)] of a number that is an integer prints that integer. *)
Lemma toFixed2_integer x z :
  finite x = true -> Z.abs z < 2 ^ prec -> scaled x = z * 2 ^ (- emin) ->
  toFixed2 x = Some (100 * z).
Proof.
  assert (0 < 2 ^ (- emin)) as Hp0 by reflexivity.
  destruct x as [[] | | | s m e]; try discriminate; cbn [finite scaled toFixed2];
    intros Hb Hz Hs; try (f_equal; nia).
  pose proof (bounded_inv _ _ Hb) as [He _].
  pose proof (scaled_pos_pos m e He) as Hpos.
  assert (Zpos m * 2 ^ (e - emin) = Z.abs z * 2 ^ (- emin)) as Habs
    by (destruct s; cbn [cond_Zopp] in Hs; nia).
  assert (cond_Zopp s (Z.abs z) = z) as Hsign
    by (destruct s; cbn [cond_Zopp] in *; nia).
  destruct (scaled_lt_bound m e (2 ^ prec) Hb ltac:(lia) ltac:(nia)) as [He0 _].
  assert (0 < 2 ^ (- e)) as Hp by (apply Z.pow_pos_nonneg; lia).
  assert (2 ^ (- e) * 2 ^ (e - emin) = 2 ^ (- emin)) as E
    by (rewrite <- Z.pow_add_r by lia; f_equal; lia).
  assert (0 < 2 ^ (e - emin)) as Hp1 by (apply Z.pow_pos_nonneg; lia).
  assert (Zpos m = Z.abs z * 2 ^ (- e)) as Hm by nia.
  f_equal.
  assert (100 * z = cond_Zopp s (100 * Z.abs z)) as ->
    by (destruct s; cbn [cond_Zopp] in *; lia).
  f_equal. destruct (Z.leb_spec 0 e) as [H0 | H0].
  - assert (e = 0) as -> by lia. rewrite Hm. cbn. lia.
  - unfold round_half_up. rewrite Hm.
    assert (2 ^ (- e) = 2 * 2 ^ (- e - 1)) as E2.
    { rewrite <- Z.pow_succ_r by lia. f_equal. lia. }
    assert (0 < 2 ^ (- e - 1)) as Hp2 by (apply Z.pow_pos_nonneg; lia).
    symmetry. apply Z.div_unique with (2 ^ (- e - 1)); lia.
Qed.

Lemma div_core_exponent mx ex my ey :
  snd (fst (SFdiv_core_binary prec emax (Zpos mx) ex (Zpos my) ey)) =
    Z.min (fexp prec emax (Zpos (digits2_pos mx) + ex - (Zpos (digits2_pos my) + ey)))
      (ex - ey).
Proof.
  unfold SFdiv_core_binary. cbn [Zdigits2].
  now destruct (Z.div_eucl _ (Zpos my)).
Qed.

(** The quotient of two finite numbers lies within one unit of the last
    place of the exact one. *)
Lemma div_enclosure sx mx ex sy my ey :
  bounded prec emax mx ex = true -> bounded prec emax my ey = true ->
  emin <= ex - ey ->
  finite (div (S754_finite sx mx ex) (S754_finite sy my ey)) = true ->
  exists M u,
    scaled (div (S754_finite sx mx ex) (S754_finite sy my ey))
      = cond_Zopp (xorb sx sy) (M * u) /\
    0 <= M /\ 0 < u /\
    (2 ^ (prec - 1) * u <= M * u \/ u = 1) /\
    (M - 1) * u * (Zpos my * 2 ^ (ey - emin))
      <= Zpos mx * 2 ^ (ex - emin) * 2 ^ (- emin)
      < (M + 1) * u * (Zpos my * 2 ^ (ey - emin)).
Proof.
  intros Hbx Hby Hee. cbn [div SFdiv].
  pose proof (div_core_fexp mx ex my ey) as H.
  pose proof (div_core_exponent mx ex my ey) as Hexp.
  destruct (SFdiv_core_binary prec emax (Zpos mx) ex (Zpos my) ey) as [[q e'] l].
  cbn [fst snd] in Hexp.
  destruct H as [Hq [Hf [He1 [He2 [Hlo Hhi]]]]].
  pose proof (bounded_inv _ _ Hbx) as [Hex _]. pose proof (bounded_inv _ _ Hby) as [Hey _].
  pose proof (fexp_ge_emin (Zpos (digits2_pos mx) + ex - (Zpos (digits2_pos my) + ey))) as Hfe.
  assert (emin <= e') as He' by lia.
  intros Hfin.
  destruct (binary_round_aux_spec (xorb sx sy) q e' l Hq Hf) as [M [HM [_ [_ Hr]]]].
  pose proof (shifted_mantissa_bounds q e' Hq Hf) as [[Hm0 Hm1] Hlow].
  set (e1 := fexp prec emax (Zdigits2 q + e')) in *.
  assert (emin <= e1) as He1' by apply fexp_ge_emin.
  destruct Hr as [[Hinf _] | [_ Hsc]]; [rewrite Hinf in Hfin; discriminate |].
  exists M, (2 ^ (e1 - emin)). split; [exact Hsc |].
  assert (0 < 2 ^ (e1 - emin)) as Hu by (apply Z.pow_pos_nonneg; lia).
  assert (0 < 2 ^ (e1 - e')) as HP by (apply Z.pow_pos_nonneg; lia).
  split; [lia |]. split; [exact Hu |]. split.
  - destruct (Z.eq_dec e1 emin) as [E | E].
    + right. rewrite E, Z.sub_diag. reflexivity.
    + left. specialize (Hlow ltac:(lia)). nia.
  - pose proof (Z.mul_div_le q (2 ^ (e1 - e')) HP) as Hd1.
    pose proof (Z.mul_succ_div_gt q (2 ^ (e1 - e')) HP) as Hd2.
    set (m1 := q / 2 ^ (e1 - e')) in *.
    set (P := 2 ^ (e1 - e')) in *.
    set (S := 2 ^ (ex - ey - e')) in *.
    set (Y := 2 ^ (ey - emin)) in *.
    assert (0 < Y) as HY by (apply Z.pow_pos_nonneg; lia).
    assert (0 < 2 ^ (e' - emin)) as HE by (apply Z.pow_pos_nonneg; lia).
    assert (P * 2 ^ (e' - emin) = 2 ^ (e1 - emin)) as EP
      by (unfold P; rewrite <- Z.pow_add_r by lia; f_equal; lia).
    assert (S * 2 ^ (e' - emin) * Y = 2 ^ (ex - emin) * 2 ^ (- emin)) as ES.
    { unfold S, Y. rewrite <- !Z.pow_add_r by (unfold emin, SpecFloat.emin, prec, emax in *; lia).
      f_equal. lia. }
    rewrite <- EP.
    replace (Zpos mx * 2 ^ (ex - emin) * 2 ^ (- emin))
      with (Zpos mx * S * 2 ^ (e' - emin) * Y)
      by (transitivity (Zpos mx * (2 ^ (ex - emin) * 2 ^ (- emin)));
          [rewrite <- ES; ring | ring]).
    set (T := 2 ^ (e' - emin)) in *.
    assert (0 < T * Y) as HTY by (apply Z.mul_pos_pos; lia).
    assert (0 < Zpos my * (T * Y)) as HmTY by (apply Z.mul_pos_pos; lia).
    assert (0 < P * (Zpos my * (T * Y))) as HK by (apply Z.mul_pos_pos; lia).
    split.
    + apply Z.le_trans with (m1 * (P * (Zpos my * (T * Y)))).
      { replace ((M - 1) * (P * T) * (Zpos my * Y))
          with ((M - 1) * (P * (Zpos my * (T * Y)))) by ring.
        apply Z.mul_le_mono_nonneg_r; lia. }
      apply Z.le_trans with (q * (Zpos my * (T * Y))).
      { replace (m1 * (P * (Zpos my * (T * Y)))) with (P * m1 * (Zpos my * (T * Y))) by ring.
        apply Z.mul_le_mono_nonneg_r; lia. }
      replace (q * (Zpos my * (T * Y))) with (q * Zpos my * (T * Y)) by ring.
      replace (Zpos mx * S * T * Y) with (Zpos mx * S * (T * Y)) by ring.
      apply Z.mul_le_mono_nonneg_r; lia.
    + apply Z.lt_le_trans with ((q + 1) * Zpos my * (T * Y)).
      { replace (Zpos mx * S * T * Y) with (Zpos mx * S * (T * Y)) by ring.
        apply Z.mul_lt_mono_pos_r; lia. }
      apply Z.le_trans with (P * (m1 + 1) * (Zpos my * (T * Y))).
      { replace ((q + 1) * Zpos my * (T * Y)) with ((q + 1) * (Zpos my * (T * Y))) by ring.
        apply Z.mul_le_mono_nonneg_r; [lia |].
        replace (P * (m1 + 1)) with (P * Z.succ m1) by (f_equal; lia). lia. }
      replace (P * (m1 + 1) * (Zpos my * (T * Y)))
        with ((m1 + 1) * (P * (Zpos my * (T * Y)))) by ring.
      replace ((M + 1) * (P * T) * (Zpos my * Y))
        with ((M + 1) * (P * (Zpos my * (T * Y)))) by ring.
      apply Z.mul_le_mono_nonneg_r; lia.
Qed.

(** A DECIMAL read as a Number and written back with [toFixed(2)] is the
    same DECIMAL. *)
Lemma toFixed2_of_hundredths h :
  Z.abs h < 2 ^ 46 -> toFixed2 (Benchmarks.of_hundredths h) = Some h.
Proof.
  intros Hh. unfold Benchmarks.of_hundredths, dec.
  change (int (10 ^ Z.of_nat 2)) with (S754_finite false 7036874417766400 (-46)).
  destruct (Z.eq_dec h 0) as [-> | Hne]; [reflexivity |].
  assert (2 ^ 46 < 2 ^ prec) as H46 by reflexivity.
  destruct (int_nonzero h Hne ltac:(lia)) as [s [mh [eh [Eh [Hbh Hsh]]]]].
  assert (cond_Zopp s (Z.abs h) = h) as Hsign.
  { destruct (int_exact h ltac:(lia)) as [_ Hs]. rewrite Eh in Hs.
    pose proof (scaled_pos_pos mh eh (proj1 (bounded_inv _ _ Hbh))).
    assert (0 < 2 ^ (- emin)) by reflexivity.
    destruct s; cbn [scaled cond_Zopp] in *; nia. }
  rewrite Eh.
  assert (0 < 2 ^ (- emin)) as Hp0 by reflexivity.
  set (m100 := 7036874417766400%positive) in *.
  assert (Zpos m100 * 2 ^ (-46 - emin) = 100 * 2 ^ (- emin)) as H100 by reflexivity.
  destruct (div_upper s mh eh false m100 (-46) (2 ^ 40) Hbh eq_refl ltac:(done))
    as [Hfin Hup].
  { rewrite Hsh, H100. assert (2 ^ 46 < 2 ^ 40 * 100) by reflexivity. nia. }
  destruct (div_enclosure s mh eh false m100 (-46) Hbh eq_refl
              ltac:(pose proof (bounded_inv _ _ Hbh); unfold emin, SpecFloat.emin, prec, emax in *; lia)
              Hfin) as [M [u [Hsc [HM0 [Hu [Hnorm [Hlo Hhi]]]]]]].
  rewrite H100, Hsh in Hlo, Hhi. rewrite xorb_false_r in Hsc.
  set (W := 2 ^ (- emin)) in *.
  assert (100 * ((M - 1) * u) <= Z.abs h * W) as Hlo'.
  { apply (Z.mul_le_mono_pos_r _ _ W); [lia |]. nia. }
  assert (Z.abs h * W < 100 * ((M + 1) * u)) as Hhi'.
  { apply (Z.mul_lt_mono_pos_r W); [lia |]. nia. }
  clear Hlo Hhi.
  rewrite Hsc, abs_cond_Zopp, Z.abs_eq in Hup by nia.
  assert (256 * u <= W) as Hulp.
  { destruct Hnorm as [Hn | ->]; [| unfold W; now vm_compute].
    assert (2 ^ (prec - 1) = 2 ^ 40 * 4096) as E by reflexivity.
    rewrite E in Hn. nia. }
  assert (0 < M) as HMpos by nia.
  destruct (div (S754_finite s mh eh) (S754_finite false m100 (-46)))
    as [sr | sr | | sr mr er]; try discriminate.
  { exfalso. cbn [scaled] in Hsc. destruct s; cbn [cond_Zopp] in Hsc; nia. }
  cbn [finite] in Hfin. cbn [scaled] in Hsc.
  pose proof (scaled_pos_pos mr er (proj1 (bounded_inv _ _ Hfin))) as Hpos.
  assert (sr = s /\ Zpos mr * 2 ^ (er - emin) = M * u) as [-> HR]
    by (destruct sr, s; cbn [cond_Zopp] in Hsc; split; try reflexivity; nia).
  destruct (scaled_le_bound mr er (2 ^ 40) Hfin ltac:(reflexivity) ltac:(fold W; lia))
    as [Her Hmr].
  pose proof (bounded_inv _ _ Hfin) as [Her0 [_ Hd]].
  assert (er < 0) as Hneg.
  { destruct (Z.eq_dec er 0) as [-> | ]; [exfalso | lia].
    pose proof (digits2_pos_bounds mr) as [Hl _].
    rewrite Hd in Hl by (unfold emin, SpecFloat.emin, prec, emax; lia).
    cbn in Hmr. assert (2 ^ 40 < 2 ^ (prec - 1)) by reflexivity. lia. }
  cbn [toFixed2]. destruct (Z.leb_spec 0 er) as [| _]; [lia |].
  f_equal. rewrite <- Hsign. f_equal. unfold round_half_up.
  set (t := 2 ^ (er - emin)) in *.
  assert (0 < t) as Ht by (apply Z.pow_pos_nonneg; lia).
  assert (0 < 2 ^ (- er - 1)) as Hw2 by (apply Z.pow_pos_nonneg; lia).
  assert (2 ^ (- er) = 2 * 2 ^ (- er - 1)) as Ew.
  { rewrite <- Z.pow_succ_r by lia. f_equal. lia. }
  assert (2 ^ (- er) * t = W) as EW
    by (unfold t, W; rewrite <- Z.pow_add_r by lia; f_equal; lia).
  set (w2 := 2 ^ (- er - 1)) in *. rewrite Ew in *.
  assert (Z.abs h <= (100 * Zpos mr + w2) / (2 * w2) < Z.abs h + 1) as Hz; [| lia].
  split.
  - apply Z.div_le_lower_bound; [lia |].
    destruct (Z.le_gt_cases (2 * w2 * Z.abs h) (100 * Zpos mr + w2)) as [| Hgt]; [done |].
    exfalso. assert ((100 * Zpos mr + w2) * (2 * t) < 2 * w2 * Z.abs h * (2 * t)) as Hc
      by (apply Z.mul_lt_mono_pos_r; lia).
    nia.
  - apply Z.div_lt_upper_bound; [lia |].
    destruct (Z.lt_ge_cases (100 * Zpos mr + w2) (2 * w2 * (Z.abs h + 1))) as [| Hge]; [done |].
    exfalso. assert (2 * w2 * (Z.abs h + 1) * (2 * t) <= (100 * Zpos mr + w2) * (2 * t)) as Hc
      by (apply Z.mul_le_mono_nonneg_r; lia).
    nia.
Qed.

End ExactFacts.

(** ** An account alone in its corpus *)
Section LoneAccountFacts.
Import JS Db Benchmarks.
Local Open Scope Z_scope.

(** The mean of a single value is that value. *)
Lemma mean_single (f : profile_row -> number) (p : profile_row) :
  finite (f p) = true -> is_neg_zero (f p) = false -> mean f [p] = f p.
Proof.
  intros Hf Hz. unfold mean. cbn [fold_left length].
  rewrite add_zero_l by done. now apply div_one_exact.
Qed.

Lemma pow46_prec h : Z.abs h < 2 ^ 46 -> Z.abs h < 2 ^ prec.
Proof. intros H. eapply Z.lt_trans; [exact H | reflexivity]. Qed.

Lemma finite_not_nan x : finite x = true -> is_nan x = false.
Proof. now destruct x. Qed.

Lemma int_not_neg_zero z : is_neg_zero (int z) = false.
Proof.
  destruct z as [| p | p]; [reflexivity | |]; cbn [int binary_normalize].
  - pose proof (binary_round_signed0 false p 0) as H.
    now destruct (binary_round prec emax false p 0) as [[] | | |].
  - pose proof (binary_round_signed true p 0 ltac:(unfold emin, SpecFloat.emin, prec, emax; lia)) as H.
    now destruct (binary_round prec emax true p 0) as [[] | | |].
Qed.

Lemma store_numeric_int (pr z : Z) :
  Z.abs z < 2 ^ prec ->
  store_numeric pr (int z) =
    if Z.abs (100 * z) <? 10 ^ pr then Some (Numeric (100 * z)) else None.
Proof.
  intros Hz. destruct (int_exact z Hz) as [Hf Hs].
  unfold store_numeric. rewrite finite_not_nan by done.
  now rewrite (toFixed2_integer (int z) z Hf Hz Hs).
Qed.

Lemma store_numeric_of_hundredths (pr h : Z) :
  Z.abs h < 2 ^ 46 ->
  store_numeric pr (of_hundredths h) =
    if Z.abs h <? 10 ^ pr then Some (Numeric h) else None.
Proof.
  intros Hh. unfold store_numeric.
  rewrite finite_not_nan by (apply of_hundredths_finite; now apply pow46_prec).
  now rewrite toFixed2_of_hundredths.
Qed.

(** A positive DECIMAL denotes a positive finite number. *)
Lemma of_hundredths_positive h :
  0 < h < 2 ^ 46 ->
  finite (of_hundredths h) = true /\ gt (of_hundredths h) (int 0) = true.
Proof.
  intros Hh.
  assert (finite (of_hundredths h) = true) as Hf
    by (apply of_hundredths_finite, pow46_prec; lia).
  split; [exact Hf |].
  pose proof (toFixed2_of_hundredths h ltac:(lia)) as Hr.
  assert (signed0 false (of_hundredths h)) as Hs.
  { unfold of_hundredths, dec. apply div_signed0; [| reflexivity].
    apply signed0_finite_nonnegative; [apply int_signed0; lia |].
    apply int_exact, pow46_prec. lia. }
  destruct (of_hundredths h) as [[] | | | [] m e]; try done.
  cbn in Hr. injection Hr as Hr. lia.
Qed.

Lemma int_positive_number z :
  0 < z < 2 ^ prec -> finite (int z) = true /\ gt (int z) (int 0) = true.
Proof.
  intros Hz. destruct (int_positive z Hz) as [m [e [-> [Hb _]]]]. now split.
Qed.

Lemma le_refl_finite x : finite x = true -> le x x = true.
Proof.
  intros Hf. rewrite le_scaled by auto using finite_is_number. apply Z.leb_refl.
Qed.

Lemma reel_number (r : option Z) :
  Z.abs (default 0 r) < 2 ^ prec ->
  ToNumber (or_zero (from_option (fun z => Num (int z)) Null r)) = int (default 0 r).
Proof.
  destruct r as [z |]; unfold default; cbn [from_option or_zero ToNumber id];
    [| reflexivity].
  intros Hz. destruct (Z.eq_dec z 0) as [-> | Hne]; [reflexivity |].
  destruct (int_nonzero z Hne Hz) as [s [m [e [-> _]]]]. reflexivity.
Qed.

(** An account with 100 million followers or more that is alone in its
    corpus makes the recomputation fail: its mean does not fit
    [avg_followers DECIMAL(10,2)]. The industry and the city (if any) have
    at most 100 characters, so that the store takes the names. *)
Theorem lone_celebrity_overflows (industry_ : string)
    (locationCity locationState locationCountry : option string) (db : database)
    (p : profile_row) :
  (String.length industry_ <= 100)%nat ->
  from_option (fun city => (String.length city <= 100)%nat) True locationCity ->
  List.filter
    (fun q => holds (corpus_where industry_ locationCity locationState locationCountry
                       (now db) q)) (profiles db) = [p] ->
  10 ^ 8 <= followers p < 2 ^ 31 ->
  calculateBenchmarks industry_ locationCity locationState locationCountry db
    = Throw "numeric field overflow".
Proof.
  intros Hli Hlc Hdata Hf. unfold calculateBenchmarks. rewrite Hdata. cbn [length Nat.eqb].
  rewrite (varchar_fits 100 industry_ Hli), (varchar_null_fits 100 locationCity Hlc).
  assert (Z.abs (followers p) < 2 ^ prec) as Hp
    by (eapply Z.lt_trans; [apply Z.abs_lt; split; [| apply Hf] | reflexivity]; lia).
  rewrite (mean_single (fun q => int (followers q)))
    by (try apply int_exact; auto using int_not_neg_zero).
  rewrite store_numeric_int by exact Hp.
  destruct (Z.ltb_spec (Z.abs (100 * followers p)) (10 ^ 10)) as [Hlt |]; [| reflexivity].
  exfalso. change (10 ^ 10) with (100 * 10 ^ 8) in Hlt. lia.
Qed.

Lemma lone_celebrity_overflows_witness :
  calculateBenchmarks "fitness" (Some "Austin") None None
    {| int8 := Int8AsString; profiles := [Rankings.austin "star" 650000000 120];
       benchmarks := []; now := 0 |}
    = Throw "numeric field overflow".
Proof.
  apply (lone_celebrity_overflows "fitness" (Some "Austin") _ _ _
           (Rankings.austin "star" 650000000 120));
    [cbn; lia | cbn; lia | reflexivity | split; [vm_compute; discriminate | reflexivity]].
Defined.

(** An account alone in its corpus is measured against itself: the
    recomputed averages are its own values, it scores exactly 100, and
    both of its percentiles are 0. The industry and the city (if any) have
    at most 100 characters, so that the store takes the names. *)
Theorem lone_account_scores_100 (np : Analyze.numeric_parser) (industry_ : string)
    (locationCity locationState locationCountry : option string) (db : database)
    (p : profile_row) (h : Z) :
  (String.length industry_ <= 100)%nat ->
  from_option (fun city => (String.length city <= 100)%nat) True locationCity ->
  List.filter
    (fun q => holds (corpus_where industry_ locationCity locationState locationCountry
                       (now db) q)) (profiles db) = [p] ->
  0 < followers p < 10 ^ 8 ->
  0 < engagement_rate p < 10 ^ 5 ->
  post_frequency p = Some h -> 0 < h < 10 ^ 5 ->
  Z.abs (default 0 (reel_percentage p)) < 1000 ->
  exists (c : computed) (db' : database),
    calculateBenchmarks industry_ locationCity locationState locationCountry db
      = Ok (Computed c, db') /\
    c_avg_followers c = int (followers p) /\
    c_avg_engagement c = of_hundredths (engagement_rate p) /\
    c_avg_post_frequency c = of_hundredths h /\
    Score.calculateOverallScore (Analyze.score_profile p)
      (Analyze.score_benchmarks np (Computed c)) = int 100 /\
    fst (Percentile.calculatePercentile (int (followers p))
           (Some (c_follower_distribution c))) = int 0 /\
    fst (Percentile.calculatePercentile (of_hundredths (engagement_rate p))
           (Some (c_engagement_distribution c))) = int 0.
Proof.
  intros Hli Hlc Hdata Hf He Hpf Hh Hr.
  assert (10 ^ 8 < 2 ^ 46 /\ 10 ^ 5 < 2 ^ 46 /\ 1000 < 2 ^ 46) as (B8 & B5 & B3)
    by (repeat split; reflexivity).
  destruct (int_positive_number (followers p)) as [Ff Fp];
    [split; [lia | eapply Z.lt_trans; [apply Hf | reflexivity]] |].
  destruct (of_hundredths_positive (engagement_rate p) ltac:(lia)) as [Ef Ep].
  destruct (of_hundredths_positive h ltac:(lia)) as [Pf Pp].
  assert (forall x, finite x = true -> gt x (int 0) = true -> is_neg_zero x = false
                    /\ falsy x = false) as Hpos
    by (intros [[] | | | [] m e]; done).
  unfold calculateBenchmarks. rewrite Hdata. cbn [length Nat.eqb map].
  rewrite (varchar_fits 100 industry_ Hli), (varchar_null_fits 100 locationCity Hlc).
  rewrite (mean_single (fun q => int (followers q))) by auto using int_not_neg_zero.
  rewrite (mean_single (fun q => of_hundredths (engagement_rate q)))
    by (try apply Hpos; assumption).
  rewrite (mean_single (fun q => parseFloat _));
    rewrite Hpf; cbn [from_option or_zero];
    rewrite (proj2 (Hpos _ Pf Pp)); cbn [parseFloat]; [| assumption | now apply Hpos].
  rewrite (mean_single (fun q => ToNumber _));
    rewrite reel_number by (apply pow46_prec; lia);
    [| apply int_exact, pow46_prec; lia | apply int_not_neg_zero].
  rewrite !store_numeric_int by (apply pow46_prec; lia).
  rewrite !store_numeric_of_hundredths by lia.
  destruct (Z.ltb_spec (Z.abs (100 * followers p)) (10 ^ 10)) as [_ | Hge];
    [| exfalso; change (10 ^ 10) with (100 * 10 ^ 8) in Hge; lia].
  destruct (Z.ltb_spec (Z.abs (engagement_rate p)) (10 ^ 5)) as [_ |]; [| lia].
  destruct (Z.ltb_spec (Z.abs h) (10 ^ 5)) as [_ |]; [| lia].
  destruct (Z.ltb_spec (Z.abs (100 * default 0 (reel_percentage p))) (10 ^ 5)) as [_ | Hge];
    [| exfalso; change (10 ^ 5) with (100 * 1000) in Hge; lia].
  eexists _, _. split; [reflexivity |]. cbn [c_avg_followers c_avg_engagement
    c_avg_post_frequency c_follower_distribution c_engagement_distribution].
  do 3 (split; [reflexivity |]). split.
  - unfold Score.calculateOverallScore, Analyze.score_profile, Analyze.score_benchmarks.
    cbn [Score.followers Score.engagement_rate Score.post_frequency Score.avg_followers
         Score.avg_engagement Score.avg_post_frequency Analyze.avg_followers
         Analyze.avg_engagement Analyze.avg_post_frequency Insights.average_number
         c_avg_followers c_avg_engagement c_avg_post_frequency ToNumber].
    rewrite Hpf. cbn [Analyze.decimal_field from_option ToNumber].
    fold (Score.ratio_score (int (followers p)) (int (followers p))).
    fold (Score.ratio_score (of_hundredths (engagement_rate p))
            (of_hundredths (engagement_rate p))).
    fold (Score.ratio_score (of_hundredths h) (of_hundredths h)).
    rewrite !ratio_score_full by auto using le_refl_finite. now vm_compute.
  - assert (forall v, finite v = true ->
                      fst (Percentile.calculatePercentile v (Some [v])) = int 0) as Hself.
    { intros v Hv. unfold Percentile.calculatePercentile. cbn [length Nat.eqb].
      rewrite sort_ascending_id by (repeat constructor; exact Hv).
      cbn [Percentile.findIndex]. unfold ge. rewrite le_refl_finite by exact Hv.
      now vm_compute. }
    split; now apply Hself.
Qed.

Lemma lone_account_scores_100_witness :
  exists (c : computed) (db' : database),
    calculateBenchmarks "fitness" (Some "Austin") None None
      {| int8 := Int8AsString; profiles := [Analyze.ann]; benchmarks := []; now := 0 |}
      = Ok (Computed c, db') /\
    Score.calculateOverallScore (Analyze.score_profile Analyze.ann)
      (Analyze.score_benchmarks Analyze.NumericAsString (Computed c)) = int 100.
Proof.
  destruct (lone_account_scores_100 Analyze.NumericAsString "fitness" (Some "Austin")
              None None
              {| int8 := Int8AsString; profiles := [Analyze.ann]; benchmarks := [];
                 now := 0 |} Analyze.ann 420)
    as (c & db' & E & _ & _ & _ & Hs & _);
    [cbn; lia | cbn; lia | reflexivity | split; reflexivity | split; reflexivity
     | reflexivity | split; reflexivity | reflexivity |].
  exists c, db'. split; [exact E | exact Hs].
Defined.

End LoneAccountFacts.
